(** * Recplot_4: database preparation and recruitment matrices

    A shallow embedding of [recplot_database_prep_revisions_bams.py]:
    the SQLite catalog ([sqldb_creation]), the alignment parser
    ([save_reads_mapped]), incremental sample ingestion ([add_sample]),
    the matrix builder ([prepare_numpy_matrices]) and the matrix filler
    ([fill_matrices]).

    Modelling conventions.
    - Python [int] is [Z].  A finite Python [float] (percent identity,
      identity breaks) is the rational [Q] it denotes; comparisons are
      exact.  The subtraction that builds the identity breaks rounds to
      binary64 ([round64]); the quotient of the percent identity and
      the value of [float(s)] are kept exact, their rounding is outside
      the model.
    - Python [str] is [string]; alignment files are ASCII, so
      [str.isdigit] is the test for '0'..'9'.
    - An uncaught exception is the [Raise] outcome of [result].
    - A [dict] whose iteration order matters is an association list in
      insertion order; one only used for lookups is a [gmap].
    - The SQLite database is a record of relations; every sample table
      lives in a [gmap] keyed by its (constructed) table name. *)

From Stdlib Require Import ZArith QArith Qround Qabs Qpower Lia Lqa List String Ascii Sorted.
From stdpp Require Import gmap strings list pretty.
Import ListNotations.

Local Open Scope string_scope.
Local Open Scope list_scope.
Local Open Scope Z_scope.

(** ** Python runtime *)

Inductive exn : Set :=
  | IndexError
  | TypeError
  | KeyError
  | ValueError
  | ZeroDivisionError
  | AssertionError
  | OperationalError
  | IntegrityError
  | FileNotFoundError.

Inductive result (A : Type) : Type :=
  | Ok (a : A)
  | Raise (e : exn).

Arguments Ok {A} a.
Arguments Raise {A} e.

#[global] Instance result_ret : MRet result := fun _ a => Ok a.

#[global] Instance result_bind : MBind result := fun _ _ k m =>
  match m with
  | Ok a => k a
  | Raise e => Raise e
  end.

Definition is_ok {A : Type} (r : result A) : bool :=
  match r with Ok _ => true | Raise _ => false end.

Definition len {A : Type} (l : list A) : Z := Z.of_nat (length l).

(** [a[i]] on a list or numpy array: a negative index counts from the
    end, anything outside [-len, len) raises [IndexError]. *)
Definition norm_index {A : Type} (l : list A) (i : Z) : option nat :=
  if (0 <=? i) && (i <? len l) then Some (Z.to_nat i)
  else if (- len l <=? i) && (i <? 0) then Some (Z.to_nat (len l + i))
  else None.

Definition py_getitem {A : Type} (l : list A) (i : Z) : result A :=
  match norm_index l i with
  | Some n =>
      match l !! n with
      | Some x => Ok x
      | None => Raise IndexError
      end
  | None => Raise IndexError
  end.

(** [a[i] = x] *)
Definition py_setitem {A : Type} (l : list A) (i : Z) (x : A) : result (list A) :=
  match norm_index l i with
  | Some n => Ok (<[n := x]> l)
  | None => Raise IndexError
  end.

(** [range(lo, hi)] *)
Definition py_range (lo hi : Z) : list Z := seqZ lo (hi - lo).

Fixpoint sumZ (l : list Z) : Z :=
  match l with
  | [] => 0
  | x :: l' => x + sumZ l'
  end.

(** Strict comparison of floats, on their rational model. *)
Definition Qltb (x y : Q) : bool :=
  Qnum x * Z.pos (Qden y) <? Qnum y * Z.pos (Qden x).

(** ** The [bisect] module

    [bisect_right] and [bisect_left] as in CPython's [bisect.py], with
    [lo = 0] and [hi = len(a)].  The interval [hi - lo] at least halves
    at every turn of the [while], so [length a] turns are enough. *)

Section Bisect.
Context {A : Type} (ltb : A -> A -> bool).

Fixpoint bisect_right_loop (fuel : nat) (a : list A) (x : A) (lo hi : Z) : Z :=
  match fuel with
  | O => lo
  | S fuel' =>
      if lo <? hi then
        let mid := (lo + hi) / 2 in
        if ltb x (nth (Z.to_nat mid) a x)
        then bisect_right_loop fuel' a x lo mid
        else bisect_right_loop fuel' a x (mid + 1) hi
      else lo
  end.

Definition bisect_right (a : list A) (x : A) : Z :=
  bisect_right_loop (length a) a x 0 (len a).

Fixpoint bisect_left_loop (fuel : nat) (a : list A) (x : A) (lo hi : Z) : Z :=
  match fuel with
  | O => lo
  | S fuel' =>
      if lo <? hi then
        let mid := (lo + hi) / 2 in
        if ltb (nth (Z.to_nat mid) a x) x
        then bisect_left_loop fuel' a x (mid + 1) hi
        else bisect_left_loop fuel' a x lo mid
      else lo
  end.

Definition bisect_left (a : list A) (x : A) : Z :=
  bisect_left_loop (length a) a x 0 (len a).
End Bisect.

(** ** Matrix builder: [prepare_numpy_matrices] *)

(** *** binary64 subtraction

    [current_break -= bin_height] is a subtraction of binary64 floats:
    the exact difference rounded to the nearest binary64 value, ties to
    even.  Finite floats are the rationals they denote; the rounding is
    written out on [Q]. *)

(** A binary64 value other than nan. *)
Inductive float64 : Type :=
  | Finite (q : Q)
  | PlusInf
  | MinusInf.

(** [floor (log2 a)] for [0 < a]: the quotient of the bit lengths is
    off by at most one. *)
Definition Qlog2 (a : Q) : Z :=
  let e := Z.log2 (Qnum a) - Z.log2 (Zpos (Qden a)) in
  if Qle_bool (2 ^ e) a then e else e - 1.

(** The nearest integer, a tie going to the even one. *)
Definition round_half_even (m : Q) : Z :=
  let f := Qfloor m in
  let d := (m - inject_Z f)%Q in
  if Qltb d (1 # 2) then f
  else if Qltb (1 # 2) d then f + 1
  else if Z.even f then f else f + 1.

(** Rounding to binary64: 53 significant bits, the last one worth
    [2^k] with [k = floor (log2 |x|) - 52], not below [2^-1074]
    (subnormal numbers); a rounded magnitude of [2^1024] or more is an
    infinity. *)
Definition round64 (x : Q) : float64 :=
  if Qeq_bool x 0 then Finite 0
  else
    let a := Qabs x in
    let k := Z.max (Qlog2 a - 52) (-1074) in
    let r := (inject_Z (round_half_even (a / 2 ^ k)) * 2 ^ k)%Q in
    if Qle_bool (2 ^ 1024) r then (if Qltb 0 x then PlusInf else MinusInf)
    else Finite (if Qltb 0 x then r else - r).

(** [x - y] on floats. *)
Definition float64_sub (x y : Q) : float64 := round64 (x - y).

(** The [while current_break > id_lower] loop; [bin_height] and
    [id_lower] are finite floats (or ints that are exact as floats),
    [current_break] starts as 100.  The loop need not terminate, hence
    the fuel: [None] means that it is still running when the fuel is
    spent.  Once [current_break] is [inf] it stays [inf]
    ([inf - bin_height] is [inf], and [inf > id_lower]), so the loop
    never returns; [-inf > id_lower] is false and ends it.  The list is
    built by [append], so [acc] is kept in reverse. *)
Fixpoint id_breaks_loop (fuel : nat) (current_break : float64) (id_lower bin_height : Q)
    (acc : list Q) : option (list Q) :=
  match current_break with
  | Finite c =>
      if Qltb id_lower c then
        match fuel with
        | O => None
        | S fuel' =>
            id_breaks_loop fuel' (float64_sub c bin_height) id_lower bin_height (c :: acc)
        end
      else Some (rev acc)
  | PlusInf => None
  | MinusInf => Some (rev acc)
  end.

(** [id_breaks = np.array(id_breaks[::-1])]; [id_breaks_loop] returns the
    appended list in order, the slice reverses it. *)
Definition make_id_breaks (fuel : nat) (bin_height id_lower : Q) : option (list Q) :=
  match id_breaks_loop fuel (Finite 100) id_lower bin_height [] with
  | Some l => Some (rev l)
  | None => None
  end.

(** [np.linspace(start, stop, num = num, dtype = np.uint64,
    endpoint = False)]: the samples [start + i * (stop - start) / num],
    [i = 0 .. num - 1], floored to integers.  The quotient is taken
    exactly here; what is proved of the bins below needs of the starts
    only their number, their order and that the first one is [start]. *)
Definition np_linspace (start stop num : Z) : list Z :=
  map (fun i => start + (Z.of_nat i * (stop - start)) / num) (seq 0 (Z.to_nat num)).

(** [int(contig_length / width)], with the floor of one bin: true
    division, then truncation toward zero (exact as long as the
    quotient is exact in binary64, which contig lengths are far below). *)
Definition num_bins (contig_length width : Z) : result Z :=
  if width =? 0 then Raise ZeroDivisionError
  else
    let n := Z.quot contig_length width in
    Ok (if n <? 1 then 1 else n).

Definition bin_starts (contig_length n : Z) : list Z :=
  np_linspace 1 contig_length n.

(** [ends = np.append(starts[1:] - 1, contig_length)] *)
Definition bin_ends (starts : list Z) (contig_length : Z) : list Z :=
  map (fun s => s - 1) (tail starts) ++ [contig_length].

(** [np.zeros((rows, cols), dtype = np.uint32)] *)
Definition np_zeros (rows cols : nat) : list (list Z) :=
  repeat (repeat 0 cols) rows.

(** One entry of the [matrix] dictionary: [[starts, ends, numpy_arr]]. *)
Record contig_matrix : Type := ContigMatrix {
  cm_starts : list Z;
  cm_ends : list Z;
  cm_counts : list (list Z)
}.

Definition contig_bins (n_breaks : nat) (contig_length width : Z) : result contig_matrix :=
  n ← num_bins contig_length width;
  let starts := bin_starts contig_length n in
  let ends := bin_ends starts contig_length in
  Ok (ContigMatrix starts ends (np_zeros n_breaks (length starts))).

(** ** Strings *)

Definition is_digit (c : ascii) : bool :=
  let n := nat_of_ascii c in (48 <=? n)%nat && (n <=? 57)%nat.

(** ASCII characters for which [str.isspace] holds. *)
Definition is_space (c : ascii) : bool :=
  let n := nat_of_ascii c in
  ((9 <=? n)%nat && (n <=? 13)%nat) || ((28 <=? n)%nat && (n <=? 32)%nat).

Definition tab : ascii := ascii_of_nat 9.

(** [s.startswith(p)] *)
Definition startswith (s p : string) : bool := String.prefix p s.

(** [p in s] *)
Fixpoint contains (p s : string) : bool :=
  String.prefix p s ||
  match s with
  | EmptyString => false
  | String _ s' => contains p s'
  end.

(** [s[n:]] *)
Fixpoint str_drop (n : nat) (s : string) : string :=
  match n, s with
  | O, _ => s
  | S n', String _ s' => str_drop n' s'
  | S _, EmptyString => EmptyString
  end.

(** [s.split(sep)] for a one-character separator: empty fields are kept. *)
Fixpoint split_on (sep : ascii) (s : string) : list string :=
  match s with
  | EmptyString => [EmptyString]
  | String c s' =>
      if Ascii.eqb c sep then EmptyString :: split_on sep s'
      else
        match split_on sep s' with
        | f :: fs => String c f :: fs
        | [] => [String c EmptyString]
        end
  end.

(** The maximal runs of characters that are not separators: [fields_go]
    returns the run that starts at the head of [s] and the later runs. *)
Fixpoint fields_go (sep : ascii -> bool) (s : string) : string * list string :=
  match s with
  | EmptyString => (EmptyString, [])
  | String c s' =>
      let '(w, ws) := fields_go sep s' in
      if sep c then (EmptyString, match w with EmptyString => ws | _ => w :: ws end)
      else (String c w, ws)
  end.

Definition fields (sep : ascii -> bool) (s : string) : list string :=
  let '(w, ws) := fields_go sep s in
  match w with EmptyString => ws | _ => w :: ws end.

(** [s.split()] *)
Definition py_split (s : string) : list string := fields is_space s.

(** [re.findall('[0-9]+', s)] *)
Definition findall_digits (s : string) : list string :=
  fields (fun c => negb (is_digit c)) s.

(** [len(''.join([i for i in s if not i.isdigit()]))] *)
Fixpoint count_nondigits (s : string) : Z :=
  match s with
  | EmptyString => 0
  | String c s' => (if is_digit c then 0 else 1) + count_nondigits s'
  end.

Definition digit_val (c : ascii) : Z := Z.of_nat (nat_of_ascii c) - 48.

Fixpoint digits_value (acc : Z) (s : string) : Z :=
  match s with
  | EmptyString => acc
  | String c s' => digits_value (10 * acc + digit_val c) s'
  end.

Fixpoint all_digits (s : string) : bool :=
  match s with
  | EmptyString => true
  | String c s' => is_digit c && all_digits s'
  end.

(** [s.strip()] *)
Fixpoint lstrip (s : string) : string :=
  match s with
  | String c s' => if is_space c then lstrip s' else s
  | EmptyString => EmptyString
  end.

Definition strip (s : string) : string :=
  String.rev (lstrip (String.rev (lstrip s))).

(** The digit groups of a numeric literal: digits with single
    underscores between them. *)
Fixpoint digit_groups_ok (prev_digit : bool) (s : string) : bool :=
  match s with
  | EmptyString => prev_digit
  | String c s' =>
      if is_digit c then digit_groups_ok true s'
      else if Ascii.eqb c "_"%char then prev_digit && digit_groups_ok false s'
      else false
  end.

Fixpoint drop_underscores (s : string) : string :=
  match s with
  | EmptyString => EmptyString
  | String c s' =>
      if Ascii.eqb c "_"%char then drop_underscores s' else String c (drop_underscores s')
  end.

(** An optional sign in front of a literal. *)
Definition split_sign (s : string) : Z * string :=
  match s with
  | String "-"%char s' => (-1, s')
  | String "+"%char s' => (1, s')
  | _ => (1, s)
  end.

(** [int(s)] on a [str]: surrounding whitespace, an optional sign and
    decimal digit groups; anything else is a [ValueError]. *)
Definition py_int (s : string) : result Z :=
  let '(sg, body) := split_sign (strip s) in
  if digit_groups_ok false body
  then Ok (sg * digits_value 0 (drop_underscores body))
  else Raise ValueError.

(** Underscores in a [float] literal: each one has a digit before it
    and a digit after it. *)
Fixpoint underscores_ok (prev : ascii) (s : string) : bool :=
  match s with
  | EmptyString => negb (Ascii.eqb prev "_"%char)
  | String c s' =>
      (if Ascii.eqb c "_"%char then is_digit prev
       else negb (Ascii.eqb prev "_"%char) || is_digit c)
      && underscores_ok c s'
  end.

(** The text before the first [e] or [E], and the text after it. *)
Fixpoint split_exponent (s : string) : string * option string :=
  match s with
  | EmptyString => (EmptyString, None)
  | String c s' =>
      if Ascii.eqb c "e"%char || Ascii.eqb c "E"%char then (EmptyString, Some s')
      else let '(m, e) := split_exponent s' in (String c m, e)
  end.

(** The mantissa [ddd], [ddd.ddd], [ddd.] or [.ddd]. *)
Definition mantissa_value (sg : Z) (mantissa : string) : result Q :=
  match split_on "."%char mantissa with
  | [ip] =>
      if all_digits ip && negb (String.eqb ip EmptyString)
      then Ok (inject_Z (sg * digits_value 0 ip))
      else Raise ValueError
  | [ip; fp] =>
      if all_digits ip && all_digits fp
         && negb (String.eqb (ip +:+ fp) EmptyString)
      then Ok (Qmake (sg * digits_value 0 (ip +:+ fp))
                 (Z.to_pos (10 ^ Z.of_nat (String.length fp))))
      else Raise ValueError
  | _ => Raise ValueError
  end.

(** [float(s)] on a [str]: surrounding whitespace, an optional sign, a
    decimal mantissa, an optional exponent, underscores between digits.
    The result is the exact decimal value; that [float] rounds it to
    binary64 is not followed.  The spellings of [inf] and [nan], which
    [float] accepts too, denote no number, and a decimal beyond the
    binary64 range is [inf] for [float]: lines that carry such a value
    are outside this development ([py_float] gives [ValueError] for
    the former and the decimal value for the latter). *)
Definition py_float (s : string) : result Q :=
  let body := strip s in
  if underscores_ok zero body then
    let '(sg, body) := split_sign (drop_underscores body) in
    match split_exponent body with
    | (mantissa, None) => mantissa_value sg mantissa
    | (mantissa, Some exponent) =>
        m ← mantissa_value sg mantissa;
        let '(esg, digits) := split_sign exponent in
        if all_digits digits && negb (String.eqb digits EmptyString)
        then Ok (m * 10 ^ (esg * digits_value 0 digits))%Q
        else Raise ValueError
    end
  else Raise ValueError.

(** ** The database

    The relations of the SQLite file.  [tables] holds the per-sample
    hit tables under their table names, [indexes] the per-sample indexes
    (index name to indexed table); table names are assumed distinct from
    the names of the five fixed relations. *)

Record hit : Type := Hit {
  h_mag_id : Z;
  h_contig_id : Z;
  h_identity : Q;
  h_start : Z;
  h_stop : Z
}.

Record database : Type := Database {
  lookup_table : list (string * Z * string * Z);
  mag_info : list (Z * Z * Z);
  sample_info : list (string * string * Z);
  mags_per_sample : list (string * string);
  tables : gmap string (list hit);
  indexes : gmap string string
}.

(** A statement or a function on the connection: it changes the
    database and returns a value or raises; the database reached when
    an exception leaves the function is kept. *)
Definition db_op (A : Type) : Type := database -> database * result A.

#[global] Instance db_ret : MRet db_op := fun _ a db => (db, Ok a).

#[global] Instance db_bind : MBind db_op := fun _ _ k m db =>
  match m db with
  | (db', Ok a) => k a db'
  | (db', Raise e) => (db', Raise e)
  end.

Definition db_raise {A : Type} (e : exn) : db_op A := fun db => (db, Raise e).

Definition db_lift {A : Type} (r : result A) : db_op A := fun db => (db, r).

Definition db_get : db_op database := fun db => (db, Ok db).

Definition set_tables (t : gmap string (list hit)) (i : gmap string string)
    (db : database) : database :=
  Database (lookup_table db) (mag_info db) (sample_info db) (mags_per_sample db) t i.

Definition set_mags_per_sample (m : list (string * string)) (db : database) : database :=
  Database (lookup_table db) (mag_info db) (sample_info db) m (tables db) (indexes db).

Definition set_sample_info (si : list (string * string * Z)) (db : database) : database :=
  Database (lookup_table db) (mag_info db) si (mags_per_sample db) (tables db) (indexes db).

(** [DROP TABLE IF EXISTS t]: the indexes of the table go with it. *)
Definition drop_table_if_exists (t : string) : db_op unit := fun db =>
  (set_tables (delete t (tables db))
     (filter (fun kv => kv.2 <> t) (indexes db)) db, Ok tt).

(** [CREATE TABLE t (...)] *)
Definition create_table (t : string) : db_op unit := fun db =>
  match tables db !! t, indexes db !! t with
  | None, None => (set_tables (<[t := []]> (tables db)) (indexes db) db, Ok tt)
  | _, _ => (db, Raise OperationalError)
  end.

(** [CREATE INDEX i on t (mag_id)] *)
Definition create_index (i t : string) : db_op unit := fun db =>
  match tables db !! t, tables db !! i, indexes db !! i with
  | Some _, None, None => (set_tables (tables db) (<[i := t]> (indexes db)) db, Ok tt)
  | _, _, _ => (db, Raise OperationalError)
  end.

(** [begin; executemany('INSERT INTO t VALUES(?, ?, ?, ?, ?)', records);
    commit] *)
Definition insert_hits (t : string) (records : list hit) : db_op unit := fun db =>
  match tables db !! t with
  | Some rows => (set_tables (<[t := rows ++ records]> (tables db)) (indexes db) db, Ok tt)
  | None => (db, Raise OperationalError)
  end.

(** [DELETE FROM mags_per_sample WHERE sample_name = ?] *)
Definition delete_mags_per_sample (name : string) : db_op unit := fun db =>
  (set_mags_per_sample
     (List.filter (fun r => negb (String.eqb r.1 name)) (mags_per_sample db)) db, Ok tt).

(** [executemany('INSERT INTO mags_per_sample VALUES(?, ?)', rows)] *)
Definition insert_mags_per_sample (rows : list (string * string)) : db_op unit := fun db =>
  (set_mags_per_sample (mags_per_sample db ++ rows) db, Ok tt).

(** [INSERT INTO sample_info VALUES(?, ?, ?)], under the unique index
    on [sample_name]. *)
Definition insert_sample_info (r : string * string * Z) : db_op unit := fun db =>
  if existsb (fun r' => String.eqb r'.1.1 r.1.1) (sample_info db)
  then (db, Raise IntegrityError)
  else (set_sample_info (sample_info db ++ [r]) db, Ok tt).

(** ** Alignment parser: [save_reads_mapped] *)

(** A value of the [contig_mag_corresp] dictionary as [add_sample]
    builds it: [[mag_name, mag_id, contig_id]].  ([sqldb_creation] calls
    the parser with the dictionary of [get_mags] instead, whose values
    are MAG names: see [corresp_value] and [blast_turn] below.) *)
Definition catalog_entry : Type := string * Z * Z.

(** A record of a BAM file: its [to_string()] line and the value of its
    [MD] tag, if it has one. *)
Record bam_entry : Type := BamEntry {
  bam_to_string : string;
  bam_md : option string
}.

Record filesystem : Type := Filesystem {
  text_files : gmap string (list string);
  bam_files : gmap string (list bam_entry)
}.

(** [if x not in l: l.append(x)] *)
Definition append_new (l : list string) (x : string) : list string :=
  if existsb (String.eqb x) l then l else l ++ [x].

(** The backward scan for the [MD:Z:] field.  The index runs from
    [len(segment) - 1] down through the negative indices, until a field
    matches or [segment[iter]] raises; [2 * len(segment)] turns cover
    every index that can be read. *)
Fixpoint find_mdz (fuel : nat) (segment : list string) (iter : Z) : result string :=
  mdz_seg ← py_getitem segment iter;
  if startswith mdz_seg "MD:Z:" then Ok mdz_seg
  else
    match fuel with
    | O => Raise IndexError
    | S fuel' => find_mdz fuel' segment (iter - 1)
    end.

(** From the value of the tag to [(sum, total_count)]. *)
Definition mdz_counts (mdz_seg : string) : Z * Z :=
  let match_count := findall_digits mdz_seg in
  let sum := fold_left (fun acc num => acc + digits_value 0 num) match_count 0 in
  (sum, count_nondigits mdz_seg + sum).

(** [(sum / total_count) * 100] *)
Definition pct_identity (sum total_count : Z) : result Q :=
  if total_count =? 0 then Raise ZeroDivisionError
  else Ok ((inject_Z sum / inject_Z total_count) * 100)%Q.

(** The part of a SAM or BAM turn after the tag value is known. *)
Definition mdz_hit (e : catalog_entry) (segment : list string) (mdz_seg : string) : result hit :=
  let '(sum, total_count) := mdz_counts mdz_seg in
  pct_id ← pct_identity sum total_count;
  f3 ← py_getitem segment 3;
  start ← py_int f3;
  let end_ := start + total_count - 1 in
  Ok (Hit e.1.2 e.2 pct_id start end_).

(** One turn of each of the three loops, after the batch test: the
    record to append, if any, and the new [contigs_in_sample]. *)
Definition blast_line (cmc : gmap string catalog_entry) (contigs_in_sample : list string)
    (line : string) : result (option hit * list string) :=
  if startswith line "#" then Ok (None, contigs_in_sample)
  else
    let segment := split_on tab line in
    contig_ref ← py_getitem segment 1;
    match cmc !! contig_ref with
    | None => Ok (None, contigs_in_sample)
    | Some e =>
        let contigs_in_sample := append_new contigs_in_sample contig_ref in
        f2 ← py_getitem segment 2;
        pct_id ← py_float f2;
        f8 ← py_getitem segment 8;
        pos1 ← py_int f8;
        f9 ← py_getitem segment 9;
        pos2 ← py_int f9;
        let start := Z.min pos1 pos2 in
        let end_ := start + (Z.max pos1 pos2 - Z.min pos1 pos2) in
        Ok (Some (Hit e.1.2 e.2 pct_id start end_), contigs_in_sample)
    end.

Definition sam_line (cmc : gmap string catalog_entry) (contigs_in_sample : list string)
    (line : string) : result (option hit * list string) :=
  if negb (contains "MD:Z:" line) then Ok (None, contigs_in_sample)
  else
    let segment := py_split line in
    contig_ref ← py_getitem segment 2;
    match cmc !! contig_ref with
    | None => Ok (None, contigs_in_sample)
    | Some e =>
        let contigs_in_sample := append_new contigs_in_sample contig_ref in
        mdz_seg ← find_mdz (2 * length segment) segment (len segment - 1);
        let mdz_seg := str_drop 5 mdz_seg in
        h ← mdz_hit e segment mdz_seg;
        Ok (Some h, contigs_in_sample)
    end.

Definition bam_record (cmc : gmap string catalog_entry) (contigs_in_sample : list string)
    (entry : bam_entry) : result (option hit * list string) :=
  let line := bam_to_string entry in
  if negb (contains "MD:Z:" line) then Ok (None, contigs_in_sample)
  else
    let segment := py_split line in
    contig_ref ← py_getitem segment 2;
    match cmc !! contig_ref with
    | None => Ok (None, contigs_in_sample)
    | Some e =>
        let contigs_in_sample := append_new contigs_in_sample contig_ref in
        mdz_seg ← match bam_md entry with Some v => Ok v | None => Raise KeyError end;
        h ← mdz_hit e segment mdz_seg;
        Ok (Some h, contigs_in_sample)
    end.

(** *** The dictionary at the two call sites

    [save_reads_mapped] subscripts the values of [contig_mag_corresp]
    with [1] and [2].  [add_sample] passes the dictionary it builds from
    [lookup_table], whose values are the lists
    [[mag_name, mag_id, contig_id]]: that is [catalog_entry], and the
    turns above.  [sqldb_creation] builds the same lists in
    [contig_information] but passes [contig_mag_corresp], the
    dictionary of [get_mags], whose values are MAG names.  The turns
    below follow the subscripts on either kind of value and give the
    tuple that is appended to [records]. *)
Inductive corresp_value : Type :=
  | CorrespList (e : catalog_entry)
  | CorrespName (mag_name : string).

(** What such a subscript gives: an [int] or a [str]. *)
Inductive py_field : Type :=
  | FieldInt (z : Z)
  | FieldStr (s : string).

(** [v[i]]: an element of the list, or the one-character string at
    position [i] of the name. *)
Definition corresp_getitem (v : corresp_value) (i : Z) : result py_field :=
  match v with
  | CorrespList e => py_getitem [FieldStr e.1.1; FieldInt e.1.2; FieldInt e.2] i
  | CorrespName mag_name =>
      c ← py_getitem (list_ascii_of_string mag_name) i;
      Ok (FieldStr (String c EmptyString))
  end.

(** The tuple [(mag_id, contig_id, pct_id, start, end)]. *)
Record raw_record : Type := RawRecord {
  rr_mag_id : py_field;
  rr_contig_id : py_field;
  rr_identity : Q;
  rr_start : Z;
  rr_stop : Z
}.

Definition raw_of_hit (h : hit) : raw_record :=
  RawRecord (FieldInt (h_mag_id h)) (FieldInt (h_contig_id h)) (h_identity h)
    (h_start h) (h_stop h).

Definition mdz_record (v : corresp_value) (segment : list string) (mdz_seg : string)
    : result raw_record :=
  let '(sum, total_count) := mdz_counts mdz_seg in
  pct_id ← pct_identity sum total_count;
  f3 ← py_getitem segment 3;
  start ← py_int f3;
  let end_ := start + total_count - 1 in
  mag_id ← corresp_getitem v 1;
  contig_id ← corresp_getitem v 2;
  Ok (RawRecord mag_id contig_id pct_id start end_).

Definition blast_turn (contig_mag_corresp : gmap string corresp_value)
    (contigs_in_sample : list string) (line : string)
    : result (option raw_record * list string) :=
  if startswith line "#" then Ok (None, contigs_in_sample)
  else
    let segment := split_on tab line in
    contig_ref ← py_getitem segment 1;
    match contig_mag_corresp !! contig_ref with
    | None => Ok (None, contigs_in_sample)
    | Some v =>
        let contigs_in_sample := append_new contigs_in_sample contig_ref in
        f2 ← py_getitem segment 2;
        pct_id ← py_float f2;
        f8 ← py_getitem segment 8;
        pos1 ← py_int f8;
        f9 ← py_getitem segment 9;
        pos2 ← py_int f9;
        let start := Z.min pos1 pos2 in
        let end_ := start + (Z.max pos1 pos2 - Z.min pos1 pos2) in
        mag_id ← corresp_getitem v 1;
        contig_id ← corresp_getitem v 2;
        Ok (Some (RawRecord mag_id contig_id pct_id start end_), contigs_in_sample)
    end.

Definition sam_turn (contig_mag_corresp : gmap string corresp_value)
    (contigs_in_sample : list string) (line : string)
    : result (option raw_record * list string) :=
  if negb (contains "MD:Z:" line) then Ok (None, contigs_in_sample)
  else
    let segment := py_split line in
    contig_ref ← py_getitem segment 2;
    match contig_mag_corresp !! contig_ref with
    | None => Ok (None, contigs_in_sample)
    | Some v =>
        let contigs_in_sample := append_new contigs_in_sample contig_ref in
        mdz_seg ← find_mdz (2 * length segment) segment (len segment - 1);
        let mdz_seg := str_drop 5 mdz_seg in
        r ← mdz_record v segment mdz_seg;
        Ok (Some r, contigs_in_sample)
    end.

Definition bam_turn (contig_mag_corresp : gmap string corresp_value)
    (contigs_in_sample : list string) (entry : bam_entry)
    : result (option raw_record * list string) :=
  let line := bam_to_string entry in
  if negb (contains "MD:Z:" line) then Ok (None, contigs_in_sample)
  else
    let segment := py_split line in
    contig_ref ← py_getitem segment 2;
    match contig_mag_corresp !! contig_ref with
    | None => Ok (None, contigs_in_sample)
    | Some v =>
        let contigs_in_sample := append_new contigs_in_sample contig_ref in
        mdz_seg ← match bam_md entry with Some v => Ok v | None => Raise KeyError end;
        r ← mdz_record v segment mdz_seg;
        Ok (Some r, contigs_in_sample)
    end.

(** A turn on tuples seen from a turn on hits. *)
Definition raw_turn (r : result (option hit * list string))
    : result (option raw_record * list string) :=
  match r with
  | Ok (h, contigs_in_sample) => Ok (raw_of_hit <$> h, contigs_in_sample)
  | Raise e => Raise e
  end.

Definition batch_size : Z := 500000.

(** The loop over the lines or records of one file; the three branches
    of [save_reads_mapped] share it and differ in the turn [step]. *)
Section IngestLoop.
Context {L : Type} (step : list string -> L -> result (option hit * list string)).

Fixpoint ingest_loop (sample_name : string) (input_reads : list L)
    (record_counter : Z) (records : list hit) (contigs_in_sample : list string)
    : db_op (Z * list hit * list string) :=
  match input_reads with
  | [] => mret (record_counter, records, contigs_in_sample)
  | line :: rest =>
      '(record_counter, records) ←
        (if record_counter =? batch_size
         then _ ← insert_hits sample_name records; mret (0, [])
         else mret (record_counter, records));
      '(r, contigs_in_sample) ← db_lift (step contigs_in_sample line);
      match r with
      | Some h =>
          ingest_loop sample_name rest (record_counter + 1) (records ++ [h])
            contigs_in_sample
      | None => ingest_loop sample_name rest record_counter records contigs_in_sample
      end
  end.

(** The loop, the commit of the remaining records and the index. *)
Definition ingest (sample_name : string) (input_reads : list L) : db_op (list string) :=
  '(record_counter, records, contigs_in_sample) ←
    ingest_loop sample_name input_reads 0 [] [];
  _ ← (if 0 <? record_counter then insert_hits sample_name records else mret tt);
  _ ← create_index (sample_name +:+ "_index") sample_name;
  mret contigs_in_sample.
End IngestLoop.

Definition open_text (fs : filesystem) (name : string) : db_op (list string) :=
  match text_files fs !! name with
  | Some lines => mret lines
  | None => db_raise FileNotFoundError
  end.

Definition open_bam (fs : filesystem) (name : string) : db_op (list bam_entry) :=
  match bam_files fs !! name with
  | Some entries => mret entries
  | None => db_raise FileNotFoundError
  end.

Definition save_reads_mapped (fs : filesystem) (mapping_file sample_name map_format : string)
    (contig_mag_corresp : gmap string catalog_entry) : db_op (list string) :=
  if String.eqb map_format "blast" then
    input_reads ← open_text fs mapping_file;
    ingest (blast_line contig_mag_corresp) sample_name input_reads
  else if String.eqb map_format "sam" then
    input_reads ← open_text fs mapping_file;
    ingest (sam_line contig_mag_corresp) sample_name input_reads
  else if String.eqb map_format "bam" then
    input_reads ← open_bam fs mapping_file;
    ingest (bam_record contig_mag_corresp) sample_name input_reads
  else db_raise AssertionError.

(** ** Incremental ingestion: [add_sample] *)

(** [samples_dict] and [last_sample], from the rows of [sample_info]. *)
Definition samples_dict_of (rows : list (string * string * Z)) : gmap string string :=
  fold_left (fun d sample => <[sample.1.1 := sample.1.2]> d) rows ∅.

Definition last_sample_of (rows : list (string * string * Z)) : Z :=
  fold_left (fun last_sample sample =>
               if last_sample <? sample.2 then sample.2 else last_sample) rows 0.

(** [contig_mag_corresp], from the rows of [lookup_table]. *)
Definition contig_mag_corresp_of (rows : list (string * Z * string * Z))
    : gmap string catalog_entry :=
  fold_left (fun d contig_mag =>
               <[contig_mag.1.2 := (contig_mag.1.1.1, contig_mag.1.1.2, contig_mag.2)]> d)
    rows ∅.

(** The MAGs reached by [contigs_in_sample], in the order of
    [lookup_table], each once. *)
Definition mags_in_sample_of (all_contigs : list (string * Z * string * Z))
    (contigs_in_sample : list string) : list string :=
  fold_left (fun mags_in_sample element =>
               if existsb (String.eqb element.1.2) contigs_in_sample
               then append_new mags_in_sample element.1.1.1
               else mags_in_sample) all_contigs [].

(** [save_reads_mapped], then the rows of [mags_per_sample]. *)
Definition ingest_sample (fs : filesystem) (map_format : string)
    (contig_mag_corresp : gmap string catalog_entry) (new_sample sample_name : string)
    : db_op unit :=
  contigs_in_sample ← save_reads_mapped fs new_sample sample_name map_format contig_mag_corresp;
  db ← db_get;
  let mags_in_sample := mags_in_sample_of (lookup_table db) contigs_in_sample in
  insert_mags_per_sample (map (fun x => (new_sample, x)) mags_in_sample).

Fixpoint add_sample_loop (fs : filesystem) (map_format : string)
    (contig_mag_corresp : gmap string catalog_entry) (samples_dict : gmap string string)
    (new_mapping_files : list string) (last_sample : Z) : db_op unit :=
  match new_mapping_files with
  | [] => mret tt
  | new_sample :: rest =>
      last_sample ←
        match samples_dict !! new_sample with
        | Some sample_name =>
            _ ← drop_table_if_exists sample_name;
            _ ← create_table sample_name;
            _ ← delete_mags_per_sample new_sample;
            _ ← ingest_sample fs map_format contig_mag_corresp new_sample sample_name;
            mret last_sample
        | None =>
            let sample_name := "sample_" +:+ pretty (last_sample + 1) in
            let last_sample := last_sample + 1 in
            _ ← create_table sample_name;
            _ ← ingest_sample fs map_format contig_mag_corresp new_sample sample_name;
            _ ← insert_sample_info (new_sample, sample_name, last_sample);
            mret last_sample
        end;
      add_sample_loop fs map_format contig_mag_corresp samples_dict rest last_sample
  end.

Definition add_sample (fs : filesystem) (new_mapping_files : list string)
    (map_format : string) : db_op unit :=
  db ← db_get;
  let samples_dict := samples_dict_of (sample_info db) in
  let last_sample := last_sample_of (sample_info db) in
  let contig_mag_corresp := contig_mag_corresp_of (lookup_table db) in
  add_sample_loop fs map_format contig_mag_corresp samples_dict new_mapping_files last_sample.

(** ** Catalog: the first part of [sqldb_creation]

    [sqldb_creation] up to the contig length table; [contig_sizes] and
    [contig_mag_corresp] are the dictionaries [read_contigs] and
    [get_mags] return, in insertion order.  The per-sample ingestion
    that follows comes after every statement modelled here. *)

(** The loop over [contig_mag_corresp.items()]. *)
Fixpoint contig_identifiers_loop (items : list (string * string))
    (mag_ids : gmap string Z) (mag_id contig_id : Z)
    (contig_identifiers : list (string * Z * string * Z))
    : list (string * Z * string * Z) :=
  match items with
  | [] => contig_identifiers
  | (contig_name, mag_name) :: rest =>
      match mag_ids !! mag_name with
      | Some m =>
          contig_identifiers_loop rest mag_ids mag_id (contig_id + 1)
            (contig_identifiers ++ [(mag_name, m, contig_name, contig_id)])
      | None =>
          let mag_id := mag_id + 1 in
          let mag_ids := <[mag_name := mag_id]> mag_ids in
          contig_identifiers_loop rest mag_ids mag_id (contig_id + 1)
            (contig_identifiers ++ [(mag_name, mag_id, contig_name, contig_id)])
      end
  end.

(** [SELECT mag_id, contig_id from lookup_table WHERE contig_name = ?]
    and [fetchone()]. *)
Definition select_ids (rows : list (string * Z * string * Z)) (contig : string)
    : option (Z * Z) :=
  match List.find (fun r => String.eqb r.1.2 contig) rows with
  | Some r => Some (r.1.1.2, r.2)
  | None => None
  end.

(** The loop over [contig_sizes.items()]: subscripting the [None] that
    [fetchone()] returns for an unknown contig is a [TypeError]. *)
Fixpoint contig_lengths_loop (rows : list (string * Z * string * Z))
    (items : list (string * Z)) (contig_lengths : list (Z * Z * Z))
    : result (list (Z * Z * Z)) :=
  match items with
  | [] => Ok contig_lengths
  | (contig, contig_len) :: rest =>
      match select_ids rows contig with
      | Some (m, c) => contig_lengths_loop rows rest (contig_lengths ++ [(m, c, contig_len)])
      | None => Raise TypeError
      end
  end.

(** The sample rows [(sample_name, "sample_<n>", n)], [n] from 1. *)
Fixpoint samples_to_db_loop (sample_reads : list string) (sample_number : Z)
    : list (string * string * Z) :=
  match sample_reads with
  | [] => []
  | sample_name :: rest =>
      (sample_name, "sample_" +:+ pretty sample_number, sample_number)
        :: samples_to_db_loop rest (sample_number + 1)
  end.

Fixpoint distinct (l : list string) : bool :=
  match l with
  | [] => true
  | x :: l' => negb (existsb (String.eqb x) l') && distinct l'
  end.

Definition sqldb_creation_catalog (contig_sizes : list (string * Z))
    (contig_mag_corresp : list (string * string)) (sample_reads : list string)
    : db_op unit := fun db =>
  (* the five relations are dropped and created again *)
  let db := Database [] [] [] [] (tables db) (indexes db) in
  let db := set_sample_info (samples_to_db_loop sample_reads 1) db in
  (* CREATE UNIQUE INDEX sample_index ON sample_info (sample_name) *)
  if negb (distinct sample_reads) then (db, Raise IntegrityError)
  else
    let contig_identifiers := contig_identifiers_loop contig_mag_corresp ∅ 0 1 [] in
    let db := Database contig_identifiers (mag_info db) (sample_info db)
                (mags_per_sample db) (tables db) (indexes db) in
    match contig_lengths_loop (lookup_table db) contig_sizes [] with
    | Raise e => (db, Raise e)
    | Ok contig_lengths =>
        (Database (lookup_table db) (mag_info db ++ contig_lengths) (sample_info db)
           (mags_per_sample db) (tables db) (indexes db), Ok tt)
    end.

(** ** Matrix builder, continued *)

(** [SELECT mag_id from lookup_table WHERE mag_name = ?] and
    [fetchone()[0]]. *)
Definition select_mag_id (db : database) (mag_name : string) : result Z :=
  match List.find (fun r => String.eqb r.1.1.1 mag_name) (lookup_table db) with
  | Some r => Ok r.1.1.2
  | None => Raise TypeError
  end.

(** [SELECT contig_id, contig_len from mag_info WHERE mag_id = ?] *)
Definition select_contig_sizes (db : database) (mag_id : Z) : list (Z * Z) :=
  map (fun r => (r.1.2, r.2)) (List.filter (fun r => r.1.1 =? mag_id) (mag_info db)).

Fixpoint matrix_loop (n_breaks : nat) (width : Z) (contig_sizes : list (Z * Z))
    (matrix : gmap Z contig_matrix) : result (gmap Z contig_matrix) :=
  match contig_sizes with
  | [] => Ok matrix
  | id_len :: rest =>
      m ← contig_bins n_breaks id_len.2 width;
      matrix_loop n_breaks width rest (<[id_len.1 := m]> matrix)
  end.

Definition prepare_numpy_matrices (fuel : nat) (db : database) (mag_name : string)
    (width : Z) (bin_height id_lower : Q)
    : option (result (Z * gmap Z contig_matrix * list Q)) :=
  match make_id_breaks fuel bin_height id_lower with
  | None => None
  | Some id_breaks =>
      Some (mag_id ← select_mag_id db mag_name;
            matrix ← matrix_loop (length id_breaks) width (select_contig_sizes db mag_id) ∅;
            Ok (mag_id, matrix, id_breaks))
  end.

(** ** Matrix filler: [fill_matrices] *)

(** [arr[i][j] += v] on a [uint32] array: the sum wraps at [2^32]. *)
Definition iadd_cell (arr : list (list Z)) (i j v : Z) : result (list (list Z)) :=
  row ← py_getitem arr i;
  old ← py_getitem row j;
  row' ← py_setitem row j ((old + v) mod 2 ^ 32);
  py_setitem arr i row'.

(** The [for j in range(read_start_loc, read_stop_loc + 1)] loop. *)
Fixpoint split_loop (ends : list Z) (read_stop read_id_index : Z) (js : list Z)
    (read_len : Z) (arr : list (list Z)) : result (list (list Z)) :=
  match js with
  | [] => Ok arr
  | j :: js' =>
      e ← py_getitem ends j;
      let overflow := read_stop - e in
      if 0 <? overflow then
        arr ← iadd_cell arr read_id_index j (read_len - overflow);
        split_loop ends read_stop read_id_index js' overflow arr
      else
        arr ← iadd_cell arr read_id_index j read_len;
        split_loop ends read_stop read_id_index js' read_len arr
  end.

Definition read_id_index_of (id_breaks : list Q) (identity : Q) : Z :=
  bisect_right Qltb id_breaks identity - 1.

(** The body of the loop over the reads. *)
Definition fill_read (id_breaks : list Q) (matrices : gmap Z contig_matrix)
    (read_mapped : hit) : result (gmap Z contig_matrix) :=
  match matrices !! h_contig_id read_mapped with
  | None => Ok matrices
  | Some m =>
      let contig_id := h_contig_id read_mapped in
      let read_start := h_start read_mapped in
      let read_stop := h_stop read_mapped in
      let read_len := read_stop - read_start + 1 in
      let read_id_index := read_id_index_of id_breaks (h_identity read_mapped) in
      let read_start_loc := bisect_left Z.ltb (cm_ends m) read_start in
      let read_stop_loc := bisect_left Z.ltb (cm_ends m) read_stop in
      counts ←
        (if read_start_loc =? read_stop_loc
         then iadd_cell (cm_counts m) read_id_index read_start_loc read_len
         else split_loop (cm_ends m) read_stop read_id_index
                (py_range read_start_loc (read_stop_loc + 1)) read_len (cm_counts m));
      Ok (<[contig_id := ContigMatrix (cm_starts m) (cm_ends m) counts]> matrices)
  end.

Fixpoint fill_loop (id_breaks : list Q) (reads : list hit)
    (matrices : gmap Z contig_matrix) : result (gmap Z contig_matrix) :=
  match reads with
  | [] => Ok matrices
  | read_mapped :: rest =>
      matrices ← fill_read id_breaks matrices read_mapped;
      fill_loop id_breaks rest matrices
  end.

(** [SELECT sample_id from sample_info WHERE sample_name = ?] and
    [fetchone()[0]]. *)
Definition select_sample_id (db : database) (sample_name : string) : result string :=
  match List.find (fun r => String.eqb r.1.1 sample_name) (sample_info db) with
  | Some r => Ok r.1.2
  | None => Raise TypeError
  end.

(** [SELECT * from <sample_id> WHERE mag_id = ?] *)
Definition select_reads (db : database) (sample_id : string) (mag_id : Z) : result (list hit) :=
  match tables db !! sample_id with
  | Some rows => Ok (List.filter (fun h => h_mag_id h =? mag_id) rows)
  | None => Raise OperationalError
  end.

Definition fill_matrices (db : database) (mag_id : Z) (sample_name : string)
    (matrices : gmap Z contig_matrix) (id_breaks : list Q)
    : result (gmap Z contig_matrix) :=
  sample_id ← select_sample_id db sample_name;
  reads ← select_reads db sample_id mag_id;
  fill_loop id_breaks reads matrices.

(** The bases the filler adds for one read, as [(position bin, bases)]
    in the order of the additions: the log of the [+=] statements. *)
Fixpoint split_credits (ends : list Z) (read_stop : Z) (js : list Z) (read_len : Z)
    : result (list (Z * Z)) :=
  match js with
  | [] => Ok []
  | j :: js' =>
      e ← py_getitem ends j;
      let overflow := read_stop - e in
      if 0 <? overflow then
        rest ← split_credits ends read_stop js' overflow;
        Ok ((j, read_len - overflow) :: rest)
      else
        rest ← split_credits ends read_stop js' read_len;
        Ok ((j, read_len) :: rest)
  end.

Definition read_credits (ends : list Z) (read_start read_stop : Z) : result (list (Z * Z)) :=
  let read_len := read_stop - read_start + 1 in
  let read_start_loc := bisect_left Z.ltb ends read_start in
  let read_stop_loc := bisect_left Z.ltb ends read_stop in
  if read_start_loc =? read_stop_loc then Ok [(read_start_loc, read_len)]
  else split_credits ends read_stop (py_range read_start_loc (read_stop_loc + 1)) read_len.

(** The additions of a log, applied in order to the row [read_id_index]. *)
Fixpoint apply_credits (arr : list (list Z)) (read_id_index : Z) (credits : list (Z * Z))
    : result (list (list Z)) :=
  match credits with
  | [] => Ok arr
  | (j, v) :: rest =>
      arr ← iadd_cell arr read_id_index j v;
      apply_credits arr read_id_index rest
  end.

(** ** Definitions used by the statements *)

Definition rectangular (arr : list (list Z)) (width : Z) : Prop :=
  Forall (fun row => len row = width) arr.

(** A contig of 2350 bases in bins of about 1000: the bins 1..1174 and
    1175..2350, under three identity rows. *)
Definition demo_matrices : gmap Z contig_matrix :=
  {[ 1 := ContigMatrix [1; 1175] [1174; 2350] (np_zeros 3 2) ]}.

(** The breaks for a step of 0.5 above 70, and the empty matrix of a
    contig of 2350 bases in bins of about 1000. *)
Definition breaks_70 : list Q :=
  match make_id_breaks 60 (1 # 2) 70 with Some l => l | None => [] end.

Definition contig_2350 : gmap Z contig_matrix :=
  match contig_bins 60 2350 1000 with
  | Ok m => {[ 1 := m ]}
  | Raise _ => ∅
  end.

Definition counts_of (r : result (gmap Z contig_matrix)) (contig_id : Z)
    : option (list (list Z)) :=
  match r with
  | Ok matrices => cm_counts <$> matrices !! contig_id
  | Raise _ => None
  end.


(** The identity breaks as they are described, from the value [top]
    downward: every break is above the lower bound, the next one is
    the float difference of the break and the step, and the difference
    after the last break is not above the bound. *)
Fixpoint stepped_down (top : float64) (step id_lower : Q) (descending : list Q) : Prop :=
  match descending with
  | [] =>
      match top with
      | Finite c => (c <= id_lower)%Q
      | PlusInf => False
      | MinusInf => True
      end
  | b :: rest =>
      top = Finite b /\ (id_lower < b)%Q /\
      stepped_down (float64_sub b step) step id_lower rest
  end.

(** A float that is 100 or more. *)
Definition at_least_100 (x : float64) : Prop :=
  match x with
  | Finite c => (100 <= c)%Q
  | PlusInf => True
  | MinusInf => False
  end.

(** The binary64 value of the literal [0.1]. *)
Definition tenth : Q := 3602879701896397 # 36028797018963968.

(** The 60 boundaries 70.5, 71.0, ..., 100.0. *)
Definition boundaries_70 : list Q :=
  map (fun k => Qred ((141 + Z.of_nat k) # 2)) (seq 0 60).

(** The widths [end - start + 1] of the bins of a contig. *)
Definition bin_widths (starts ends : list Z) : list Z :=
  zip_with (fun s e => e - s + 1) starts ends.

(** A database file before [sqldb_creation]. *)
Definition empty_db : database := Database [] [] [] [] ∅ ∅.

(** The test of the backward scan. *)
Definition is_mdz (field : string) : bool := startswith field "MD:Z:".

(** Spec side of the tag search: the last field of the record that
    carries the tag prefix. *)
Definition last_mdz_field (segment : list string) : option string :=
  List.find is_mdz (rev segment).

(** The records of a file and the contigs they name, as the turns of
    the loop produce them, without the database. *)
Fixpoint parse_records {L : Type} (step : list string -> L -> result (option hit * list string))
    (input_reads : list L) (contigs_in_sample : list string)
    : result (list hit * list string) :=
  match input_reads with
  | [] => Ok ([], contigs_in_sample)
  | line :: rest =>
      '(r, contigs_in_sample) ← step contigs_in_sample line;
      '(hits, contigs_in_sample) ← parse_records step rest contigs_in_sample;
      Ok (match r with Some h => h :: hits | None => hits end, contigs_in_sample)
  end.

Definition parse_file (fs : filesystem) (mapping_file map_format : string)
    (contig_mag_corresp : gmap string catalog_entry) : result (list hit * list string) :=
  if String.eqb map_format "blast" then
    match text_files fs !! mapping_file with
    | Some lines => parse_records (blast_line contig_mag_corresp) lines []
    | None => Raise FileNotFoundError
    end
  else if String.eqb map_format "sam" then
    match text_files fs !! mapping_file with
    | Some lines => parse_records (sam_line contig_mag_corresp) lines []
    | None => Raise FileNotFoundError
    end
  else if String.eqb map_format "bam" then
    match bam_files fs !! mapping_file with
    | Some entries => parse_records (bam_record contig_mag_corresp) entries []
    | None => Raise FileNotFoundError
    end
  else Raise AssertionError.

(** The names an ingestion into the table [t] needs: no table is
    called like the index of [t], no index is called [t], and an index
    called like the index of [t] is the index of [t]. *)
Definition index_names_free (db : database) (t : string) : Prop :=
  tables db !! (t +:+ "_index") = None /\
  indexes db !! t = None /\
  (forall t', indexes db !! (t +:+ "_index") = Some t' -> t' = t).

(** ** Scenario data *)

Definition nl : string := String (ascii_of_nat 10) EmptyString.

(** A line of tab-separated fields. *)
Definition tabbed (l : list string) : string :=
  String.concat (String tab EmptyString) l +:+ nl.

(** The catalog entry of contig [ctgA] of MAG [mag1]. *)
Definition demo_catalog : gmap string catalog_entry := {[ "ctgA" := ("mag1", 1, 1) ]}.

Definition blast_ctgA : string :=
  tabbed ["q1"; "ctgA"; "98.5"; "51"; "0"; "0"; "1"; "51"; "100"; "150"; "1e-20"; "95.1"].

Definition blast_unlisted : string :=
  tabbed ["q2"; "ctgX"; "98.5"; "51"; "0"; "0"; "1"; "51"; "100"; "150"; "1e-20"; "95.1"].

Definition sam_10A5 : string :=
  tabbed ["r1"; "0"; "ctgA"; "100"; "60"; "16M"; "*"; "0"; "0"; "ACGTACGTACGTACGT";
          "IIIIIIIIIIIIIIII"; "NM:i:1"; "MD:Z:10A5"; "AS:i:14"].

(** A record whose tag has an empty value. *)
Definition sam_empty_tag : string :=
  tabbed ["r0"; "0"; "ctgA"; "100"; "60"; "*"; "*"; "0"; "0"; "*"; "*"; "MD:Z:"].

Definition demo_fs : filesystem :=
  Filesystem {[ "reads.sam" := [sam_empty_tag; sam_10A5];
                "a.blast" := [blast_ctgA; blast_unlisted] ]} ∅.

(** A store with two samples. *)
Definition demo_db : database :=
  Database
    [("mag1", 1, "ctgA", 1); ("mag1", 1, "ctgB", 2); ("mag2", 2, "ctgC", 3)]
    [(1, 1, 2350); (1, 2, 500); (2, 3, 100)]
    [("a.blast", "sample_1", 1); ("b.blast", "sample_2", 2)]
    [("a.blast", "mag2"); ("b.blast", "mag2")]
    {[ "sample_1" := [Hit 2 3 99 1 10; Hit 2 3 97 20 40];
       "sample_2" := [Hit 2 3 98 5 20] ]}
    {[ "sample_1_index" := "sample_1"; "sample_2_index" := "sample_2" ]}.

(** Spec side of the split: the bases of the read [read_start ..
    read_stop] that lie in position bin [j], the bin that ends at
    [ends[j]] and starts after [ends[j - 1]]. *)
Definition bin_overlap (ends : list Z) (read_start read_stop j : Z) : Z :=
  Z.min read_stop (nth (Z.to_nat j) ends 0)
  - Z.max read_start (if j =? 0 then read_start else nth (Z.to_nat (j - 1)) ends 0 + 1)
  + 1.

(** A multiple of [2^-46]: below 128 in magnitude such a number has
    at most 53 significant bits and is a binary64 float. *)
Definition on_grid (x : Q) : Prop :=
  exists j : Z, (x == inject_Z j * 2 ^ (-46))%Q.

(** ** Definitions for the further properties *)

(** The sum of all the cells of an array of counts. *)
Definition matrix_total (arr : list (list Z)) : Z := sumZ (map sumZ arr).

(** No cell of the array is negative. *)
Definition nonneg_counts (arr : list (list Z)) : Prop :=
  Forall (Forall (fun c => 0 <= c)) arr.

(** The position bins of a contig of the matrix dictionary. *)
Definition bins_of (matrices : gmap Z contig_matrix) (contig_id : Z)
    : option (list Z * list Z) :=
  (fun m => (cm_starts m, cm_ends m)) <$> matrices !! contig_id.

(** A list of contigs that a parser keeps: no name twice, every name in
    the catalog. *)
Definition contigs_seen (cmc : gmap string catalog_entry) (l : list string) : Prop :=
  List.NoDup l /\ forall c, In c l -> is_Some (cmc !! c).

(** The dictionary [mag_ids] and the rows made so far: ids from 1 to
    [mag_id], one id per name, and every row under the id of its name. *)
Definition mag_ids_consistent (mag_ids : gmap string Z) (mag_id : Z)
    (rows : list (string * Z * string * Z)) : Prop :=
  0 <= mag_id /\
  (forall name id, mag_ids !! name = Some id -> 1 <= id <= mag_id) /\
  (forall n1 n2 id, mag_ids !! n1 = Some id -> mag_ids !! n2 = Some id -> n1 = n2) /\
  (forall row, In row rows -> mag_ids !! row.1.1.1 = Some row.1.1.2).

(** ** Inputs of the catalog: [read_contigs] and [get_mags] *)

(** [d[k] = v] on a dictionary in insertion order: a key that is there
    keeps its place and takes the new value, a new key goes last. *)
Fixpoint dict_set {V : Type} (d : list (string * V)) (k : string) (v : V)
    : list (string * V) :=
  match d with
  | [] => [(k, v)]
  | (k', v') :: d' =>
      if String.eqb k' k then (k', v) :: d' else (k', v') :: dict_set d' k v
  end.

(** [d.get(k)] *)
Definition dict_get {V : Type} (d : list (string * V)) (k : string) : option V :=
  snd <$> List.find (fun kv => String.eqb kv.1 k) d.

(** [line[1:].strip().split()[0]]: the name on a header line. *)
Definition header_name (line : string) : result string :=
  py_getitem (py_split (strip (str_drop 1 line))) 0.

(** The loop of [read_contigs] over the lines after the first one, and
    the commit of the last contig after it. *)
Fixpoint read_contigs_loop (lines : list string) (current_contig : string)
    (contig_length : Z) (contig_sizes : list (string * Z)) : result (list (string * Z)) :=
  match lines with
  | [] => Ok (dict_set contig_sizes current_contig contig_length)
  | line :: rest =>
      c ← match line with
          | String c _ => Ok c
          | EmptyString => Raise IndexError
          end;
      if Ascii.eqb c ">"%char then
        let contig_sizes := dict_set contig_sizes current_contig contig_length in
        current_contig ← header_name line;
        read_contigs_loop rest current_contig 0 contig_sizes
      else
        read_contigs_loop rest current_contig
          (contig_length + Z.of_nat (String.length (strip line))) contig_sizes
  end.

(** [read_contigs] on the lines of the FASTA file; [readline()] gives
    the empty string on an empty file. *)
Definition read_contigs (lines : list string) : result (list (string * Z)) :=
  current_contig ← header_name (match lines with [] => EmptyString | line :: _ => line end);
  read_contigs_loop (tail lines) current_contig 0 [].

(** [get_mags] on the lines of the membership file. *)
Fixpoint get_mags_loop (lines : list string) (mag_dict : list (string * string))
    : result (list (string * string)) :=
  match lines with
  | [] => Ok mag_dict
  | line :: rest =>
      let mag_contig := py_split line in
      v ← py_getitem mag_contig 1;
      k ← py_getitem mag_contig 0;
      get_mags_loop rest (dict_set mag_dict k v)
  end.

Definition get_mags (lines : list string) : result (list (string * string)) :=
  get_mags_loop lines [].

(** A FASTA file seen as records: a header line, the name on it, and
    the sequence lines that follow. *)
Record fasta_record : Type := FastaRecord {
  fr_header : string;
  fr_name : string;
  fr_seq : list string
}.

Definition fasta_lines (records : list fasta_record) : list string :=
  flat_map (fun r => fr_header r :: fr_seq r) records.

(** The bases of a record: the characters of its lines without the
    surrounding white space. *)
Definition seq_length (seq : list string) : Z :=
  sumZ (map (fun line => Z.of_nat (String.length (strip line))) seq).

(** A line of a file that is not a header: not empty, not starting
    with [>]. *)
Definition sequence_line (line : string) : Prop :=
  match line with
  | String c _ => c <> ">"%char
  | EmptyString => False
  end.

(** A header line: it starts with [>]. *)
Definition header_line (line : string) : Prop :=
  match line with
  | String c _ => c = ">"%char
  | EmptyString => False
  end.

Definition fasta_record_ok (r : fasta_record) : Prop :=
  header_name (fr_header r) = Ok (fr_name r) /\ Forall sequence_line (fr_seq r).

Definition fasta_sizes (records : list fasta_record) : list (string * Z) :=
  map (fun r => (fr_name r, seq_length (fr_seq r))) records.

(** A small FASTA file with a contig on two lines. *)
Definition demo_fasta : list fasta_record :=
  [FastaRecord (">ctgA first contig" +:+ nl) "ctgA" ["ACGT" +:+ nl; "AC" +:+ nl];
   FastaRecord (">ctgB" +:+ nl) "ctgB" ["GGG"]].

(** The membership file seen as pairs: the first two fields of each
    line. *)
Definition mag_pairs (lines : list string) : list (string * string) :=
  map (fun line => (nth 0 (py_split line) EmptyString, nth 1 (py_split line) EmptyString))
    lines.

(** The value a dictionary built by assignments holds for a key: that
    of the last assignment to the key. *)
Definition last_assigned {V : Type} (assignments : list (string * V)) (k : string)
    : option V :=
  snd <$> List.find (fun p => String.eqb p.1 k) (rev assignments).

(** The turn of the loop of [save_reads_mapped] for the two text
    formats. *)
Definition text_step (map_format : string) (cmc : gmap string catalog_entry)
    : list string -> string -> result (option hit * list string) :=
  if String.eqb map_format "blast" then blast_line cmc else sam_line cmc.

(** A statement or function that leaves [lookup_table] and
    [sample_info] as they are, whatever its outcome. *)
Definition keeps_catalog {A : Type} (m : db_op A) : Prop :=
  forall db, lookup_table (m db).1 = lookup_table db /\
             sample_info (m db).1 = sample_info db.

(** A function whose only return value is [v]. *)
Definition returns_only {A : Type} (v : A) (m : db_op A) : Prop :=
  forall db db' x, m db = (db', Ok x) -> x = v.

(** ** The dictionary of the parser at its call sites *)

(** What [add_sample] hands to [save_reads_mapped]: the dictionary it
    builds from the rows of [lookup_table]. *)
Definition add_sample_corresp (rows : list (string * Z * string * Z))
    : gmap string corresp_value :=
  CorrespList <$> contig_mag_corresp_of rows.

(** What [sqldb_creation] hands to it: [contig_mag_corresp], the
    dictionary of [get_mags] (its keys are distinct). *)
Definition sqldb_creation_corresp (contig_mag_corresp : list (string * string))
    : gmap string corresp_value :=
  CorrespName <$> (list_to_map contig_mag_corresp : gmap string string).

(** A membership file that gives the contig [ctgA] to the MAG [mag1]. *)
Definition membership_ctgA : list string := ["ctgA" +:+ String tab ("mag1" +:+ nl)].

(** * Properties *)

(** ** Binary search *)

Section BisectSpec.
Context {A : Type} (ltb : A -> A -> bool) (a : list A) (x : A).

Local Abbreviation item i := (nth (Z.to_nat i) a x).

Lemma mid_bounds (lo hi : Z) : lo < hi -> lo <= (lo + hi) / 2 < hi.
Proof.
  intros H. split.
  - apply Z.div_le_lower_bound; lia.
  - apply Z.div_lt_upper_bound; lia.
Qed.

(** [bisect_left] returns the partition point of [a[i] < x], provided
    the test is downward closed along the list. *)
Lemma bisect_left_loop_spec (fuel : nat) : forall lo hi,
  0 <= lo -> lo <= hi -> hi <= len a -> hi - lo <= Z.of_nat fuel ->
  (forall i j, 0 <= i -> i <= j -> j < len a ->
               ltb (item j) x = true -> ltb (item i) x = true) ->
  (forall i, 0 <= i < lo -> ltb (item i) x = true) ->
  (forall i, hi <= i < len a -> ltb (item i) x = false) ->
  let r := bisect_left_loop ltb fuel a x lo hi in
  lo <= r <= hi /\
  (forall i, 0 <= i < r -> ltb (item i) x = true) /\
  (forall i, r <= i < len a -> ltb (item i) x = false).
Proof.
  induction fuel as [|fuel IH]; intros lo hi Hlo Hle Hhi Hfuel Hmono Hbelow Habove; simpl.
  - assert (lo = hi) by lia. subst hi. repeat split; auto; lia.
  - destruct (Z.ltb_spec lo hi) as [Hlt|Hge].
    + pose proof (mid_bounds lo hi Hlt) as Hmid.
      destruct (ltb (item ((lo + hi) / 2)) x) eqn:Hcmp.
      * destruct (IH ((lo + hi) / 2 + 1) hi) as (Hr & Hl & Hu); try lia; auto.
        { intros i Hi. apply (Hmono i ((lo + hi) / 2)); auto; lia. }
        repeat split; auto; lia.
      * destruct (IH lo ((lo + hi) / 2)) as (Hr & Hl & Hu); try lia; auto.
        { intros i Hi. destruct (ltb (item i) x) eqn:Hi'; auto.
          rewrite (Hmono ((lo + hi) / 2) i) in Hcmp; auto; lia. }
        repeat split; auto; lia.
    + assert (lo = hi) by lia. subst hi. repeat split; auto; lia.
Qed.

(** [bisect_right] returns the partition point of [x < a[i]], provided
    the test is upward closed along the list. *)
Lemma bisect_right_loop_spec (fuel : nat) : forall lo hi,
  0 <= lo -> lo <= hi -> hi <= len a -> hi - lo <= Z.of_nat fuel ->
  (forall i j, 0 <= i -> i <= j -> j < len a ->
               ltb x (item i) = true -> ltb x (item j) = true) ->
  (forall i, 0 <= i < lo -> ltb x (item i) = false) ->
  (forall i, hi <= i < len a -> ltb x (item i) = true) ->
  let r := bisect_right_loop ltb fuel a x lo hi in
  lo <= r <= hi /\
  (forall i, 0 <= i < r -> ltb x (item i) = false) /\
  (forall i, r <= i < len a -> ltb x (item i) = true).
Proof.
  induction fuel as [|fuel IH]; intros lo hi Hlo Hle Hhi Hfuel Hmono Hbelow Habove; simpl.
  - assert (lo = hi) by lia. subst hi. repeat split; auto; lia.
  - destruct (Z.ltb_spec lo hi) as [Hlt|Hge].
    + pose proof (mid_bounds lo hi Hlt) as Hmid.
      destruct (ltb x (item ((lo + hi) / 2))) eqn:Hcmp.
      * destruct (IH lo ((lo + hi) / 2)) as (Hr & Hl & Hu); try lia; auto.
        { intros i Hi. apply (Hmono ((lo + hi) / 2) i); auto; lia. }
        repeat split; auto; lia.
      * destruct (IH ((lo + hi) / 2 + 1) hi) as (Hr & Hl & Hu); try lia; auto.
        { intros i Hi. destruct (ltb x (item i)) eqn:Hi'; auto.
          rewrite (Hmono i ((lo + hi) / 2)) in Hcmp; auto; lia. }
        repeat split; auto; lia.
    + assert (lo = hi) by lia. subst hi. repeat split; auto; lia.
Qed.
End BisectSpec.

Lemma StronglySorted_nth {A : Type} (R : A -> A -> Prop) (l : list A) (d : A) :
  StronglySorted R l ->
  forall i j, (i < j)%nat -> (j < length l)%nat -> R (nth i l d) (nth j l d).
Proof.
  induction 1 as [|y l Hs IH Hall]; intros i j Hij Hj; simpl in *; [lia|].
  destruct j as [|j]; [lia|]. destruct i as [|i].
  - rewrite Forall_forall in Hall. apply Hall. apply list_elem_of_In, nth_In. lia.
  - apply IH; lia.
Qed.

Lemma Qltb_lt (x y : Q) : Qltb x y = true <-> (x < y)%Q.
Proof. unfold Qltb, Qlt. apply Z.ltb_lt. Qed.

Lemma Qltb_ge (x y : Q) : Qltb x y = false <-> (y <= x)%Q.
Proof. unfold Qltb, Qle. rewrite Z.ltb_ge. tauto. Qed.

(** [bisect_left] on an ascending list of integers. *)
Lemma bisect_left_sorted (ends : list Z) (v : Z) :
  StronglySorted Z.le ends ->
  let r := bisect_left Z.ltb ends v in
  0 <= r <= len ends /\
  (forall i, 0 <= i < r -> nth (Z.to_nat i) ends v < v) /\
  (forall i, r <= i < len ends -> v <= nth (Z.to_nat i) ends v).
Proof.
  intros Hs. unfold bisect_left.
  assert (Hmono : forall i j, 0 <= i -> i <= j -> j < len ends ->
            Z.ltb (nth (Z.to_nat j) ends v) v = true ->
            Z.ltb (nth (Z.to_nat i) ends v) v = true).
  { intros i j Hi Hij Hj Hlt. apply Z.ltb_lt in Hlt. apply Z.ltb_lt.
    destruct (Z.eq_dec i j) as [->|Hne]; [exact Hlt|].
    pose proof (StronglySorted_nth Z.le ends v Hs (Z.to_nat i) (Z.to_nat j)).
    unfold len in *. lia. }
  destruct (bisect_left_loop_spec Z.ltb ends v (length ends) 0 (len ends))
    as (Hr & Hl & Hu); auto; try (unfold len; lia).
  repeat split; try lia.
  - intros i Hi. apply Z.ltb_lt. auto.
  - intros i Hi. apply Z.ltb_ge. auto.
Qed.

(** [bisect_right] on an ascending list of identities. *)
Lemma bisect_right_sorted (id_breaks : list Q) (v : Q) :
  StronglySorted Qle id_breaks ->
  let r := bisect_right Qltb id_breaks v in
  0 <= r <= len id_breaks /\
  (forall i, 0 <= i < r -> (nth (Z.to_nat i) id_breaks v <= v)%Q) /\
  (forall i, r <= i < len id_breaks -> (v < nth (Z.to_nat i) id_breaks v)%Q).
Proof.
  intros Hs. unfold bisect_right.
  assert (Hmono : forall i j, 0 <= i -> i <= j -> j < len id_breaks ->
            Qltb v (nth (Z.to_nat i) id_breaks v) = true ->
            Qltb v (nth (Z.to_nat j) id_breaks v) = true).
  { intros i j Hi Hij Hj Hlt. apply Qltb_lt in Hlt. apply Qltb_lt.
    destruct (Z.eq_dec i j) as [->|Hne]; [exact Hlt|].
    eapply Qlt_le_trans; [exact Hlt|].
    apply (StronglySorted_nth Qle id_breaks v Hs (Z.to_nat i) (Z.to_nat j));
      unfold len in *; lia. }
  destruct (bisect_right_loop_spec Qltb id_breaks v (length id_breaks) 0 (len id_breaks))
    as (Hr & Hl & Hu); auto; try (unfold len; lia).
  repeat split; try lia.
  - intros i Hi. apply Qltb_ge. auto.
  - intros i Hi. apply Qltb_lt. auto.
Qed.

(** ** Indexing *)

Lemma py_getitem_nth {A : Type} (l : list A) (i : Z) (d : A) :
  0 <= i < len l -> py_getitem l i = Ok (nth (Z.to_nat i) l d).
Proof.
  intros Hi. unfold py_getitem, norm_index, len in *.
  destruct (Z.leb_spec 0 i); [|lia]. destruct (Z.ltb_spec i (Z.of_nat (length l))); [|lia].
  simpl. destruct (nth_lookup_or_length l (Z.to_nat i) d) as [->|]; [done|lia].
Qed.

Lemma py_getitem_error {A : Type} (l : list A) (i : Z) (e : exn) :
  py_getitem l i = Raise e -> e = IndexError.
Proof.
  unfold py_getitem. destruct (norm_index l i); [destruct (l !! n)|]; congruence.
Qed.

Lemma py_setitem_error {A : Type} (l : list A) (i : Z) (x : A) (e : exn) :
  py_setitem l i x = Raise e -> e = IndexError.
Proof. unfold py_setitem. destruct (norm_index l i); congruence. Qed.

Lemma rbind_ok {A B : Type} (a : A) (k : A -> result B) : (Ok a ≫= k) = k a.
Proof. reflexivity. Qed.

Lemma rbind_raise {A B : Type} (e : exn) (k : A -> result B) : (Raise e ≫= k) = Raise e.
Proof. reflexivity. Qed.

Ltac rsimpl := rewrite ?rbind_ok, ?rbind_raise in *.

Lemma iadd_cell_error (arr : list (list Z)) (i j v : Z) (e : exn) :
  iadd_cell arr i j v = Raise e -> e = IndexError.
Proof.
  unfold iadd_cell.
  destruct (py_getitem arr i) as [row|e1] eqn:H1; rsimpl;
    [|intros [= <-]; eauto using py_getitem_error].
  destruct (py_getitem row j) as [old|e2] eqn:H2; rsimpl;
    [|intros [= <-]; eauto using py_getitem_error].
  destruct (py_setitem row j _) as [row'|e3] eqn:H3; rsimpl;
    [|intros [= <-]; eauto using py_setitem_error].
  apply py_setitem_error.
Qed.

Lemma split_credits_error (ends : list Z) (read_stop : Z) (js : list Z) :
  forall read_len e, split_credits ends read_stop js read_len = Raise e -> e = IndexError.
Proof.
  induction js as [|j js IH]; intros read_len e; cbn [split_credits]; [discriminate|].
  destruct (py_getitem ends j) as [x|e1] eqn:H1; rsimpl;
    [|intros [= <-]; eauto using py_getitem_error].
  destruct (0 <? read_stop - x).
  - destruct (split_credits ends read_stop js (read_stop - x)) eqn:H2; rsimpl; [discriminate|].
    intros [= <-]. eauto.
  - destruct (split_credits ends read_stop js read_len) eqn:H2; rsimpl; [discriminate|].
    intros [= <-]. eauto.
Qed.

(** The loop of the filler adds exactly what its log lists. *)
Lemma split_loop_credits (ends : list Z) (read_stop read_id_index : Z) (js : list Z) :
  forall read_len arr,
    split_loop ends read_stop read_id_index js read_len arr =
    (credits ← split_credits ends read_stop js read_len;
     apply_credits arr read_id_index credits).
Proof.
  induction js as [|j js IH]; intros read_len arr; cbn [split_loop split_credits]; [done|].
  destruct (py_getitem ends j) as [x|e1] eqn:H1; rsimpl; [|done].
  assert (Hstep : forall v rl,
    (arr' ← iadd_cell arr read_id_index j v;
     split_loop ends read_stop read_id_index js rl arr') =
    (credits ← (rest ← split_credits ends read_stop js rl; Ok ((j, v) :: rest));
     apply_credits arr read_id_index credits)).
  { intros v rl.
    destruct (split_credits ends read_stop js rl) as [rest|e2] eqn:H2; rsimpl.
    - cbn [apply_credits].
      destruct (iadd_cell arr read_id_index j v) as [arr'|e3]; rsimpl; [|done].
      rewrite IH, H2. done.
    - destruct (iadd_cell arr read_id_index j v) as [arr'|e3] eqn:H3; rsimpl.
      + rewrite IH, H2. done.
      + apply iadd_cell_error in H3. apply split_credits_error in H2. congruence. }
  destruct (0 <? read_stop - x); apply Hstep.
Qed.

(** ** Splitting a read over position bins *)

(** Over consecutive bins of which only the last one reaches
    [read_stop], the loop logs one addition per bin and the additions
    sum to the length it started from. *)
Lemma split_credits_conserved (ends : list Z) (read_stop : Z) (n : nat) :
  forall j0 read_len,
    0 <= j0 -> j0 + Z.of_nat n < len ends ->
    (forall j, j0 <= j < j0 + Z.of_nat n -> nth (Z.to_nat j) ends 0 < read_stop) ->
    read_stop <= nth (Z.to_nat (j0 + Z.of_nat n)) ends 0 ->
    exists credits,
      split_credits ends read_stop (seqZ j0 (Z.of_nat n + 1)) read_len = Ok credits /\
      map fst credits = seqZ j0 (Z.of_nat n + 1) /\
      sumZ (map snd credits) = read_len.
Proof.
  induction n as [|n IH]; intros j0 read_len Hj0 Hlen Hbelow Hlast.
  - change (seqZ j0 (Z.of_nat 0 + 1)) with [0 + j0]. rewrite Z.add_0_l.
    cbn [split_credits]. rewrite (py_getitem_nth ends j0 0) by lia. rsimpl.
    replace (j0 + Z.of_nat 0) with j0 in Hlast by lia.
    destruct (Z.ltb_spec 0 (read_stop - nth (Z.to_nat j0) ends 0)); [lia|].
    cbn [split_credits]. rsimpl. eexists. split; [reflexivity|]. simpl. split; [done|lia].
  - rewrite (seqZ_cons j0 (Z.of_nat (S n) + 1)) by lia.
    replace (Z.pred (Z.of_nat (S n) + 1)) with (Z.of_nat n + 1) by lia.
    cbn [split_credits]. rewrite (py_getitem_nth ends j0 0) by lia. rsimpl.
    pose proof (Hbelow j0 ltac:(lia)) as Hj.
    destruct (Z.ltb_spec 0 (read_stop - nth (Z.to_nat j0) ends 0)); [|lia].
    destruct (IH (Z.succ j0) (read_stop - nth (Z.to_nat j0) ends 0))
      as (rest & Hrest & Hfst & Hsum); try lia.
    + intros j Hjj. apply Hbelow. lia.
    + replace (Z.succ j0 + Z.of_nat n) with (j0 + Z.of_nat (S n)) by lia. exact Hlast.
    + rewrite Hrest. rsimpl. eexists. split; [reflexivity|]. simpl.
      rewrite Hfst, Hsum. split; [done|lia].
Qed.

Lemma norm_index_in_range {A : Type} (l : list A) (i : Z) :
  0 <= i < len l -> norm_index l i = Some (Z.to_nat i).
Proof.
  intros Hi. unfold norm_index.
  destruct (Z.leb_spec 0 i); [|lia]. destruct (Z.ltb_spec i (len l)); [|lia]. done.
Qed.

(** [arr[i][j] += v] succeeds inside the array and keeps its shape. *)
Lemma iadd_cell_ok (arr : list (list Z)) (width i j v : Z) :
  rectangular arr width -> 0 <= i < len arr -> 0 <= j < width ->
  exists arr', iadd_cell arr i j v = Ok arr' /\ rectangular arr' width /\ len arr' = len arr.
Proof.
  intros Hrect Hi Hj. unfold iadd_cell.
  rewrite (py_getitem_nth arr i []) by done. rsimpl.
  assert (Hrow : len (nth (Z.to_nat i) arr []) = width).
  { unfold rectangular in Hrect. rewrite Forall_forall in Hrect. apply Hrect.
    apply list_elem_of_In, nth_In. unfold len in *. lia. }
  rewrite (py_getitem_nth _ j 0) by lia. rsimpl.
  unfold py_setitem. rewrite norm_index_in_range by lia. rsimpl.
  rewrite norm_index_in_range by lia.
  eexists. split; [reflexivity|]. split.
  - apply Forall_insert; [exact Hrect|]. unfold len in *. rewrite length_insert. lia.
  - unfold len. rewrite length_insert. done.
Qed.

Lemma apply_credits_ok (width read_id_index : Z) (credits : list (Z * Z)) :
  forall arr,
    rectangular arr width -> 0 <= read_id_index < len arr ->
    Forall (fun c => 0 <= c.1 < width) credits ->
    exists arr', apply_credits arr read_id_index credits = Ok arr' /\
                 rectangular arr' width /\ len arr' = len arr.
Proof.
  induction credits as [|[j v] credits IH]; intros arr Hrect Hi Hall; cbn [apply_credits].
  - eauto.
  - inversion Hall as [|? ? Hj Hall']; subst. simpl in Hj.
    destruct (iadd_cell_ok arr width read_id_index j v) as (arr1 & -> & Hrect1 & Hlen1); auto.
    rsimpl. destruct (IH arr1) as (arr2 & -> & Hrect2 & Hlen2); auto; [lia|].
    eexists. split; [reflexivity|]. split; [done|lia].
Qed.

(** What [fill_read] does to the array of the contig is to apply the
    log of the read. *)
Lemma fill_read_credits (id_breaks : list Q) (matrices : gmap Z contig_matrix)
    (read_mapped : hit) (m : contig_matrix) :
  matrices !! h_contig_id read_mapped = Some m ->
  fill_read id_breaks matrices read_mapped =
  (credits ← read_credits (cm_ends m) (h_start read_mapped) (h_stop read_mapped);
   counts ← apply_credits (cm_counts m)
              (read_id_index_of id_breaks (h_identity read_mapped)) credits;
   Ok (<[h_contig_id read_mapped := ContigMatrix (cm_starts m) (cm_ends m) counts]> matrices)).
Proof.
  intros Hm. unfold fill_read, read_credits. rewrite Hm.
  destruct (_ =? _).
  - rsimpl. cbn [apply_credits].
    destruct (iadd_cell _ _ _ _); rsimpl; done.
  - rewrite split_loop_credits.
    destruct (split_credits _ _ _ _); rsimpl; done.
Qed.

(** The bins of the start and of the stop of a read that ends inside
    the contig. *)
Lemma read_locs (ends : list Z) (read_start read_stop last_end : Z) :
  StronglySorted Z.le ends -> read_start <= read_stop ->
  last ends = Some last_end -> read_stop <= last_end ->
  let read_start_loc := bisect_left Z.ltb ends read_start in
  let read_stop_loc := bisect_left Z.ltb ends read_stop in
  0 <= read_start_loc /\ read_start_loc <= read_stop_loc /\ read_stop_loc < len ends.
Proof.
  intros Hs Hle Hlast Hstop. cbv zeta.
  destruct (bisect_left_sorted ends read_start Hs) as (Hr1 & Hl1 & Hu1).
  destruct (bisect_left_sorted ends read_stop Hs) as (Hr2 & Hl2 & Hu2).
  set (s := bisect_left Z.ltb ends read_start) in *.
  set (t := bisect_left Z.ltb ends read_stop) in *.
  assert (Hne : 0 < len ends).
  { unfold len. destruct ends; [discriminate|]. simpl. lia. }
  assert (Hend : nth (Z.to_nat (len ends - 1)) ends read_stop = last_end).
  { rewrite last_lookup in Hlast. apply nth_lookup_Some.
    rewrite <- Hlast. f_equal. unfold len. lia. }
  split; [lia|]. split.
  - destruct (Z.le_gt_cases s t) as [|Hlt]; [done|].
    pose proof (Hl1 t ltac:(lia)) as H1. pose proof (Hu2 t ltac:(lia)) as H2.
    rewrite (nth_indep _ _ read_stop) in H1 by (unfold len in *; lia). lia.
  - destruct (Z.lt_ge_cases t (len ends)) as [|Hge]; [done|].
    pose proof (Hl2 (len ends - 1) ltac:(lia)) as H1. lia.
Qed.

(** Over the bins of a split read, with [lo] the first base not yet
    counted, the amount logged for a bin runs from [lo], or from the
    end of the bin before, to the end of the bin or to [read_stop]. *)
Lemma split_credits_amounts (ends : list Z) (read_stop : Z) (n : nat) :
  forall j0 lo credits,
    0 <= j0 -> j0 + Z.of_nat n < len ends ->
    (forall j, j0 <= j < j0 + Z.of_nat n -> nth (Z.to_nat j) ends 0 < read_stop) ->
    read_stop <= nth (Z.to_nat (j0 + Z.of_nat n)) ends 0 ->
    split_credits ends read_stop (seqZ j0 (Z.of_nat n + 1)) (read_stop - lo + 1) = Ok credits ->
    forall j v, In (j, v) credits ->
      j0 <= j <= j0 + Z.of_nat n /\
      v = Z.min read_stop (nth (Z.to_nat j) ends 0)
          - (if j =? j0 then lo else nth (Z.to_nat (j - 1)) ends 0 + 1) + 1.
Proof.
  induction n as [|n IH]; intros j0 lo credits Hj0 Hlen Hbelow Hlast.
  - change (seqZ j0 (Z.of_nat 0 + 1)) with [0 + j0]. rewrite Z.add_0_l.
    cbn [split_credits]. rewrite (py_getitem_nth ends j0 0) by lia. rsimpl.
    replace (j0 + Z.of_nat 0) with j0 in Hlast by lia.
    destruct (Z.ltb_spec 0 (read_stop - nth (Z.to_nat j0) ends 0)); [lia|].
    cbn [split_credits]. rsimpl. intros [= <-] j v [[= <- <-]|[]].
    rewrite Z.eqb_refl. lia.
  - rewrite (seqZ_cons j0 (Z.of_nat (S n) + 1)) by lia.
    replace (Z.pred (Z.of_nat (S n) + 1)) with (Z.of_nat n + 1) by lia.
    cbn [split_credits]. rewrite (py_getitem_nth ends j0 0) by lia. rsimpl.
    pose proof (Hbelow j0 ltac:(lia)) as Hj.
    destruct (Z.ltb_spec 0 (read_stop - nth (Z.to_nat j0) ends 0)); [|lia].
    destruct (split_credits ends read_stop (seqZ (Z.succ j0) (Z.of_nat n + 1))
                (read_stop - nth (Z.to_nat j0) ends 0)) as [rest|] eqn:Hrest; rsimpl;
      [|discriminate].
    intros [= <-] j v [[= <- <-]|Hin].
    + rewrite Z.eqb_refl. lia.
    + replace (read_stop - nth (Z.to_nat j0) ends 0)
        with (read_stop - (nth (Z.to_nat j0) ends 0 + 1) + 1) in Hrest by lia.
      destruct (IH (Z.succ j0) (nth (Z.to_nat j0) ends 0 + 1) rest) with (j := j) (v := v)
        as (Hrange & Hv); try lia; auto.
      * intros j' Hj'. apply Hbelow. lia.
      * replace (Z.succ j0 + Z.of_nat n) with (j0 + Z.of_nat (S n)) by lia. exact Hlast.
      * split; [lia|]. destruct (Z.eqb_spec j j0) as [|_]; [lia|].
        destruct (Z.eqb_spec j (Z.succ j0)) as [->|_]; [|exact Hv].
        rewrite Hv. replace (Z.succ j0 - 1) with j0 by lia. reflexivity.
Qed.

(** Each amount the filler adds for an accepted read is the number of
    bases of the read that lie in the bin, and is not negative: no
    base is counted twice and none is lost. *)
Lemma read_credits_overlaps (ends : list Z) (read_start read_stop last_end : Z)
    (credits : list (Z * Z)) :
  StronglySorted Z.le ends -> read_start <= read_stop ->
  last ends = Some last_end -> read_stop <= last_end ->
  read_credits ends read_start read_stop = Ok credits ->
  forall j v, In (j, v) credits ->
    v = bin_overlap ends read_start read_stop j /\ 0 <= v.
Proof.
  intros Hs Hle Hlast Hstop Hc j v Hin.
  destruct (read_locs _ _ _ _ Hs Hle Hlast Hstop) as (H0 & Hst & Hlt).
  destruct (bisect_left_sorted ends read_start Hs) as (_ & Hbelow1 & Habove1).
  destruct (bisect_left_sorted ends read_stop Hs) as (_ & Hbelow2 & Habove2).
  set (s := bisect_left Z.ltb ends read_start) in *.
  set (t := bisect_left Z.ltb ends read_stop) in *.
  assert (Hnth : forall i d, 0 <= i < len ends ->
            nth (Z.to_nat i) ends d = nth (Z.to_nat i) ends 0).
  { intros i d Hi. apply nth_indep. unfold len in *. lia. }
  assert (Hamount : s <= j <= t /\
    v = Z.min read_stop (nth (Z.to_nat j) ends 0)
        - (if j =? s then read_start else nth (Z.to_nat (j - 1)) ends 0 + 1) + 1).
  { unfold read_credits in Hc. fold s t in Hc. destruct (Z.eqb_spec s t) as [Heq|Hne].
    - injection Hc as <-. destruct Hin as [[= <- <-]|[]]. rewrite Z.eqb_refl.
      pose proof (Habove2 s ltac:(lia)) as Hs2. rewrite Hnth in Hs2 by lia. lia.
    - unfold py_range in Hc.
      replace (t + 1 - s) with (Z.of_nat (Z.to_nat (t - s)) + 1) in Hc by lia.
      destruct (split_credits_amounts ends read_stop (Z.to_nat (t - s)) s read_start credits)
        with (j := j) (v := v) as (Hrange & Hv); try lia; auto.
      + intros i Hi. rewrite <- (Hnth i read_stop) by lia. apply Hbelow2. lia.
      + replace (s + Z.of_nat (Z.to_nat (t - s))) with t by lia.
        rewrite <- (Hnth t read_stop) by lia. apply Habove2. lia. }
  destruct Hamount as (Hrange & Hv). unfold bin_overlap.
  pose proof (Habove1 j ltac:(lia)) as Hj1. rewrite Hnth in Hj1 by lia.
  destruct (Z.eqb_spec j s) as [->|Hjs].
  - destruct (Z.eqb_spec s 0) as [|Hs0].
    + split; lia.
    + pose proof (Hbelow1 (s - 1) ltac:(lia)) as Hp. rewrite Hnth in Hp by lia. split; lia.
  - destruct (Z.eqb_spec j 0) as [|_]; [lia|].
    pose proof (Habove1 (j - 1) ltac:(lia)) as Hp1. rewrite Hnth in Hp1 by lia.
    pose proof (Hbelow2 (j - 1) ltac:(lia)) as Hp2. rewrite Hnth in Hp2 by lia.
    pose proof (StronglySorted_nth Z.le ends 0 Hs (Z.to_nat (j - 1)) (Z.to_nat j)
                  ltac:(lia) ltac:(unfold len in *; lia)) as Hmono.
    split; lia.
Qed.

(** ** Conservation of the bases of a read *)

(** C2: for a read accepted into the matrix of its contig (ascending
    bin ends, identity row inside the array, start <= stop, stop not
    past the last bin end) the filler succeeds, what it adds is one
    amount per position bin from the bin of the start to the bin of the
    stop, no bin twice, each amount is the number of bases of the read
    inside the bin, and the amounts sum to
    [read_stop - read_start + 1], whether the read falls in one bin or
    is split over several. *)
Theorem read_bases_conserved (id_breaks : list Q) (matrices : gmap Z contig_matrix)
    (read_mapped : hit) (m : contig_matrix) (last_end : Z) :
  matrices !! h_contig_id read_mapped = Some m ->
  StronglySorted Z.le (cm_ends m) ->
  rectangular (cm_counts m) (len (cm_ends m)) ->
  0 <= read_id_index_of id_breaks (h_identity read_mapped) < len (cm_counts m) ->
  h_start read_mapped <= h_stop read_mapped ->
  last (cm_ends m) = Some last_end ->
  h_stop read_mapped <= last_end ->
  exists credits counts,
    read_credits (cm_ends m) (h_start read_mapped) (h_stop read_mapped) = Ok credits /\
    apply_credits (cm_counts m) (read_id_index_of id_breaks (h_identity read_mapped)) credits
      = Ok counts /\
    fill_read id_breaks matrices read_mapped
      = Ok (<[h_contig_id read_mapped := ContigMatrix (cm_starts m) (cm_ends m) counts]>
              matrices) /\
    sumZ (map snd credits) = h_stop read_mapped - h_start read_mapped + 1 /\
    NoDup (map fst credits) /\
    map fst credits =
      py_range (bisect_left Z.ltb (cm_ends m) (h_start read_mapped))
               (bisect_left Z.ltb (cm_ends m) (h_stop read_mapped) + 1) /\
    (forall j v, In (j, v) credits ->
       v = bin_overlap (cm_ends m) (h_start read_mapped) (h_stop read_mapped) j /\ 0 <= v).
Proof.
  intros Hm Hs Hrect Hidx Hle Hlast Hstop.
  destruct (read_locs _ _ _ _ Hs Hle Hlast Hstop) as (H0 & Hst & Hlt).
  destruct (bisect_left_sorted (cm_ends m) (h_stop read_mapped) Hs) as (_ & Hbelow & Habove).
  set (s := bisect_left Z.ltb (cm_ends m) (h_start read_mapped)) in *.
  set (t := bisect_left Z.ltb (cm_ends m) (h_stop read_mapped)) in *.
  assert (Hcred : exists credits,
    read_credits (cm_ends m) (h_start read_mapped) (h_stop read_mapped) = Ok credits /\
    map fst credits = py_range s (t + 1) /\
    sumZ (map snd credits) = h_stop read_mapped - h_start read_mapped + 1).
  { unfold read_credits. fold s t. destruct (Z.eqb_spec s t) as [Heq|Hne].
    - eexists. split; [reflexivity|]. rewrite <- Heq. unfold py_range.
      replace (s + 1 - s) with 1 by lia. change (seqZ s 1) with [0 + s].
      simpl. split; [done|lia].
    - destruct (split_credits_conserved (cm_ends m) (h_stop read_mapped)
                  (Z.to_nat (t - s)) s (h_stop read_mapped - h_start read_mapped + 1))
        as (credits & Hc & Hfst & Hsum); try lia.
      + intros j Hj. rewrite (nth_indep _ _ (h_stop read_mapped)) by (unfold len in *; lia).
        apply Hbelow. lia.
      + replace (s + Z.of_nat (Z.to_nat (t - s))) with t by lia.
        rewrite (nth_indep _ _ (h_stop read_mapped)) by (unfold len in *; lia).
        apply Habove. lia.
      + unfold py_range. replace (t + 1 - s) with (Z.of_nat (Z.to_nat (t - s)) + 1) by lia.
        eauto. }
  destruct Hcred as (credits & Hc & Hfst & Hsum).
  destruct (apply_credits_ok (len (cm_ends m))
              (read_id_index_of id_breaks (h_identity read_mapped)) credits (cm_counts m))
    as (counts & Hap & _ & _); auto.
  { rewrite Forall_forall. intros c Hin.
    assert (Hc1 : c.1 ∈ py_range s (t + 1)).
    { rewrite <- Hfst. apply list_elem_of_In, in_map, list_elem_of_In, Hin. }
    unfold py_range in Hc1. apply elem_of_seqZ in Hc1. lia. }
  exists credits, counts.
  split; [exact Hc|]. split; [exact Hap|]. split.
  { rewrite (fill_read_credits _ _ _ m Hm), Hc. rsimpl. rewrite Hap. rsimpl. done. }
  split; [exact Hsum|]. split.
  { rewrite Hfst. unfold py_range. apply NoDup_seqZ. }
  split; [exact Hfst|].
  intros j v Hin.
  exact (read_credits_overlaps _ _ _ _ _ Hs Hle Hlast Hstop Hc j v Hin).
Qed.

Ltac list_facts := repeat constructor; simpl; try lia; try reflexivity.

Lemma read_bases_conserved_witness :
  exists credits,
    read_credits [1174; 2350] 1170 1180 = Ok credits /\
    sumZ (map snd credits) = 11 /\
    fill_read [80; 90; 100]%Q demo_matrices (Hit 1 1 95 1170 1180)
      = Ok {[ 1 := ContigMatrix [1; 1175] [1174; 2350] [[0; 0]; [5; 6]; [0; 0]] ]}.
Proof.
  destruct (read_bases_conserved [80; 90; 100]%Q demo_matrices (Hit 1 1 95 1170 1180)
              (ContigMatrix [1; 1175] [1174; 2350] (np_zeros 3 2)) 2350)
    as (credits & counts & Hc & Hap & Hfill & Hsum & _ & _ & _).
  - reflexivity.
  - simpl. list_facts.
  - unfold rectangular. simpl. list_facts.
  - vm_compute. split; [discriminate|reflexivity].
  - simpl. lia.
  - reflexivity.
  - simpl. lia.
  - exists credits. split; [exact Hc|]. split; [exact Hsum|].
    vm_compute. reflexivity.
Defined.

(** ** Reads below the lowest identity break *)

(** Below the first of the ascending breaks, [bisect_right] returns 0
    and the identity row of the read is -1. *)
Lemma read_id_index_below_floor (b : Q) (rest : list Q) (identity : Q) :
  StronglySorted Qle (b :: rest) -> (identity < b)%Q ->
  read_id_index_of (b :: rest) identity = -1.
Proof.
  intros Hs Hlt. unfold read_id_index_of.
  destruct (bisect_right_sorted (b :: rest) identity Hs) as (Hr & Hbelow & _).
  destruct (Z.eq_dec (bisect_right Qltb (b :: rest) identity) 0) as [->|Hne]; [done|].
  specialize (Hbelow 0 ltac:(lia)). simpl in Hbelow.
  exfalso. apply (Qlt_not_le _ _ Hlt Hbelow).
Qed.

(** Row -1 of an array is its last row. *)
Lemma norm_index_minus_one {A : Type} (l : list A) :
  norm_index l (-1) = norm_index l (len l - 1).
Proof.
  unfold norm_index, len. destruct l as [|x l]; [reflexivity|].
  cbn [length]. change (0 <=? -1) with false. cbn [andb].
  destruct (Z.leb_spec (- Z.of_nat (S (length l))) (-1)); [|lia].
  change (-1 <? 0) with true. cbn [andb].
  destruct (Z.leb_spec 0 (Z.of_nat (S (length l)) - 1)); [|lia].
  destruct (Z.ltb_spec (Z.of_nat (S (length l)) - 1) (Z.of_nat (S (length l)))); [|lia].
  cbn [andb]. f_equal; lia.
Qed.

Lemma iadd_cell_minus_one (arr : list (list Z)) (j v : Z) :
  iadd_cell arr (-1) j v = iadd_cell arr (len arr - 1) j v.
Proof.
  unfold iadd_cell, py_getitem, py_setitem. rewrite norm_index_minus_one. reflexivity.
Qed.

Lemma iadd_cell_len (arr arr' : list (list Z)) (i j v : Z) :
  iadd_cell arr i j v = Ok arr' -> len arr' = len arr.
Proof.
  unfold iadd_cell.
  destruct (py_getitem arr i) as [row|]; rsimpl; [|discriminate].
  destruct (py_getitem row j) as [old|]; rsimpl; [|discriminate].
  destruct (py_setitem row j _) as [row'|]; rsimpl; [|discriminate].
  unfold py_setitem. destruct (norm_index arr i); [|discriminate].
  intros [= <-]. unfold len. rewrite length_insert. reflexivity.
Qed.

(** What is added under row -1 is added to the last row, the row of
    the break 100. *)
Lemma apply_credits_minus_one (credits : list (Z * Z)) :
  forall arr, apply_credits arr (-1) credits = apply_credits arr (len arr - 1) credits.
Proof.
  induction credits as [|[j v] credits IH]; intros arr; cbn [apply_credits]; [done|].
  rewrite iadd_cell_minus_one.
  destruct (iadd_cell arr (len arr - 1) j v) as [arr'|] eqn:Hadd; rsimpl; [|done].
  rewrite IH, (iadd_cell_len _ _ _ _ _ Hadd). reflexivity.
Qed.

(** For every read below the lowest break of a contig of the matrix,
    the filler does not skip the read: it adds its bases to the last
    identity row. *)
Lemma fill_read_below_floor (b : Q) (rest : list Q) (matrices : gmap Z contig_matrix)
    (read_mapped : hit) (m : contig_matrix) :
  StronglySorted Qle (b :: rest) -> (h_identity read_mapped < b)%Q ->
  matrices !! h_contig_id read_mapped = Some m ->
  fill_read (b :: rest) matrices read_mapped =
  (credits ← read_credits (cm_ends m) (h_start read_mapped) (h_stop read_mapped);
   counts ← apply_credits (cm_counts m) (len (cm_counts m) - 1) credits;
   Ok (<[h_contig_id read_mapped := ContigMatrix (cm_starts m) (cm_ends m) counts]> matrices)).
Proof.
  intros Hs Hlt Hm.
  rewrite (fill_read_credits _ _ _ m Hm), (read_id_index_below_floor _ _ _ Hs Hlt).
  destruct (read_credits _ _ _) as [credits|]; rsimpl; [|done].
  rewrite apply_credits_minus_one. reflexivity.
Qed.

(** C1, on the code: with the 60 breaks 70.5 .. 100.0, a read at
    identity 60.0 and one at 70.0 get the identity row -1 and are not
    skipped: their 11 bases land in row 59, the row of the break 100.0.
    A read at 70.6 is counted in row 0, the lowest bin. *)
Theorem floor_read_counted_in_top_row :
  length breaks_70 = 60%nat /\
  read_id_index_of breaks_70 60 = -1 /\
  read_id_index_of breaks_70 70 = -1 /\
  read_id_index_of breaks_70 (706 # 10) = 0 /\
  counts_of (fill_read breaks_70 contig_2350 (Hit 1 1 60 1170 1180)) 1
    = Some (<[59%nat := [5; 6]]> (np_zeros 60 2)) /\
  counts_of (fill_read breaks_70 contig_2350 (Hit 1 1 70 1170 1180)) 1
    = Some (<[59%nat := [5; 6]]> (np_zeros 60 2)) /\
  counts_of (fill_read breaks_70 contig_2350 (Hit 1 1 (706 # 10) 1170 1180)) 1
    = Some (<[0%nat := [5; 6]]> (np_zeros 60 2)).
Proof. vm_compute. repeat split; reflexivity. Qed.

(** ** Identity breaks *)

Lemma two_power_pos (k : Z) : (0 < 2 ^ k)%Q.
Proof. apply Qpower_0_lt. reflexivity. Qed.

Lemma two_power_Z (n : Z) : 0 <= n -> (2 ^ n == inject_Z (2 ^ n))%Q.
Proof. intros Hn. rewrite Zpower_Qpower by exact Hn. reflexivity. Qed.

(** [Qlog2] does not overshoot. *)
Lemma Qlog2_le (a : Q) : (0 < a)%Q -> (2 ^ Qlog2 a <= a)%Q.
Proof.
  destruct a as [N D]. intros Ha. unfold Qlog2. cbn [Qnum Qden].
  set (lN := Z.log2 N). set (lD := Z.log2 (Z.pos D)).
  destruct (Qle_bool (2 ^ (lN - lD)) (N # D)) eqn:E; [apply Qle_bool_iff; exact E|].
  assert (HN : 0 < N).
  { unfold Qlt in Ha. simpl in Ha. lia. }
  assert (HlN : 0 <= lN) by apply Z.log2_nonneg.
  assert (HlD : 0 <= lD) by apply Z.log2_nonneg.
  assert (HA : 2 ^ lN <= N) by (apply Z.log2_spec; exact HN).
  assert (HB : Z.pos D < 2 ^ (lD + 1)).
  { unfold lD. replace (Z.log2 (Z.pos D) + 1) with (Z.succ (Z.log2 (Z.pos D))) by lia.
    apply Z.log2_spec. lia. }
  replace (lN - lD - 1) with (lN - (lD + 1)) by lia.
  rewrite Qpower_minus by discriminate.
  rewrite (two_power_Z lN), (two_power_Z (lD + 1)) by lia.
  assert (HBpos : (0 < inject_Z (2 ^ (lD + 1)))%Q).
  { rewrite <- two_power_Z by lia. apply two_power_pos. }
  apply Qle_shift_div_r; [exact HBpos|].
  rewrite (Qmake_Qdiv N D).
  assert (HDpos : (0 < inject_Z (Z.pos D))%Q) by reflexivity.
  assert (Hre : (inject_Z N / inject_Z (Z.pos D) * inject_Z (2 ^ (lD + 1))
                 == inject_Z N * inject_Z (2 ^ (lD + 1)) / inject_Z (Z.pos D))%Q)
    by (field; intros H0; rewrite H0 in HDpos; discriminate).
  rewrite Hre.
  apply Qle_shift_div_l; [exact HDpos|].
  rewrite <- !inject_Z_mult, <- Zle_Qle. nia.
Qed.

Lemma round_half_even_floor (m : Q) : Qfloor m <= round_half_even m.
Proof.
  unfold round_half_even.
  destruct (Qltb _ (1 # 2)); [lia|]. destruct (Qltb (1 # 2) _); [lia|].
  destruct (Z.even _); lia.
Qed.

Lemma round_half_even_above (M : Z) (m : Q) :
  (inject_Z M <= m)%Q -> M <= round_half_even m.
Proof.
  intros HM. pose proof (round_half_even_floor m).
  pose proof (Qfloor_resp_le _ _ HM) as Hf. rewrite Qfloor_Z in Hf. lia.
Qed.

(** The rounded value of a number that is at least 100 is at least
    100: 100 is a float. *)
Lemma round64_at_least_100 (x : Q) : (100 <= x)%Q -> at_least_100 (round64 x).
Proof.
  intros Hx. unfold round64.
  assert (Hpos : (0 < x)%Q) by lra.
  destruct (Qeq_bool x 0) eqn:E0.
  { apply Qeq_bool_iff in E0. lra. }
  rewrite (proj2 (Qltb_lt 0 x) Hpos).
  set (a := Qabs x).
  assert (Ha : (a == x)%Q) by (apply Qabs_pos; lra).
  set (k := Z.max (Qlog2 a - 52) (-1074)).
  set (n := round_half_even (a / 2 ^ k)).
  destruct (Qle_bool (2 ^ 1024) (inject_Z n * 2 ^ k)); [exact I|].
  cbn [at_least_100].
  pose proof (two_power_pos k) as Hk.
  destruct (Z_le_gt_dec k 2) as [Hsmall|Hbig].
  - assert (HM : (inject_Z (25 * 2 ^ (2 - k)) * 2 ^ k == 100)%Q).
    { rewrite inject_Z_mult, <- two_power_Z by lia.
      rewrite <- Qmult_assoc, <- Qpower_plus by discriminate.
      replace (2 - k + k) with 2 by lia. reflexivity. }
    assert (Hn : 25 * 2 ^ (2 - k) <= n).
    { apply round_half_even_above. apply Qle_shift_div_l; [exact Hk|].
      rewrite HM, Ha. exact Hx. }
    rewrite <- HM. apply Qmult_le_compat_r; [|lra].
    rewrite <- Zle_Qle. exact Hn.
  - assert (Hke : k = Qlog2 a - 52) by lia.
    assert (Hlog : (2 ^ (k + 52) <= a)%Q).
    { replace (k + 52) with (Qlog2 a) by lia. apply Qlog2_le. lra. }
    assert (Hn : 2 ^ 52 <= n).
    { apply round_half_even_above. apply Qle_shift_div_l; [exact Hk|].
      rewrite <- two_power_Z by lia. rewrite <- Qpower_plus by discriminate.
      replace (52 + k) with (k + 52) by lia. exact Hlog. }
    assert (H1 : (1 <= 2 ^ k)%Q) by (apply Qpower_1_le; [lra|lia]).
    assert (Hn' : (inject_Z (2 ^ 52) <= inject_Z n)%Q) by (rewrite <- Zle_Qle; exact Hn).
    assert (H52 : (100 <= inject_Z (2 ^ 52))%Q) by (vm_compute; discriminate).
    apply Qle_trans with (inject_Z n * 1)%Q; [lra|].
    apply Qmult_le_l; [lra|exact H1].
Qed.

(** What the loop returns is the list the description determines. *)
Lemma id_breaks_loop_sound (id_lower bin_height : Q) (fuel : nat) :
  forall current_break acc l,
    id_breaks_loop fuel current_break id_lower bin_height acc = Some l ->
    exists descending,
      l = rev acc ++ descending /\ (length descending <= fuel)%nat /\
      stepped_down current_break bin_height id_lower descending.
Proof.
  induction fuel as [|fuel IH]; intros [c| |] acc l Hloop; cbn [id_breaks_loop] in Hloop;
    try discriminate.
  - destruct (Qltb id_lower c) eqn:E; [discriminate|]. injection Hloop as <-.
    exists []. rewrite app_nil_r. split; [reflexivity|]. split; [simpl; lia|].
    simpl. apply Qltb_ge. exact E.
  - injection Hloop as <-. exists []. rewrite app_nil_r. simpl. auto with zarith.
  - destruct (Qltb id_lower c) eqn:E.
    + destruct (IH _ _ _ Hloop) as (d & -> & Hlen & Hd).
      exists (c :: d). simpl. rewrite <- app_assoc. split; [reflexivity|].
      split; [lia|]. split; [reflexivity|]. split; [apply Qltb_lt; exact E|exact Hd].
    + injection Hloop as <-. exists []. rewrite app_nil_r. split; [reflexivity|].
      split; [simpl; lia|]. simpl. apply Qltb_ge. exact E.
  - injection Hloop as <-. exists []. rewrite app_nil_r. simpl. auto with zarith.
Qed.

Lemma make_id_breaks_sound (fuel : nat) (bin_height id_lower : Q) (id_breaks : list Q) :
  make_id_breaks fuel bin_height id_lower = Some id_breaks ->
  stepped_down (Finite 100) bin_height id_lower (rev id_breaks).
Proof.
  unfold make_id_breaks. intros Hrun.
  destruct (id_breaks_loop fuel (Finite 100) id_lower bin_height []) as [l|] eqn:Hloop;
    [|discriminate].
  injection Hrun as <-. rewrite rev_involutive.
  destruct (id_breaks_loop_sound _ _ _ _ _ _ Hloop) as (d & -> & _ & Hsd). exact Hsd.
Qed.

(** With one unit of fuel per break the loop returns that list; with
    less it is still running. *)
Lemma id_breaks_loop_complete (id_lower bin_height : Q) (descending : list Q) :
  forall fuel current_break acc,
    stepped_down current_break bin_height id_lower descending ->
    id_breaks_loop fuel current_break id_lower bin_height acc
    = if (length descending <=? fuel)%nat then Some (rev acc ++ descending) else None.
Proof.
  induction descending as [|b rest IH]; intros fuel cur acc Hd; cbn [stepped_down] in Hd.
  - rewrite app_nil_r. cbn [length Nat.leb].
    destruct cur as [c| |]; [|destruct Hd|destruct fuel; reflexivity].
    apply Qltb_ge in Hd. destruct fuel; cbn [id_breaks_loop]; rewrite Hd; reflexivity.
  - destruct Hd as (-> & Hb & Hrest). apply Qltb_lt in Hb.
    destruct fuel as [|fuel]; cbn [id_breaks_loop length Nat.leb]; rewrite Hb; [reflexivity|].
    rewrite (IH fuel _ (b :: acc) Hrest). simpl. rewrite <- app_assoc. reflexivity.
Qed.

Lemma stepped_down_unique (step id_lower : Q) (d1 : list Q) :
  forall top d2,
    stepped_down top step id_lower d1 -> stepped_down top step id_lower d2 -> d1 = d2.
Proof.
  induction d1 as [|b1 d1 IH]; intros top [|b2 d2] H1 H2; cbn [stepped_down] in *.
  - reflexivity.
  - destruct H2 as (-> & Hlt & _). lra.
  - destruct H1 as (-> & Hlt & _). lra.
  - destruct H1 as (-> & _ & H1), H2 as ([= <-] & _ & H2). f_equal. eapply IH; eassumption.
Qed.

(** C6: the breaks are those of the description: they start at 100
    and go down by [bin_height] (a float subtraction) while the value
    stays strictly above [id_lower], and are then reversed.  For a list
    built this way the loop returns exactly its reverse once it has
    made one turn per break, returns nothing else, and is still
    running before.  For a step of 0.5 above 70 the loop takes exactly
    60 turns and leaves the 60 ascending breaks 70.5, 71.0, ..., 100.0,
    none of them 70.0. *)
Theorem identity_breaks_built_downward (bin_height id_lower : Q) (descending : list Q) :
  stepped_down (Finite 100) bin_height id_lower descending ->
  (forall fuel, (length descending <= fuel)%nat ->
     make_id_breaks fuel bin_height id_lower = Some (rev descending)) /\
  (forall fuel, (fuel < length descending)%nat ->
     make_id_breaks fuel bin_height id_lower = None) /\
  (forall fuel id_breaks,
     make_id_breaks fuel bin_height id_lower = Some id_breaks ->
     id_breaks = rev descending) /\
  (make_id_breaks 60 (1 # 2) 70 = Some breaks_70 /\
   make_id_breaks 59 (1 # 2) 70 = None /\
   stepped_down (Finite 100) (1 # 2) 70 (rev breaks_70) /\
   length breaks_70 = 60%nat /\
   map Qred breaks_70 = boundaries_70 /\
   head boundaries_70 = Some (141 # 2)%Q /\
   last boundaries_70 = Some 100%Q /\
   StronglySorted Qlt breaks_70 /\
   Forall (fun b => ~ (b == 70)%Q) breaks_70).
Proof.
  intros Hd.
  assert (Hrun : forall fuel, make_id_breaks fuel bin_height id_lower
            = if (length descending <=? fuel)%nat then Some (rev descending) else None).
  { intros fuel. unfold make_id_breaks.
    rewrite (id_breaks_loop_complete _ _ _ fuel _ [] Hd).
    destruct (length descending <=? fuel)%nat; reflexivity. }
  assert (H60 : make_id_breaks 60 (1 # 2) 70 = Some breaks_70) by (vm_compute; reflexivity).
  split; [|split; [|split]].
  - intros fuel Hfuel. rewrite Hrun. apply Nat.leb_le in Hfuel. rewrite Hfuel. reflexivity.
  - intros fuel Hfuel. rewrite Hrun. apply Nat.leb_gt in Hfuel. rewrite Hfuel. reflexivity.
  - intros fuel id_breaks. rewrite Hrun.
    destruct (length descending <=? fuel)%nat; [|discriminate]. intros [= <-]. reflexivity.
  - split; [exact H60|]. split; [vm_compute; reflexivity|]. split.
    { exact (make_id_breaks_sound 60 (1 # 2) 70 breaks_70 H60). }
    split; [vm_compute; reflexivity|]. split; [vm_compute; reflexivity|].
    split; [vm_compute; reflexivity|]. split; [vm_compute; reflexivity|]. split.
    + assert (Hsorted : forall l : list Q,
                (fix sorted (l : list Q) : bool :=
                   match l with
                   | [] => true
                   | x :: l' => forallb (Qltb x) l' && sorted l'
                   end) l = true -> StronglySorted Qlt l).
      { induction l as [|x l IH]; intros Hl; [constructor|].
        apply andb_prop in Hl as [Hx Hl]. constructor; [apply IH; exact Hl|].
        apply Forall_forall. intros y Hy. rewrite forallb_forall in Hx.
        apply Qltb_lt, Hx, list_elem_of_In, Hy. }
      apply Hsorted. vm_compute. reflexivity.
    + apply Forall_forall. intros b Hb Heq.
      assert (Hall : forallb (fun b => negb (Qeq_bool b 70)) breaks_70 = true)
        by (vm_compute; reflexivity).
      rewrite forallb_forall in Hall. apply list_elem_of_In in Hb.
      specialize (Hall b Hb). apply Qeq_bool_iff in Heq. rewrite Heq in Hall. discriminate.
Qed.

Lemma identity_breaks_built_downward_witness :
  stepped_down (Finite 100) (1 # 2) 70 (rev breaks_70) /\
  make_id_breaks 60 (1 # 2) 70 = Some breaks_70.
Proof.
  assert (Hd : stepped_down (Finite 100) (1 # 2) 70 (rev breaks_70)).
  { assert (H60 : make_id_breaks 60 (1 # 2) 70 = Some breaks_70) by (vm_compute; reflexivity).
    exact (make_id_breaks_sound 60 (1 # 2) 70 breaks_70 H60). }
  split; [exact Hd|].
  destruct (identity_breaks_built_downward (1 # 2) 70 (rev breaks_70) Hd)
    as (_ & _ & _ & H60 & _).
  exact H60.
Defined.

(** The rounding shows in the count: with the float 0.1 as step the
    loop leaves 301 breaks above 70 and 6 above 99.5, one more than
    exact arithmetic would, the last difference falling just above the
    bound. *)
Lemma tenth_step_breaks :
  (exists q, round64 (1 # 10) = Finite q /\ Qred q = tenth) /\
  option_map (@length Q) (make_id_breaks 400 tenth 70) = Some 301%nat /\
  option_map (@length Q) (make_id_breaks 400 tenth (995 # 10)) = Some 6%nat.
Proof.
  split; [eexists; split; [vm_compute; reflexivity|vm_compute; reflexivity]|].
  vm_compute. split; reflexivity.
Qed.

(** A break that the subtraction leaves unchanged is never left. *)
Lemma id_breaks_loop_stuck (id_lower bin_height c : Q) :
  (id_lower < c)%Q -> float64_sub c bin_height = Finite c ->
  forall fuel acc, id_breaks_loop fuel (Finite c) id_lower bin_height acc = None.
Proof.
  intros Hlt Hsame. apply Qltb_lt in Hlt.
  induction fuel as [|fuel IH]; intros acc; cbn [id_breaks_loop]; rewrite Hlt;
    [reflexivity|]. rewrite Hsame. apply IH.
Qed.

(** A step below half the spacing of the floats at 100 is such a case:
    with the float 1e-15 the difference is 100 again and the loop never
    ends. *)
Lemma tiny_step_never_ends :
  exists h, round64 (1 # 1000000000000000) = Finite h /\ (0 < h)%Q /\
    forall fuel, make_id_breaks fuel h 70 = None.
Proof.
  eexists. split; [vm_compute; reflexivity|]. split; [reflexivity|].
  intros [|fuel]; [reflexivity|].
  unfold make_id_breaks. cbn [id_breaks_loop].
  change (Qltb 70 100) with true. cbv iota.
  match goal with
  | |- context [float64_sub 100 ?h] =>
      assert (Hfirst : exists c, float64_sub 100 h = Finite c /\ Qltb 70 c = true /\
                                 float64_sub c h = Finite c)
        by (eexists; split; [vm_compute; reflexivity|]; split; vm_compute; reflexivity)
  end.
  destruct Hfirst as (c & -> & Hlt & Hsame).
  rewrite (id_breaks_loop_stuck 70 _ c (proj1 (Qltb_lt 70 c) Hlt) Hsame). reflexivity.
Qed.

(** ** Position bins *)

Lemma bin_ends_length (starts : list Z) (contig_length : Z) :
  starts <> [] -> length (bin_ends starts contig_length) = length starts.
Proof.
  intros Hne. unfold bin_ends. destruct starts as [|s starts]; [done|].
  rewrite length_app, length_map. simpl. lia.
Qed.

(** Whatever the starts are, the widths of the bins add up to the
    stretch from the first start to the end of the contig. *)
Lemma bin_widths_sum (contig_length : Z) (starts : list Z) : forall s,
  sumZ (bin_widths (s :: starts) (bin_ends (s :: starts) contig_length))
    = contig_length - s + 1.
Proof.
  unfold bin_widths, bin_ends. induction starts as [|s' starts IH]; intros s.
  - simpl. lia.
  - specialize (IH s'). cbn [tail map app zip_with sumZ] in *. lia.
Qed.

(** Each end but the last is one below the next start. *)
Lemma bin_ends_contiguous (contig_length : Z) (starts : list Z) (i : nat) (s e : Z) :
  bin_ends starts contig_length !! i = Some e -> starts !! S i = Some s -> e + 1 = s.
Proof.
  unfold bin_ends. intros He Hs. rewrite <- lookup_tail in Hs.
  rewrite lookup_app_l in He.
  - change (map (fun s0 => s0 - 1) (tail starts)) with ((fun s0 => s0 - 1) <$> tail starts) in He.
    rewrite list_lookup_fmap, Hs in He. simpl in He. injection He. lia.
  - rewrite length_map. eapply lookup_lt_Some. exact Hs.
Qed.

Lemma np_linspace_lookup (start stop num : Z) (i : nat) (s : Z) :
  np_linspace start stop num !! i = Some s ->
  s = start + (Z.of_nat i * (stop - start)) / num /\ Z.of_nat i < num.
Proof.
  unfold np_linspace.
  change (map ?f ?l) with (f <$> l). rewrite list_lookup_fmap.
  destruct (seq 0 (Z.to_nat num) !! i) as [k|] eqn:Hk; [|discriminate].
  apply lookup_seq in Hk as [-> Hlt]. simpl. intros [= <-]. split; [reflexivity|lia].
Qed.

Lemma num_bins_max (contig_length width : Z) :
  0 < contig_length -> 0 < width ->
  num_bins contig_length width = Ok (Z.max 1 (contig_length / width)).
Proof.
  intros HL HW. unfold num_bins.
  destruct (Z.eqb_spec width 0); [lia|].
  rewrite Z.quot_div_nonneg by lia.
  destruct (Z.ltb_spec (contig_length / width) 1); f_equal; lia.
Qed.

(** C7: a contig of length L > 0 under a bin width W > 0 gets
    max(1, floor(L / W)) position bins; the first starts at 1, the last
    ends at L, each end is one below the next start, the starts are in
    order, the widths sum to L, and a contig shorter than W gets the
    single bin 1..L. *)
Theorem position_bins_partition (n_breaks : nat) (contig_length width : Z) :
  0 < contig_length -> 0 < width ->
  exists m,
    contig_bins n_breaks contig_length width = Ok m /\
    len (cm_starts m) = Z.max 1 (contig_length / width) /\
    len (cm_ends m) = Z.max 1 (contig_length / width) /\
    head (cm_starts m) = Some 1 /\
    last (cm_ends m) = Some contig_length /\
    (forall i s e, cm_ends m !! i = Some e -> cm_starts m !! S i = Some s -> e + 1 = s) /\
    (forall i s s', cm_starts m !! i = Some s -> cm_starts m !! S i = Some s' -> s <= s') /\
    sumZ (bin_widths (cm_starts m) (cm_ends m)) = contig_length /\
    (contig_length < width -> cm_starts m = [1] /\ cm_ends m = [contig_length]).
Proof.
  intros HL HW. unfold contig_bins. rewrite (num_bins_max _ _ HL HW). rsimpl.
  set (n := Z.max 1 (contig_length / width)).
  assert (Hn : 1 <= n) by (unfold n; lia).
  eexists. split; [reflexivity|]. cbn [cm_starts cm_ends].
  assert (Hlen : length (bin_starts contig_length n) = Z.to_nat n).
  { unfold bin_starts, np_linspace. rewrite length_map, length_seq. reflexivity. }
  assert (Hhead : exists rest, bin_starts contig_length n = 1 :: rest).
  { unfold bin_starts, np_linspace. destruct (Z.to_nat n) as [|k] eqn:Hk; [lia|].
    simpl. rewrite Z.div_0_l by lia. eexists. reflexivity. }
  destruct Hhead as (rest & Hstarts).
  repeat split.
  - unfold len. rewrite Hlen. lia.
  - unfold len. rewrite bin_ends_length, Hlen; [lia|]. rewrite Hstarts. discriminate.
  - rewrite Hstarts. reflexivity.
  - unfold bin_ends. apply last_snoc.
  - intros i s e. apply bin_ends_contiguous.
  - intros i s s' Hs Hs'. unfold bin_starts in *.
    apply np_linspace_lookup in Hs as [-> _]. apply np_linspace_lookup in Hs' as [-> _].
    apply Z.add_le_mono_l, Z.div_le_mono; [lia|]. apply Z.mul_le_mono_nonneg_r; lia.
  - rewrite Hstarts, bin_widths_sum. lia.
  - unfold bin_starts, np_linspace.
    replace n with 1 by (unfold n; rewrite Z.div_small by lia; lia). reflexivity.
  - unfold bin_starts, np_linspace.
    replace n with 1 by (unfold n; rewrite Z.div_small by lia; lia). reflexivity.
Qed.

Lemma position_bins_partition_witness :
  exists m,
    contig_bins 60 2350 1000 = Ok m /\
    len (cm_starts m) = 2 /\
    sumZ (bin_widths (cm_starts m) (cm_ends m)) = 2350.
Proof.
  destruct (position_bins_partition 60 2350 1000)
    as (m & Hm & Hlen & _ & _ & _ & _ & _ & Hsum & _); [lia|lia|].
  exists m. split; [exact Hm|]. split; [exact Hlen|exact Hsum].
Defined.

(** ** Catalog *)

(** The rows of [lookup_table] list the contigs of the membership
    input in order, numbered from [contig_id]. *)
Lemma contig_identifiers_names_ids (items : list (string * string)) :
  forall mag_ids mag_id contig_id acc,
    map (fun r => (r.1.2, r.2)) (contig_identifiers_loop items mag_ids mag_id contig_id acc)
    = map (fun r => (r.1.2, r.2)) acc
        ++ zip (map fst items) (seqZ contig_id (len items)).
Proof.
  induction items as [|[contig_name mag_name] items IH];
    intros mag_ids mag_id contig_id acc; cbn [contig_identifiers_loop].
  - simpl. rewrite app_nil_r. reflexivity.
  - assert (Hseq : seqZ contig_id (len ((contig_name, mag_name) :: items))
                   = contig_id :: seqZ (contig_id + 1) (len items)).
    { unfold len. rewrite seqZ_cons by (simpl; lia). f_equal. f_equal; simpl; lia. }
    rewrite Hseq.
    destruct (mag_ids !! mag_name); rewrite IH, map_app, <- app_assoc; reflexivity.
Qed.

Lemma select_ids_Some (rows : list (string * Z * string * Z)) (contig : string) (m c : Z) :
  select_ids rows contig = Some (m, c) ->
  In (contig, c) (map (fun r => (r.1.2, r.2)) rows).
Proof.
  unfold select_ids. destruct (find _ rows) as [r|] eqn:Hf; [|discriminate].
  intros [= <- <-]. apply find_some in Hf as [Hin Heq].
  apply String.eqb_eq in Heq. subst contig.
  apply (in_map (fun r => (r.1.2, r.2))) in Hin. exact Hin.
Qed.

Lemma select_ids_None (rows : list (string * Z * string * Z)) (contig : string) :
  select_ids rows contig = None <-> ~ In contig (map (fun r => r.1.2) rows).
Proof.
  unfold select_ids. split.
  - destruct (find _ rows) as [r|] eqn:Hf; [discriminate|]. intros _ Hin.
    apply in_map_iff in Hin as (r & <- & Hin).
    pose proof (find_none _ _ Hf r Hin) as Hne. simpl in Hne.
    rewrite String.eqb_refl in Hne. discriminate.
  - intros Hnot. destruct (find _ rows) as [r|] eqn:Hf; [|reflexivity].
    apply find_some in Hf as [Hin Heq]. apply String.eqb_eq in Heq.
    exfalso. apply Hnot. rewrite <- Heq. apply (in_map (fun r => r.1.2)), Hin.
Qed.

Lemma lookup_names (items : list (string * string)) :
  map (fun r => r.1.2) (contig_identifiers_loop items ∅ 0 1 []) = map fst items.
Proof.
  pose proof (contig_identifiers_names_ids items ∅ 0 1 []) as H.
  apply (f_equal (map fst)) in H. rewrite map_map in H. simpl in H.
  rewrite H. clear H. unfold len. generalize 1.
  induction items as [|x items IH]; intros c; [reflexivity|].
  rewrite seqZ_cons by (simpl; lia). simpl. f_equal.
  replace (Z.pred (Z.of_nat (S (length items)))) with (Z.of_nat (length items)) by lia.
  apply IH.
Qed.

(** The length loop fails exactly on a contig without a row in
    [lookup_table]; otherwise every row it makes carries the ids of a
    contig of the lengths input. *)
Lemma contig_lengths_loop_raise (rows : list (string * Z * string * Z))
    (items : list (string * Z)) : forall acc contig,
  In contig (map fst items) -> select_ids rows contig = None ->
  contig_lengths_loop rows items acc = Raise TypeError.
Proof.
  induction items as [|[c l] items IH]; intros acc contig Hin Hnone; [destruct Hin|].
  cbn [contig_lengths_loop]. destruct (select_ids rows c) as [[m i]|] eqn:Hc; [|reflexivity].
  destruct Hin as [Heq|Hin]; [simpl in Heq; congruence|]. eapply IH; eauto.
Qed.

Lemma contig_lengths_loop_ok (rows : list (string * Z * string * Z))
    (items : list (string * Z)) : forall acc,
  (forall contig, In contig (map fst items) -> select_ids rows contig <> None) ->
  exists contig_lengths,
    contig_lengths_loop rows items acc = Ok (acc ++ contig_lengths) /\
    forall m c l, In (m, c, l) contig_lengths ->
      exists contig, In (contig, l) items /\ select_ids rows contig = Some (m, c).
Proof.
  induction items as [|[c l] items IH]; intros acc Hall.
  - exists []. rewrite app_nil_r. split; [reflexivity|]. intros ? ? ? [].
  - cbn [contig_lengths_loop]. destruct (select_ids rows c) as [[m i]|] eqn:Hc.
    + destruct (IH (acc ++ [(m, i, l)])) as (rest & Hrest & Hrows).
      { intros contig Hin. apply Hall. right. exact Hin. }
      exists ((m, i, l) :: rest). rewrite Hrest, <- app_assoc. split; [reflexivity|].
      intros m' c' l' [Heq|Hin].
      * injection Heq as <- <- <-. exists c. split; [left; reflexivity|exact Hc].
      * destruct (Hrows _ _ _ Hin) as (contig & Hin' & Hsel).
        exists contig. split; [right; exact Hin'|exact Hsel].
    + exfalso. apply (Hall c); [left; reflexivity|exact Hc].
Qed.

(** Ids are given by position, so two rows of [lookup_table] with the
    same contig id have the same contig name. *)
Lemma zip_seqZ_functional {A : Type} (l : list A) (c : Z) (x y : A) (i : Z) :
  In (x, i) (zip l (seqZ c (len l))) -> In (y, i) (zip l (seqZ c (len l))) -> x = y.
Proof.
  intros Hx Hy.
  apply list_elem_of_In, list_elem_of_lookup in Hx as (n1 & Hn1).
  apply list_elem_of_In, list_elem_of_lookup in Hy as (n2 & Hn2).
  unfold zip in *. apply lookup_zip_with_Some in Hn1 as (a1 & b1 & [= -> ->] & Ha1 & Hb1).
  apply lookup_zip_with_Some in Hn2 as (a2 & b2 & [= -> ->] & Ha2 & Hb2).
  apply lookup_seqZ in Hb1 as [Hb1 _]. apply lookup_seqZ in Hb2 as [Hb2 _].
  assert (n1 = n2) by lia. subst n2. congruence.
Qed.

Lemma catalog_run (contig_sizes : list (string * Z))
    (contig_mag_corresp : list (string * string)) (sample_reads : list string)
    (db : database) :
  distinct sample_reads = true ->
  let rows := contig_identifiers_loop contig_mag_corresp ∅ 0 1 [] in
  let r := sqldb_creation_catalog contig_sizes contig_mag_corresp sample_reads db in
  lookup_table r.1 = rows /\
  match contig_lengths_loop rows contig_sizes [] with
  | Ok contig_lengths => r.2 = Ok tt /\ mag_info r.1 = contig_lengths
  | Raise e => r.2 = Raise e /\ mag_info r.1 = []
  end.
Proof.
  intros Hd. unfold sqldb_creation_catalog. rewrite Hd. cbn [negb].
  cbn [lookup_table set_sample_info mag_info].
  destruct (contig_lengths_loop _ contig_sizes []) as [contig_lengths|e]; simpl; auto.
Qed.

(** C5, as the code has it: the catalog build fails at the length
    join exactly when a contig of the lengths input has no row in
    [lookup_table], that is, is absent from the membership input; the
    exception is the [TypeError] of subscripting [None], [lookup_table]
    is already written, and contigs of the membership input without a
    length raise nothing. *)
Theorem catalog_failure_at_length_join (contig_sizes : list (string * Z))
    (contig_mag_corresp : list (string * string)) (sample_reads : list string)
    (db : database) :
  distinct sample_reads = true ->
  let r := sqldb_creation_catalog contig_sizes contig_mag_corresp sample_reads db in
  ((exists contig, In contig (map fst contig_sizes) /\
                   ~ In contig (map fst contig_mag_corresp)) ->
   r.2 = Raise TypeError) /\
  ((forall contig, In contig (map fst contig_sizes) ->
                   In contig (map fst contig_mag_corresp)) ->
   r.2 = Ok tt) /\
  lookup_table r.1 = contig_identifiers_loop contig_mag_corresp ∅ 0 1 [].
Proof.
  intros Hd. destruct (catalog_run contig_sizes contig_mag_corresp sample_reads db Hd)
    as (Hrows & Hres). cbv zeta in *.
  split; [|split; [|exact Hrows]].
  - intros (contig & Hin & Hnot).
    rewrite (contig_lengths_loop_raise _ _ [] contig Hin) in Hres; [tauto|].
    apply select_ids_None. rewrite lookup_names. exact Hnot.
  - intros Hall.
    destruct (contig_lengths_loop_ok (contig_identifiers_loop contig_mag_corresp ∅ 0 1 [])
                contig_sizes []) as (rows & Hok & _).
    { intros contig Hin Hnone. apply select_ids_None in Hnone.
      rewrite lookup_names in Hnone. auto. }
    rewrite Hok in Hres. tauto.
Qed.

Lemma catalog_failure_at_length_join_witness :
  (sqldb_creation_catalog [("ctgA", 100); ("ctgZ", 5)]
     [("ctgA", "mag1"); ("ctgB", "mag1")] ["a.blast"] empty_db).2 = Raise TypeError.
Proof.
  apply (catalog_failure_at_length_join [("ctgA", 100); ("ctgZ", 5)]
           [("ctgA", "mag1"); ("ctgB", "mag1")] ["a.blast"] empty_db).
  - reflexivity.
  - exists "ctgZ". split; [simpl; tauto|].
    simpl. intros [H|[H|[]]]; discriminate.
Defined.

(** The claim C5 fails on the code: a contig of the membership input
    without a length does not stop the build. *)
Lemma membership_contig_without_length_accepted :
  In "ctgB" (map fst [("ctgA", "mag1"); ("ctgB", "mag1")]) /\
  ~ In "ctgB" (map fst [("ctgA", 100)]) /\
  sqldb_creation_catalog [("ctgA", 100)] [("ctgA", "mag1"); ("ctgB", "mag1")] [] empty_db
  = (Database [("mag1", 1, "ctgA", 1); ("mag1", 1, "ctgB", 2)] [(1, 1, 100)] [] [] ∅ ∅,
     Ok tt).
Proof.
  split; [simpl; tauto|]. split; [simpl; intros [H|[]]; discriminate|].
  vm_compute. reflexivity.
Qed.

(** C10: a contig of the lengths input that the membership input
    does not list makes the build fail with the uncaught [TypeError]
    before a single row of the contig length relation is written; when
    no such contig exists the build succeeds, and a contig of the
    membership input without a length has its row in [lookup_table] but
    no row in the contig length relation. *)
Theorem length_join_asymmetry (contig_sizes : list (string * Z))
    (contig_mag_corresp : list (string * string)) (sample_reads : list string)
    (db : database) :
  distinct sample_reads = true ->
  let r := sqldb_creation_catalog contig_sizes contig_mag_corresp sample_reads db in
  (forall contig,
     In contig (map fst contig_sizes) -> ~ In contig (map fst contig_mag_corresp) ->
     r.2 = Raise TypeError /\ mag_info r.1 = [] /\
     map (fun row => row.1.2) (lookup_table r.1) = map fst contig_mag_corresp) /\
  ((forall contig, In contig (map fst contig_sizes) ->
                   In contig (map fst contig_mag_corresp)) ->
   r.2 = Ok tt /\
   forall contig,
     In contig (map fst contig_mag_corresp) -> ~ In contig (map fst contig_sizes) ->
     exists m c, select_ids (lookup_table r.1) contig = Some (m, c) /\
                 forall m' l, ~ In (m', c, l) (mag_info r.1)).
Proof.
  intros Hd. destruct (catalog_run contig_sizes contig_mag_corresp sample_reads db Hd)
    as (Hrows & Hres). cbv zeta in *.
  set (rows := contig_identifiers_loop contig_mag_corresp ∅ 0 1 []) in *.
  split.
  - intros contig Hin Hnot.
    rewrite (contig_lengths_loop_raise _ _ [] contig Hin) in Hres.
    + destruct Hres as [-> ->]. rewrite Hrows. unfold rows. rewrite lookup_names. auto.
    + apply select_ids_None. unfold rows. rewrite lookup_names. exact Hnot.
  - intros Hall.
    destruct (contig_lengths_loop_ok rows contig_sizes []) as (lens & Hok & Hlens).
    { intros contig Hin Hnone. apply select_ids_None in Hnone.
      unfold rows in Hnone. rewrite lookup_names in Hnone. auto. }
    rewrite Hok in Hres. destruct Hres as [Hr Hinfo]. split; [exact Hr|].
    intros contig Hin Hnot.
    destruct (select_ids (lookup_table _) contig) as [[m c]|] eqn:Hsel.
    + exists m, c. split; [reflexivity|]. intros m' l Hrow.
      rewrite Hinfo in Hrow. simpl in Hrow.
      destruct (Hlens _ _ _ Hrow) as (contig' & Hin' & Hsel').
      rewrite Hrows in Hsel.
      apply select_ids_Some in Hsel, Hsel'.
      unfold rows in Hsel, Hsel'.
      rewrite contig_identifiers_names_ids in Hsel, Hsel'. simpl in Hsel, Hsel'.
      unfold len in Hsel, Hsel'.
      rewrite <- (length_map fst contig_mag_corresp) in Hsel, Hsel'.
      pose proof (zip_seqZ_functional _ _ _ _ _ Hsel Hsel') as Heq. subst contig'.
      apply Hnot. apply (in_map fst) in Hin'. exact Hin'.
    + exfalso. apply select_ids_None in Hsel. rewrite Hrows in Hsel.
      unfold rows in Hsel. rewrite lookup_names in Hsel. auto.
Qed.

Lemma length_join_asymmetry_witness :
  (sqldb_creation_catalog [("ctgA", 100); ("ctgZ", 5)]
     [("ctgA", "mag1"); ("ctgB", "mag1")] ["a.blast"] empty_db).2 = Raise TypeError /\
  mag_info (sqldb_creation_catalog [("ctgA", 100); ("ctgZ", 5)]
     [("ctgA", "mag1"); ("ctgB", "mag1")] ["a.blast"] empty_db).1 = [].
Proof.
  destruct (length_join_asymmetry [("ctgA", 100); ("ctgZ", 5)]
              [("ctgA", "mag1"); ("ctgB", "mag1")] ["a.blast"] empty_db) as [Ha _].
  - reflexivity.
  - destruct (Ha "ctgZ") as (Hr & Hi & _).
    + simpl. tauto.
    + simpl. intros [H|[H|[]]]; discriminate.
    + split; [exact Hr|exact Hi].
Defined.

(** ** The tag search of the SAM parser *)

Lemma py_getitem_negative {A : Type} (l : list A) (j : Z) :
  1 <= j <= len l -> exists x, py_getitem l (- j) = Ok x /\ In x l.
Proof.
  intros Hj. unfold py_getitem, norm_index.
  destruct (Z.leb_spec 0 (- j)); [lia|]. cbn [andb].
  destruct (Z.leb_spec (- len l) (- j)); [|lia].
  destruct (Z.ltb_spec (- j) 0); [|lia]. cbn [andb].
  destruct (l !! Z.to_nat (len l + - j)) as [x|] eqn:Hx.
  - exists x. split; [reflexivity|]. apply list_elem_of_In. eapply list_elem_of_lookup_2, Hx.
  - apply lookup_ge_None in Hx. unfold len in *. lia.
Qed.

Lemma py_getitem_below {A : Type} (l : list A) (i : Z) :
  i < - len l -> py_getitem l i = Raise IndexError.
Proof.
  intros Hi. unfold py_getitem, norm_index, len in *.
  destruct (Z.leb_spec 0 i); [lia|]. cbn [andb].
  destruct (Z.leb_spec (- Z.of_nat (length l)) i); [lia|]. reflexivity.
Qed.

Lemma find_mdz_unfold (fuel : nat) (segment : list string) (iter : Z) :
  find_mdz fuel segment iter =
  (mdz_seg ← py_getitem segment iter;
   if is_mdz mdz_seg then Ok mdz_seg
   else match fuel with
        | O => Raise IndexError
        | S fuel' => find_mdz fuel' segment (iter - 1)
        end).
Proof. destruct fuel; reflexivity. Qed.

(** Once the scan has passed index 0 without a match it reads the same
    fields again through the negative indices and ends in the
    [IndexError] of [segment[-len(segment) - 1]]. *)
Lemma find_mdz_second_pass (segment : list string) :
  (forall f, In f segment -> is_mdz f = false) ->
  forall (d : nat) (j : Z) (fuel : nat),
    1 <= j -> len segment + 1 - j = Z.of_nat d -> (d <= fuel)%nat ->
    find_mdz fuel segment (- j) = Raise IndexError.
Proof.
  intros Hnone. induction d as [|d IH]; intros j fuel Hj Hd Hfuel; rewrite find_mdz_unfold.
  - rewrite py_getitem_below by lia. reflexivity.
  - destruct (py_getitem_negative segment j) as (x & -> & Hin); [lia|]. rsimpl.
    rewrite (Hnone x Hin). destruct fuel as [|fuel]; [lia|].
    replace (- j - 1) with (- (j + 1)) by lia. apply IH; lia.
Qed.

Lemma find_mdz_first_pass (segment : list string) :
  forall (k fuel : nat),
    (k <= length segment)%nat -> (k + length segment <= fuel)%nat ->
    (forall i f, (k <= i)%nat -> segment !! i = Some f -> is_mdz f = false) ->
    find_mdz fuel segment (Z.of_nat k - 1) =
    match List.find is_mdz (rev (firstn k segment)) with
    | Some f => Ok f
    | None => Raise IndexError
    end.
Proof.
  induction k as [|k IH]; intros fuel Hk Hfuel Hpassed.
  - simpl. apply (find_mdz_second_pass segment) with (d := length segment);
      unfold len; try lia.
    intros f Hin. apply list_elem_of_In, list_elem_of_lookup in Hin as (i & Hi).
    apply (Hpassed i f); [lia|exact Hi].
  - rewrite find_mdz_unfold.
    replace (Z.of_nat (S k) - 1) with (Z.of_nat k) by lia.
    destruct (lookup_lt_is_Some_2 segment k ltac:(lia)) as (f & Hf).
    rewrite (py_getitem_nth segment (Z.of_nat k) f) by (unfold len; lia).
    rewrite Nat2Z.id, (nth_lookup_Some _ _ _ _ Hf). rsimpl.
    rewrite (take_S_r _ _ _ Hf), rev_app_distr. cbn [rev app find].
    destruct (is_mdz f) eqn:Hp; [reflexivity|].
    destruct fuel as [|fuel]; [lia|]. apply IH; try lia.
    intros i f' Hi Hf'. destruct (Nat.eq_dec i k) as [->|Hne].
    + congruence.
    + apply (Hpassed i f'); [lia|exact Hf'].
Qed.

(** The backward scan returns the last field with the tag prefix, and
    raises when no field has it. *)
Lemma find_mdz_last (segment : list string) :
  find_mdz (2 * length segment) segment (len segment - 1) =
  match last_mdz_field segment with
  | Some f => Ok f
  | None => Raise IndexError
  end.
Proof.
  unfold last_mdz_field, len.
  rewrite (find_mdz_first_pass segment (length segment)); try lia.
  - rewrite firstn_all. reflexivity.
  - intros i f Hi Hf. apply lookup_lt_Some in Hf. lia.
Qed.

(** ** Ingestion of a file *)

Lemma db_bind_unfold {A B : Type} (m : db_op A) (k : A -> db_op B) (db : database) :
  (m ≫= k) db =
  match m db with
  | (db', Ok a) => k a db'
  | (db', Raise e) => (db', Raise e)
  end.
Proof. reflexivity. Qed.

Lemma db_ret_unfold {A : Type} (a : A) (db : database) :
  (mret a : db_op A) db = (db, Ok a).
Proof. reflexivity. Qed.

(** A record on which the turn raises stops the ingestion of the file:
    [save_reads_mapped] has no handler. *)
Lemma ingest_loop_raises {L : Type}
    (step : list string -> L -> result (option hit * list string))
    (sample_name : string) (x : L) (post : list L) (e : exn) :
  (forall contigs_in_sample, step contigs_in_sample x = Raise e) ->
  forall pre record_counter records contigs_in_sample db,
    exists db' e',
      ingest_loop step sample_name (pre ++ x :: post) record_counter records
        contigs_in_sample db = (db', Raise e').
Proof.
  intros Hx. induction pre as [|y pre IH]; intros c recs cs db; cbn [app ingest_loop].
  - rewrite db_bind_unfold.
    destruct (c =? batch_size).
    + rewrite db_bind_unfold. destruct (insert_hits sample_name recs db) as [db1 [[]|e1]].
      * rewrite db_ret_unfold, db_bind_unfold. unfold db_lift. rewrite Hx. eauto.
      * eauto.
    + rewrite db_ret_unfold, db_bind_unfold. unfold db_lift. rewrite Hx. eauto.
  - rewrite db_bind_unfold.
    assert (Hturn : forall c1 recs1 db1, exists db' e',
      (let '(r, contigs_in_sample) := (c1, recs1) in
       db_lift (step cs y) ≫= λ '(r0, contigs_in_sample0),
         match r0 with
         | Some h =>
             ingest_loop step sample_name (pre ++ x :: post) (r + 1)
               (contigs_in_sample ++ [h]) contigs_in_sample0
         | None =>
             ingest_loop step sample_name (pre ++ x :: post) r contigs_in_sample
               contigs_in_sample0
         end) db1 = (db', Raise e')).
    { intros c1 recs1 db1. cbv beta iota. rewrite db_bind_unfold. unfold db_lift.
      destruct (step cs y) as [[[h|] cs1]|e1]; eauto. }
    destruct (c =? batch_size).
    + rewrite db_bind_unfold. destruct (insert_hits sample_name recs db) as [db1 [[]|e1]].
      * rewrite db_ret_unfold. apply Hturn.
      * eauto.
    + rewrite db_ret_unfold. apply Hturn.
Qed.

Lemma ingest_raises {L : Type}
    (step : list string -> L -> result (option hit * list string))
    (sample_name : string) (x : L) (pre post : list L) (e : exn) (db : database) :
  (forall contigs_in_sample, step contigs_in_sample x = Raise e) ->
  exists db' e', ingest step sample_name (pre ++ x :: post) db = (db', Raise e').
Proof.
  intros Hx. unfold ingest. rewrite db_bind_unfold.
  destruct (ingest_loop_raises step sample_name x post e Hx pre 0 [] [] db)
    as (db' & e' & ->). eauto.
Qed.

(** When the first record of the file is such a record nothing is
    written and the exception is the one of the record. *)
Lemma ingest_raises_first {L : Type}
    (step : list string -> L -> result (option hit * list string))
    (sample_name : string) (x : L) (post : list L) (e : exn) (db : database) :
  (forall contigs_in_sample, step contigs_in_sample x = Raise e) ->
  ingest step sample_name (x :: post) db = (db, Raise e).
Proof.
  intros Hx. unfold ingest. rewrite db_bind_unfold. cbn [ingest_loop].
  rewrite db_bind_unfold. change (0 =? batch_size) with false. cbv iota.
  rewrite db_ret_unfold, db_bind_unfold. unfold db_lift. rewrite Hx. reflexivity.
Qed.

Lemma set_tables_same (db : database) (t : string) (rows : list hit) :
  tables db !! t = Some rows ->
  set_tables (<[t := rows]> (tables db)) (indexes db) db = db.
Proof.
  intros Ht. destruct db as [lt mi si mps tbl idx]. unfold set_tables. simpl in *.
  rewrite (insert_id _ _ _ Ht). reflexivity.
Qed.

Lemma insert_hits_ok (t : string) (records rows : list hit) (db : database) :
  tables db !! t = Some rows ->
  insert_hits t records db
  = (set_tables (<[t := rows ++ records]> (tables db)) (indexes db) db, Ok tt).
Proof. intros Ht. unfold insert_hits. rewrite Ht. reflexivity. Qed.

(** The batch test at the head of a turn keeps the rows of the table
    followed by the pending records. *)
Lemma flush_turn (sample_name : string) (record_counter : Z) (records rows : list hit)
    (db : database) :
  tables db !! sample_name = Some rows -> record_counter = len records ->
  exists rows1 records1,
    (if record_counter =? batch_size
     then _ ← insert_hits sample_name records; mret (0, [])
     else mret (record_counter, records) : db_op (Z * list hit)) db
    = (set_tables (<[sample_name := rows1]> (tables db)) (indexes db) db,
       Ok (len records1, records1)) /\
    rows1 ++ records1 = rows ++ records.
Proof.
  intros Ht Hc. destruct (record_counter =? batch_size).
  - exists (rows ++ records), []. rewrite db_bind_unfold, (insert_hits_ok _ _ rows) by done.
    rewrite db_ret_unfold, app_nil_r. split; reflexivity.
  - exists rows, records. rewrite db_ret_unfold, set_tables_same by done. subst.
    split; reflexivity.
Qed.

Lemma ingest_loop_ok {L : Type}
    (step : list string -> L -> result (option hit * list string))
    (sample_name : string) (input_reads : list L) :
  forall record_counter records contigs_in_sample db rows hits contigs,
    tables db !! sample_name = Some rows -> record_counter = len records ->
    parse_records step input_reads contigs_in_sample = Ok (hits, contigs) ->
    exists rows' records',
      ingest_loop step sample_name input_reads record_counter records contigs_in_sample db
      = (set_tables (<[sample_name := rows']> (tables db)) (indexes db) db,
         Ok (len records', records', contigs)) /\
      rows' ++ records' = rows ++ records ++ hits.
Proof.
  induction input_reads as [|line rest IH];
    intros c recs cs db rows hits contigs Ht Hc Hparse; cbn [parse_records ingest_loop] in *.
  - injection Hparse as <- <-. exists rows, recs.
    rewrite db_ret_unfold, set_tables_same by done. subst. rewrite app_nil_r.
    split; reflexivity.
  - destruct (step cs line) as [[r cs1]|e] eqn:Hstep; rsimpl; [|discriminate].
    destruct (parse_records step rest cs1) as [[hits1 cs2]|e] eqn:Hrest; rsimpl;
      [|discriminate].
    injection Hparse as <- <-.
    destruct (flush_turn sample_name c recs rows db Ht Hc) as (rows1 & recs1 & Hflush & Hkeep).
    rewrite db_bind_unfold, Hflush. cbv beta iota.
    rewrite db_bind_unfold. unfold db_lift. cbv beta iota.
    set (db1 := set_tables (<[sample_name := rows1]> (tables db)) (indexes db) db).
    assert (Ht1 : tables db1 !! sample_name = Some rows1) by apply lookup_insert_eq.
    assert (Hfold : forall rows', set_tables (<[sample_name := rows']> (tables db1))
                                    (indexes db1) db1
                                  = set_tables (<[sample_name := rows']> (tables db))
                                      (indexes db) db).
    { intros rows'. unfold db1, set_tables. simpl. rewrite insert_insert_eq. reflexivity. }
    destruct r as [h|].
    + destruct (IH (len recs1 + 1) (recs1 ++ [h]) cs1 db1 rows1 hits1 cs2 Ht1)
        as (rows' & recs' & Hloop & Hrows); [unfold len; rewrite length_app; simpl; lia|done|].
      exists rows', recs'. rewrite Hloop, Hfold. split; [reflexivity|].
      rewrite Hrows, <- !app_assoc, !app_assoc, Hkeep, <- !app_assoc. reflexivity.
    + destruct (IH (len recs1) recs1 cs1 db1 rows1 hits1 cs2 Ht1)
        as (rows' & recs' & Hloop & Hrows); [done|done|].
      exists rows', recs'. rewrite Hloop, Hfold. split; [reflexivity|].
      rewrite Hrows, !app_assoc, Hkeep. reflexivity.
Qed.

Lemma length_append (s t : string) :
  String.length (s +:+ t) = (String.length s + String.length t)%nat.
Proof. induction s as [|c s IH]; simpl; [reflexivity|]. rewrite IH. reflexivity. Qed.

Lemma index_name_differs (t : string) : t <> t +:+ "_index".
Proof.
  intros Heq. apply (f_equal String.length) in Heq.
  rewrite length_append in Heq. simpl in Heq. lia.
Qed.

(** Every record of the file is in the table after the ingestion,
    after the rows that were there, whatever the batches. *)
Lemma ingest_ok {L : Type}
    (step : list string -> L -> result (option hit * list string))
    (sample_name : string) (input_reads : list L) (db : database)
    (rows hits : list hit) (contigs : list string) :
  tables db !! sample_name = Some rows ->
  tables db !! (sample_name +:+ "_index") = None ->
  indexes db !! (sample_name +:+ "_index") = None ->
  parse_records step input_reads [] = Ok (hits, contigs) ->
  ingest step sample_name input_reads db
  = (set_tables (<[sample_name := rows ++ hits]> (tables db))
       (<[sample_name +:+ "_index" := sample_name]> (indexes db)) db,
     Ok contigs).
Proof.
  intros Ht Hti Hi Hparse. unfold ingest.
  destruct (ingest_loop_ok step sample_name input_reads 0 [] [] db rows hits contigs Ht
              eq_refl Hparse) as (rows' & recs' & Hloop & Hrows).
  rewrite db_bind_unfold, Hloop. cbv beta iota. simpl in Hrows.
  set (db1 := set_tables (<[sample_name := rows']> (tables db)) (indexes db) db).
  assert (Ht1 : tables db1 !! sample_name = Some rows') by apply lookup_insert_eq.
  assert (Hflush : (if 0 <? len recs' then insert_hits sample_name recs' else mret tt) db1
                   = (set_tables (<[sample_name := rows ++ hits]> (tables db)) (indexes db) db,
                      Ok tt)).
  { destruct (Z.ltb_spec 0 (len recs')) as [Hpos|Hzero].
    - rewrite (insert_hits_ok _ _ rows') by done. unfold db1, set_tables. simpl.
      rewrite insert_insert_eq, Hrows. reflexivity.
    - assert (recs' = []) as -> by (destruct recs'; [done|unfold len in Hzero; simpl in Hzero; lia]).
      rewrite app_nil_r in Hrows. subst rows'. reflexivity. }
  rewrite db_bind_unfold, Hflush, db_bind_unfold.
  unfold create_index. cbn [tables indexes set_tables].
  rewrite lookup_insert_eq.
  rewrite lookup_insert_ne by apply index_name_differs.
  rewrite Hti, Hi. rewrite db_ret_unfold. reflexivity.
Qed.

Lemma save_reads_mapped_ok (fs : filesystem) (mapping_file sample_name map_format : string)
    (contig_mag_corresp : gmap string catalog_entry) (db : database)
    (rows hits : list hit) (contigs : list string) :
  tables db !! sample_name = Some rows ->
  tables db !! (sample_name +:+ "_index") = None ->
  indexes db !! (sample_name +:+ "_index") = None ->
  parse_file fs mapping_file map_format contig_mag_corresp = Ok (hits, contigs) ->
  save_reads_mapped fs mapping_file sample_name map_format contig_mag_corresp db
  = (set_tables (<[sample_name := rows ++ hits]> (tables db))
       (<[sample_name +:+ "_index" := sample_name]> (indexes db)) db,
     Ok contigs).
Proof.
  intros Ht Hti Hi. unfold parse_file, save_reads_mapped, open_text, open_bam.
  destruct (String.eqb map_format "blast"); [|destruct (String.eqb map_format "sam");
    [|destruct (String.eqb map_format "bam"); [|discriminate]]].
  - destruct (text_files fs !! mapping_file) as [lines|]; [|discriminate].
    intros Hparse. rewrite db_bind_unfold, db_ret_unfold. eapply ingest_ok; eauto.
  - destruct (text_files fs !! mapping_file) as [lines|]; [|discriminate].
    intros Hparse. rewrite db_bind_unfold, db_ret_unfold. eapply ingest_ok; eauto.
  - destruct (bam_files fs !! mapping_file) as [entries|]; [|discriminate].
    intros Hparse. rewrite db_bind_unfold, db_ret_unfold. eapply ingest_ok; eauto.
Qed.

(** ** Tabular records *)

(** X24: on the dictionary that [add_sample] builds, a tabular line
    that is not a comment and whose target contig (column 2) is in the
    catalog gives one hit, with the ids of the catalog entry, the
    identity of column 3, and the minimum and the maximum of columns 9
    and 10 as start and stop, and this hit is what the ingestion of the
    line stores; a line whose target is not in the catalog gives no hit
    and no error. *)
Theorem blast_line_one_hit (cmc : gmap string catalog_entry)
    (contigs_in_sample : list string) (line contig_ref : string) :
  startswith line "#" = false ->
  py_getitem (split_on tab line) 1 = Ok contig_ref ->
  match cmc !! contig_ref with
  | None =>
      blast_line cmc contigs_in_sample line = Ok (None, contigs_in_sample) /\
      parse_records (blast_line cmc) [line] [] = Ok ([], [])
  | Some e =>
      forall f2 f8 f9 pct_id pos1 pos2,
        py_getitem (split_on tab line) 2 = Ok f2 -> py_float f2 = Ok pct_id ->
        py_getitem (split_on tab line) 8 = Ok f8 -> py_int f8 = Ok pos1 ->
        py_getitem (split_on tab line) 9 = Ok f9 -> py_int f9 = Ok pos2 ->
        let h := Hit e.1.2 e.2 pct_id (Z.min pos1 pos2) (Z.max pos1 pos2) in
        blast_line cmc contigs_in_sample line
          = Ok (Some h, append_new contigs_in_sample contig_ref) /\
        h_start h <= h_stop h /\
        parse_records (blast_line cmc) [line] [] = Ok ([h], [contig_ref]) /\
        forall sample_name db rows,
          tables db !! sample_name = Some rows ->
          tables db !! (sample_name +:+ "_index") = None ->
          indexes db !! (sample_name +:+ "_index") = None ->
          tables (ingest (blast_line cmc) sample_name [line] db).1 !! sample_name
            = Some (rows ++ [h])
  end.
Proof.
  intros Hcomment Hcol2.
  assert (Hline : forall cs, blast_line cmc cs line =
    match cmc !! contig_ref with
    | None => Ok (None, cs)
    | Some e =>
        f2 ← py_getitem (split_on tab line) 2; pct_id ← py_float f2;
        f8 ← py_getitem (split_on tab line) 8; pos1 ← py_int f8;
        f9 ← py_getitem (split_on tab line) 9; pos2 ← py_int f9;
        Ok (Some (Hit e.1.2 e.2 pct_id (Z.min pos1 pos2)
                    (Z.min pos1 pos2 + (Z.max pos1 pos2 - Z.min pos1 pos2))),
            append_new cs contig_ref)
    end).
  { intros cs. unfold blast_line. rewrite Hcomment, Hcol2. rsimpl. reflexivity. }
  destruct (cmc !! contig_ref) as [e|] eqn:He.
  - intros f2 f8 f9 pct_id pos1 pos2 H2 Hpct H8 Hp1 H9 Hp2 h.
    assert (Hh : forall cs, blast_line cmc cs line = Ok (Some h, append_new cs contig_ref)).
    { intros cs. rewrite Hline, H2. rsimpl. rewrite Hpct. rsimpl. rewrite H8. rsimpl.
      rewrite Hp1. rsimpl. rewrite H9. rsimpl. rewrite Hp2. rsimpl.
      unfold h. repeat f_equal. lia. }
    assert (Hparse : parse_records (blast_line cmc) [line] [] = Ok ([h], [contig_ref])).
    { cbn [parse_records]. rewrite Hh. reflexivity. }
    split; [apply Hh|]. split; [simpl; lia|]. split; [exact Hparse|].
    intros sample_name db rows Ht Hti Hi.
    rewrite (ingest_ok _ _ _ _ rows [h] [contig_ref] Ht Hti Hi Hparse).
    cbn [fst tables set_tables]. apply lookup_insert_eq.
  - split; [apply Hline|]. cbn [parse_records]. rewrite Hline. reflexivity.
Qed.

Lemma blast_line_one_hit_witness :
  blast_line demo_catalog [] blast_ctgA = Ok (Some (Hit 1 1 (985 # 10) 100 150), ["ctgA"]) /\
  blast_line demo_catalog [] blast_unlisted = Ok (None, []).
Proof.
  split.
  - apply (blast_line_one_hit demo_catalog [] blast_ctgA "ctgA" eq_refl eq_refl
             "98.5" "100" "150" (985 # 10) 100 150); reflexivity.
  - apply (blast_line_one_hit demo_catalog [] blast_unlisted "ctgX" eq_refl eq_refl).
Defined.

(** The turns on hits are the turns on tuples at the dictionary of
    [add_sample]. *)
Lemma corresp_getitem_list (e : catalog_entry) :
  corresp_getitem (CorrespList e) 1 = Ok (FieldInt e.1.2) /\
  corresp_getitem (CorrespList e) 2 = Ok (FieldInt e.2).
Proof. split; reflexivity. Qed.

Lemma blast_turn_lists (cmc : gmap string catalog_entry) (contigs_in_sample : list string)
    (line : string) :
  blast_turn (CorrespList <$> cmc) contigs_in_sample line
  = raw_turn (blast_line cmc contigs_in_sample line).
Proof.
  unfold blast_turn, blast_line. destruct (startswith line "#"); [reflexivity|].
  cbv zeta. destruct (py_getitem (split_on tab line) 1) as [contig_ref|]; rsimpl;
    [|reflexivity].
  rewrite lookup_fmap. destruct (cmc !! contig_ref) as [e|]; [|reflexivity]. cbn [fmap option_fmap option_map].
  destruct (py_getitem (split_on tab line) 2) as [f2|]; rsimpl; [|reflexivity].
  destruct (py_float f2) as [pct_id|]; rsimpl; [|reflexivity].
  destruct (py_getitem (split_on tab line) 8) as [f8|]; rsimpl; [|reflexivity].
  destruct (py_int f8) as [pos1|]; rsimpl; [|reflexivity].
  destruct (py_getitem (split_on tab line) 9) as [f9|]; rsimpl; [|reflexivity].
  destruct (py_int f9) as [pos2|]; rsimpl; [|reflexivity].
  reflexivity.
Qed.

Lemma mdz_record_list (e : catalog_entry) (segment : list string) (mdz_seg : string) :
  mdz_record (CorrespList e) segment mdz_seg
  = match mdz_hit e segment mdz_seg with
    | Ok h => Ok (raw_of_hit h)
    | Raise x => Raise x
    end.
Proof.
  unfold mdz_record, mdz_hit. destruct (mdz_counts mdz_seg) as [sum total_count].
  destruct (pct_identity sum total_count) as [pct_id|]; rsimpl; [|reflexivity].
  destruct (py_getitem segment 3) as [f3|]; rsimpl; [|reflexivity].
  destruct (py_int f3) as [start|]; rsimpl; reflexivity.
Qed.

Lemma sam_turn_lists (cmc : gmap string catalog_entry) (contigs_in_sample : list string)
    (line : string) :
  sam_turn (CorrespList <$> cmc) contigs_in_sample line
  = raw_turn (sam_line cmc contigs_in_sample line).
Proof.
  unfold sam_turn, sam_line. destruct (negb (contains "MD:Z:" line)); [reflexivity|].
  cbv zeta. destruct (py_getitem (py_split line) 2) as [contig_ref|]; rsimpl; [|reflexivity].
  rewrite lookup_fmap. destruct (cmc !! contig_ref) as [e|]; [|reflexivity].
  cbn [fmap option_fmap option_map].
  destruct (find_mdz _ _ _) as [mdz_seg|]; rsimpl; [|reflexivity].
  rewrite mdz_record_list. destruct (mdz_hit _ _ _); rsimpl; reflexivity.
Qed.

Lemma bam_turn_lists (cmc : gmap string catalog_entry) (contigs_in_sample : list string)
    (entry : bam_entry) :
  bam_turn (CorrespList <$> cmc) contigs_in_sample entry
  = raw_turn (bam_record cmc contigs_in_sample entry).
Proof.
  unfold bam_turn, bam_record. cbv zeta.
  destruct (negb (contains "MD:Z:" (bam_to_string entry))); [reflexivity|].
  destruct (py_getitem (py_split (bam_to_string entry)) 2) as [contig_ref|]; rsimpl;
    [|reflexivity].
  rewrite lookup_fmap. destruct (cmc !! contig_ref) as [e|]; [|reflexivity].
  cbn [fmap option_fmap option_map].
  destruct (bam_md entry) as [mdz_seg|]; rsimpl; [|reflexivity].
  rewrite mdz_record_list. destruct (mdz_hit _ _ _); rsimpl; reflexivity.
Qed.

Lemma corresp_getitem_name (mag_name : string) :
  match list_ascii_of_string mag_name with
  | _ :: c1 :: c2 :: _ =>
      corresp_getitem (CorrespName mag_name) 1 = Ok (FieldStr (String c1 EmptyString)) /\
      corresp_getitem (CorrespName mag_name) 2 = Ok (FieldStr (String c2 EmptyString))
  | _ =>
      corresp_getitem (CorrespName mag_name) 1 = Raise IndexError \/
      (exists f, corresp_getitem (CorrespName mag_name) 1 = Ok f) /\
      corresp_getitem (CorrespName mag_name) 2 = Raise IndexError
  end.
Proof.
  unfold corresp_getitem.
  destruct (list_ascii_of_string mag_name) as [|c0 [|c1 [|c2 rest]]].
  - left. reflexivity.
  - left. reflexivity.
  - right. split; [eexists; reflexivity|reflexivity].
  - split.
    + rewrite (py_getitem_nth _ 1 c0) by (unfold len; simpl length; lia). reflexivity.
    + rewrite (py_getitem_nth _ 2 c0) by (unfold len; simpl length; lia). reflexivity.
Qed.

Lemma corresp_getitem_name_str (mag_name : string) (i z : Z) :
  corresp_getitem (CorrespName mag_name) i <> Ok (FieldInt z).
Proof.
  unfold corresp_getitem. destruct (py_getitem _ i); rsimpl; discriminate.
Qed.

(** C9, on the code: the ids of a tabular hit come from the catalog
    only when the parser is called by [add_sample].  [sqldb_creation],
    the one path that ingests the initial samples, passes the dictionary
    of [get_mags], whose values are MAG names: for a line that is not a
    comment, whose target contig is in that dictionary and whose columns
    3, 9 and 10 convert, the tuple that is appended carries as [mag_id]
    and [contig_id] the second and the third character of the MAG name,
    never an integer id, and the turn raises [IndexError] when the name
    has fewer than three characters.  For the line
    [q1 ctgA 98.5 ... 100 150 ...] with [ctgA] in [mag1], whose catalog
    row is [(mag1, 1, ctgA, 1)], the tuple is [('a', 'g', 98.5, 100, 150)];
    through the dictionary of [add_sample] it is [(1, 1, 98.5, 100, 150)]. *)
Theorem initial_ingestion_ids_from_mag_name
    (contig_mag_corresp : list (string * string)) (contigs_in_sample : list string)
    (line contig_ref mag_name f2 f8 f9 : string) (pct_id : Q) (pos1 pos2 : Z) :
  startswith line "#" = false ->
  py_getitem (split_on tab line) 1 = Ok contig_ref ->
  sqldb_creation_corresp contig_mag_corresp !! contig_ref = Some (CorrespName mag_name) ->
  py_getitem (split_on tab line) 2 = Ok f2 -> py_float f2 = Ok pct_id ->
  py_getitem (split_on tab line) 8 = Ok f8 -> py_int f8 = Ok pos1 ->
  py_getitem (split_on tab line) 9 = Ok f9 -> py_int f9 = Ok pos2 ->
  blast_turn (sqldb_creation_corresp contig_mag_corresp) contigs_in_sample line
    = match list_ascii_of_string mag_name with
      | _ :: c1 :: c2 :: _ =>
          Ok (Some (RawRecord (FieldStr (String c1 EmptyString))
                      (FieldStr (String c2 EmptyString)) pct_id
                      (Z.min pos1 pos2) (Z.max pos1 pos2)),
              append_new contigs_in_sample contig_ref)
      | _ => Raise IndexError
      end /\
  (forall r contigs z,
      blast_turn (sqldb_creation_corresp contig_mag_corresp) contigs_in_sample line
        = Ok (Some r, contigs) ->
      rr_mag_id r <> FieldInt z /\ rr_contig_id r <> FieldInt z) /\
  (forall k v,
      sqldb_creation_corresp contig_mag_corresp !! k = Some v ->
      exists name, v = CorrespName name /\ In (k, name) contig_mag_corresp) /\
  (get_mags membership_ctgA = Ok [("ctgA", "mag1")] /\
   lookup_table (sqldb_creation_catalog [("ctgA", 2350)] [("ctgA", "mag1")] ["a.blast"]
                   empty_db).1 = [("mag1", 1, "ctgA", 1)] /\
   blast_turn (sqldb_creation_corresp [("ctgA", "mag1")]) [] blast_ctgA
     = Ok (Some (RawRecord (FieldStr "a") (FieldStr "g") (985 # 10) 100 150), ["ctgA"]) /\
   blast_turn (add_sample_corresp [("mag1", 1, "ctgA", 1)]) [] blast_ctgA
     = Ok (Some (RawRecord (FieldInt 1) (FieldInt 1) (985 # 10) 100 150), ["ctgA"]) /\
   blast_turn (sqldb_creation_corresp [("ctgA", "m1")]) [] blast_ctgA = Raise IndexError).
Proof.
  intros Hcomment Hcol2 Hv H2 Hpct H8 Hp1 H9 Hp2.
  assert (Hturn : blast_turn (sqldb_creation_corresp contig_mag_corresp) contigs_in_sample line
    = (mag_id ← corresp_getitem (CorrespName mag_name) 1;
       contig_id ← corresp_getitem (CorrespName mag_name) 2;
       Ok (Some (RawRecord mag_id contig_id pct_id (Z.min pos1 pos2) (Z.max pos1 pos2)),
           append_new contigs_in_sample contig_ref))).
  { unfold blast_turn. rewrite Hcomment, Hcol2. rsimpl. rewrite Hv. cbv zeta.
    rewrite H2. rsimpl. rewrite Hpct. rsimpl. rewrite H8. rsimpl. rewrite Hp1. rsimpl.
    rewrite H9. rsimpl. rewrite Hp2. rsimpl.
    replace (Z.min pos1 pos2 + (Z.max pos1 pos2 - Z.min pos1 pos2)) with (Z.max pos1 pos2)
      by lia. reflexivity. }
  split; [|split; [|split]].
  - rewrite Hturn. pose proof (corresp_getitem_name mag_name) as Hname.
    destruct (list_ascii_of_string mag_name) as [|c0 [|c1 [|c2 rest]]].
    + destruct Hname as [-> | [[f ->] ->]]; reflexivity.
    + destruct Hname as [-> | [[f ->] ->]]; reflexivity.
    + destruct Hname as [-> | [[f ->] ->]]; reflexivity.
    + destruct Hname as [-> ->]. reflexivity.
  - intros r contigs z. rewrite Hturn.
    destruct (corresp_getitem (CorrespName mag_name) 1) as [m|] eqn:Hm; rsimpl;
      [|discriminate].
    destruct (corresp_getitem (CorrespName mag_name) 2) as [c|] eqn:Hc; rsimpl;
      [|discriminate].
    intros [= <- _]. cbn [rr_mag_id rr_contig_id]. split; intros ->.
    + exact (corresp_getitem_name_str _ _ _ Hm).
    + exact (corresp_getitem_name_str _ _ _ Hc).
  - intros k v. unfold sqldb_creation_corresp. rewrite lookup_fmap.
    destruct (list_to_map contig_mag_corresp !! k) as [name|] eqn:Hk; [|discriminate].
    intros [= <-]. exists name. split; [reflexivity|].
    apply list_elem_of_In. apply (elem_of_list_to_map_2 (M := gmap string)). exact Hk.
  - repeat split; vm_compute; reflexivity.
Qed.

Lemma initial_ingestion_ids_from_mag_name_witness :
  blast_turn (sqldb_creation_corresp [("ctgA", "mag1")]) [] blast_ctgA
  = Ok (Some (RawRecord (FieldStr "a") (FieldStr "g") (985 # 10) 100 150), ["ctgA"]).
Proof.
  apply (initial_ingestion_ids_from_mag_name [("ctgA", "mag1")] [] blast_ctgA "ctgA" "mag1"
           "98.5" "100" "150" (985 # 10) 100 150); reflexivity.
Defined.

(** ** Tagged records *)

Lemma mdz_total (mdz_seg : string) :
  (mdz_counts mdz_seg).2 = (mdz_counts mdz_seg).1 + count_nondigits mdz_seg.
Proof. unfold mdz_counts. simpl. lia. Qed.

Lemma mdz_hit_ok (e : catalog_entry) (segment : list string) (mdz_seg : string) (h : hit) :
  mdz_hit e segment mdz_seg = Ok h ->
  exists f3 start,
    py_getitem segment 3 = Ok f3 /\ py_int f3 = Ok start /\
    (mdz_counts mdz_seg).2 <> 0 /\
    h = Hit e.1.2 e.2
          ((inject_Z (mdz_counts mdz_seg).1 / inject_Z (mdz_counts mdz_seg).2) * 100)%Q
          start (start + (mdz_counts mdz_seg).2 - 1).
Proof.
  unfold mdz_hit, pct_identity. destruct (mdz_counts mdz_seg) as [sum total]. cbn [fst snd].
  destruct (Z.eqb_spec total 0) as [|Hne]; rsimpl; [discriminate|].
  destruct (py_getitem segment 3) as [f3|] eqn:H3; rsimpl; [|discriminate].
  destruct (py_int f3) as [start|] eqn:Hint; rsimpl; [|discriminate].
  intros [= <-]. exists f3, start. repeat split; auto.
Qed.

Lemma pct_identity_value (sum total : Z) :
  total <> 0 ->
  ((inject_Z sum / inject_Z total) * 100 == 100 * inject_Z sum / inject_Z total)%Q.
Proof.
  intros Hne. field. intros H0. apply Hne.
  apply (inject_Z_injective total 0). exact H0.
Qed.

(** C4: a tagged-text record that is retained names a contig of the
    catalog in its third field, its tag is the last field with the
    prefix MD:Z: (the scan runs from the end of the record), and with
    matches the sum of the digit runs of the tag value and mismatches
    the number of its other characters the hit has identity
    100 * matches / (matches + mismatches), the start of the fourth
    field and the stop start + matches + mismatches - 1.  The value
    10A5 gives 15 matches, 1 mismatch and the identity 93.75. *)
Theorem sam_record_identity_and_span (cmc : gmap string catalog_entry)
    (contigs_in_sample : list string) (line : string) (h : hit) (contigs : list string) :
  sam_line cmc contigs_in_sample line = Ok (Some h, contigs) ->
  (exists contig_ref e field f3 start,
     let value := str_drop 5 field in
     let matches := (mdz_counts value).1 in
     let mismatches := count_nondigits value in
     py_getitem (py_split line) 2 = Ok contig_ref /\ cmc !! contig_ref = Some e /\
     last_mdz_field (py_split line) = Some field /\
     py_getitem (py_split line) 3 = Ok f3 /\ py_int f3 = Ok start /\
     matches + mismatches <> 0 /\
     h_mag_id h = e.1.2 /\ h_contig_id h = e.2 /\
     (h_identity h == 100 * inject_Z matches / inject_Z (matches + mismatches))%Q /\
     h_start h = start /\
     h_stop h = start + matches + mismatches - 1) /\
  ((mdz_counts "10A5").1 = 15 /\ count_nondigits "10A5" = 1 /\
   exists q, pct_identity 15 (15 + 1) = Ok q /\ (q == 9375 # 100)%Q).
Proof.
  intros Hline. split.
  - unfold sam_line in Hline.
    destruct (contains "MD:Z:" line); cbn [negb] in Hline; [|discriminate].
    destruct (py_getitem (py_split line) 2) as [contig_ref|] eqn:H2; rsimpl; [|discriminate].
    destruct (cmc !! contig_ref) as [e|] eqn:He; [|discriminate].
    rewrite find_mdz_last in Hline.
    destruct (last_mdz_field (py_split line)) as [field|] eqn:Hfield; rsimpl; [|discriminate].
    destruct (mdz_hit e (py_split line) (str_drop 5 field)) as [h'|] eqn:Hhit; rsimpl;
      [|discriminate].
    injection Hline as <- _.
    destruct (mdz_hit_ok _ _ _ _ Hhit) as (f3 & start & H3 & Hint & Hne & ->).
    rewrite mdz_total in Hne.
    exists contig_ref, e, field, f3, start. cbv zeta. cbn [h_mag_id h_contig_id h_identity
      h_start h_stop]. repeat split; auto.
    + rewrite mdz_total. apply pct_identity_value. rewrite mdz_total in *. exact Hne.
    + rewrite mdz_total. lia.
  - split; [reflexivity|]. split; [reflexivity|].
    eexists. split; [reflexivity|]. reflexivity.
Qed.

Lemma sam_record_identity_and_span_witness :
  sam_line demo_catalog [] sam_10A5
    = Ok (Some (Hit 1 1 (inject_Z 15 / inject_Z 16 * 100) 100 115), ["ctgA"]) /\
  exists start matches mismatches,
    h_start (Hit 1 1 (inject_Z 15 / inject_Z 16 * 100) 100 115) = start /\
    h_stop (Hit 1 1 (inject_Z 15 / inject_Z 16 * 100) 100 115)
      = start + matches + mismatches - 1.
Proof.
  assert (Hline : sam_line demo_catalog [] sam_10A5
    = Ok (Some (Hit 1 1 (inject_Z 15 / inject_Z 16 * 100) 100 115), ["ctgA"]))
    by (vm_compute; reflexivity).
  split; [exact Hline|].
  destruct (sam_record_identity_and_span demo_catalog [] sam_10A5 _ _ Hline)
    as [(contig_ref & e & field & f3 & start & _ & _ & _ & _ & _ & _ & _ & _ & _ & Hs & Hstop) _].
  eexists start, _, _. split; [exact Hs|exact Hstop].
Defined.

Lemma mdz_hit_zero (e : catalog_entry) (segment : list string) (mdz_seg : string) :
  (mdz_counts mdz_seg).1 + count_nondigits mdz_seg = 0 ->
  mdz_hit e segment mdz_seg = Raise ZeroDivisionError.
Proof.
  intros Hzero. rewrite <- mdz_total in Hzero. unfold mdz_hit, pct_identity.
  destruct (mdz_counts mdz_seg) as [sum total]. cbn [snd] in Hzero. subst total.
  reflexivity.
Qed.

(** C3, as the code has it: a tagged-text or binary record that
    carries the tag, names a contig of the catalog and whose tag value
    has matches + mismatches = 0 raises [ZeroDivisionError]; the
    exception is not handled, so the ingestion of a file that holds
    such a record never completes, and when the record is the first of
    the file nothing at all is stored. *)
Theorem zero_length_tag_raises (cmc : gmap string catalog_entry) (line contig_ref : string)
    (e : catalog_entry) :
  contains "MD:Z:" line = true ->
  py_getitem (py_split line) 2 = Ok contig_ref ->
  cmc !! contig_ref = Some e ->
  (forall field,
     last_mdz_field (py_split line) = Some field ->
     (mdz_counts (str_drop 5 field)).1 + count_nondigits (str_drop 5 field) = 0 ->
     (forall contigs_in_sample, sam_line cmc contigs_in_sample line = Raise ZeroDivisionError) /\
     (forall sample_name post db,
        ingest (sam_line cmc) sample_name (line :: post) db = (db, Raise ZeroDivisionError)) /\
     (forall sample_name pre post db, exists db' e',
        ingest (sam_line cmc) sample_name (pre ++ line :: post) db = (db', Raise e'))) /\
  (forall value,
     (mdz_counts value).1 + count_nondigits value = 0 ->
     let entry := BamEntry line (Some value) in
     (forall contigs_in_sample,
        bam_record cmc contigs_in_sample entry = Raise ZeroDivisionError) /\
     (forall sample_name post db,
        ingest (bam_record cmc) sample_name (entry :: post) db
        = (db, Raise ZeroDivisionError)) /\
     (forall sample_name pre post db, exists db' e',
        ingest (bam_record cmc) sample_name (pre ++ entry :: post) db = (db', Raise e'))).
Proof.
  intros Htag H2 He. split.
  - intros field Hfield Hzero.
    assert (Hline : forall cs, sam_line cmc cs line = Raise ZeroDivisionError).
    { intros cs. unfold sam_line. rewrite Htag, H2. cbn [negb]. rsimpl. rewrite He.
      rewrite find_mdz_last, Hfield. rsimpl. rewrite (mdz_hit_zero _ _ _ Hzero). reflexivity. }
    split; [exact Hline|]. split.
    + intros. apply ingest_raises_first, Hline.
    + intros. eapply ingest_raises, Hline.
  - intros value Hzero entry.
    assert (Hrec : forall cs, bam_record cmc cs entry = Raise ZeroDivisionError).
    { intros cs. unfold bam_record, entry. cbn [bam_to_string bam_md].
      rewrite Htag, H2. cbn [negb]. rsimpl. rewrite He. rsimpl.
      rewrite (mdz_hit_zero _ _ _ Hzero). reflexivity. }
    split; [exact Hrec|]. split.
    + intros. apply ingest_raises_first, Hrec.
    + intros. eapply ingest_raises, Hrec.
Qed.

Lemma zero_length_tag_raises_witness :
  sam_line demo_catalog [] sam_empty_tag = Raise ZeroDivisionError /\
  bam_record demo_catalog [] (BamEntry sam_empty_tag (Some "")) = Raise ZeroDivisionError.
Proof.
  destruct (zero_length_tag_raises demo_catalog sam_empty_tag "ctgA" ("mag1", 1, 1)
              eq_refl eq_refl eq_refl) as [Hsam Hbam].
  split.
  - apply (Hsam "MD:Z:" eq_refl eq_refl).
  - apply (Hbam "" eq_refl).
Defined.

(** The claim C3 fails on the code: the record with the empty tag
    value is not skipped, the division raises, and the file is not
    ingested any further; the valid record after it is never stored. *)
Lemma empty_tag_record_raises_division_error :
  sam_line demo_catalog [] sam_empty_tag = Raise ZeroDivisionError /\
  bam_record demo_catalog [] (BamEntry sam_empty_tag (Some "")) = Raise ZeroDivisionError /\
  text_files demo_fs !! "reads.sam" = Some [sam_empty_tag; sam_10A5] /\
  is_ok (sam_line demo_catalog [] sam_10A5) = true /\
  save_reads_mapped demo_fs "reads.sam" "sample_1" "sam" demo_catalog demo_db
  = (demo_db, Raise ZeroDivisionError).
Proof. vm_compute. repeat split; reflexivity. Qed.

(** ** Re-ingestion of a sample *)

Lemma samples_dict_other (rows : list (string * string * Z)) (name : string) :
  forall d : gmap string string, ~ In name (map (fun r => r.1.1) rows) ->
            fold_left (fun d sample => <[sample.1.1 := sample.1.2]> d) rows d !! name
            = d !! name.
Proof.
  induction rows as [|r rows IH]; intros d Hnot; simpl; [reflexivity|].
  rewrite IH by (intros Hin; apply Hnot; right; exact Hin).
  apply lookup_insert_ne. intros Heq. apply Hnot. left. exact Heq.
Qed.

(** With one row per sample name, [samples_dict] maps the name of a
    row to its sample id. *)
Lemma samples_dict_row (rows : list (string * string * Z)) (name sample_id : string) (n : Z) :
  List.NoDup (map (fun r => r.1.1) rows) -> In (name, sample_id, n) rows ->
  samples_dict_of rows !! name = Some sample_id.
Proof.
  unfold samples_dict_of. generalize (∅ : gmap string string).
  induction rows as [|r rows IH]; intros d Hnd Hin; [destruct Hin|].
  simpl in Hnd. apply NoDup_cons_iff in Hnd as [Hfresh Hnd]. destruct Hin as [->|Hin].
  - simpl. rewrite samples_dict_other by exact Hfresh. apply lookup_insert_eq.
  - simpl. apply IH; assumption.
Qed.

Lemma filter_negb_same {A : Type} (p : A -> bool) (l : list A) :
  List.filter p (List.filter (fun x => negb (p x)) l) = [].
Proof.
  induction l as [|x l IH]; simpl; [reflexivity|].
  destruct (p x) eqn:Hp; simpl; [exact IH|]. rewrite Hp. exact IH.
Qed.

Lemma filter_twice {A : Type} (p : A -> bool) (l : list A) :
  List.filter p (List.filter p l) = List.filter p l.
Proof.
  induction l as [|x l IH]; simpl; [reflexivity|].
  destruct (p x) eqn:Hp; simpl; [rewrite Hp, IH; reflexivity|exact IH].
Qed.

Lemma filter_all {A : Type} (p : A -> bool) (l : list A) :
  (forall x, In x l -> p x = true) -> List.filter p l = l.
Proof.
  induction l as [|x l IH]; intros Hall; simpl; [reflexivity|].
  rewrite (Hall x) by (left; reflexivity). f_equal. apply IH.
  intros y Hy. apply Hall. right. exact Hy.
Qed.

Lemma filter_none {A : Type} (p : A -> bool) (l : list A) :
  (forall x, In x l -> p x = false) -> List.filter p l = [].
Proof.
  induction l as [|x l IH]; intros Hall; simpl; [reflexivity|].
  rewrite (Hall x) by (left; reflexivity). apply IH.
  intros y Hy. apply Hall. right. exact Hy.
Qed.

(** C8: adding a file under a source name that the store already has
    keeps the sample id and the rows of [sample_info], leaves in the
    table of the sample exactly the hits of the new file, replaces the
    membership rows of the sample by the recomputed ones, and changes
    no other table and no membership row of another sample. *)
Theorem reingest_replaces_sample (fs : filesystem) (map_format new_sample sample_id : string)
    (n : Z) (db : database) (hits : list hit) (contigs : list string) :
  List.NoDup (map (fun r => r.1.1) (sample_info db)) ->
  In (new_sample, sample_id, n) (sample_info db) ->
  index_names_free db sample_id ->
  parse_file fs new_sample map_format (contig_mag_corresp_of (lookup_table db))
    = Ok (hits, contigs) ->
  let r := add_sample fs [new_sample] map_format db in
  r.2 = Ok tt /\
  sample_info r.1 = sample_info db /\
  lookup_table r.1 = lookup_table db /\
  mag_info r.1 = mag_info db /\
  tables r.1 !! sample_id = Some hits /\
  (forall t, t <> sample_id -> tables r.1 !! t = tables db !! t) /\
  List.filter (fun row => String.eqb row.1 new_sample) (mags_per_sample r.1)
    = map (pair new_sample) (mags_in_sample_of (lookup_table db) contigs) /\
  List.filter (fun row => negb (String.eqb row.1 new_sample)) (mags_per_sample r.1)
    = List.filter (fun row => negb (String.eqb row.1 new_sample)) (mags_per_sample db).
Proof.
  intros Hnd Hrow (Hti & Hi & Hidx) Hparse.
  pose proof (samples_dict_row _ _ _ _ Hnd Hrow) as Hdict.
  set (cmc := contig_mag_corresp_of (lookup_table db)) in *.
  set (db1 := set_tables (delete sample_id (tables db))
                (filter (fun kv => kv.2 <> sample_id) (indexes db)) db).
  set (db2 := set_tables (<[sample_id := []]> (tables db1)) (indexes db1) db1).
  set (db3 := set_mags_per_sample
                (List.filter (fun r => negb (String.eqb r.1 new_sample)) (mags_per_sample db2))
                db2).
  set (db4 := set_tables (<[sample_id := [] ++ hits]> (tables db3))
                (<[sample_id +:+ "_index" := sample_id]> (indexes db3)) db3).
  set (mags := mags_in_sample_of (lookup_table db) contigs).
  set (db5 := set_mags_per_sample (mags_per_sample db4 ++ map (pair new_sample) mags) db4).
  assert (Hcreate : create_table sample_id db1 = (db2, Ok tt)).
  { unfold create_table. cbn [tables indexes db1 set_tables].
    rewrite lookup_delete_eq.
    rewrite (proj2 (map_lookup_filter_None _ _ _)) by (left; exact Hi). reflexivity. }
  assert (Hsave : save_reads_mapped fs new_sample sample_id map_format cmc db3
                  = (db4, Ok contigs)).
  { apply save_reads_mapped_ok; [| | |exact Hparse].
    - cbn [tables db3 db2 set_mags_per_sample set_tables]. apply lookup_insert_eq.
    - cbn [tables db3 db2 db1 set_mags_per_sample set_tables].
      rewrite lookup_insert_ne by apply index_name_differs.
      rewrite lookup_delete_ne by apply index_name_differs. exact Hti.
    - cbn [indexes db3 db2 db1 set_mags_per_sample set_tables].
      apply map_lookup_filter_None. right. intros t Ht. simpl.
      rewrite (Hidx t Ht). auto. }
  assert (Hrun : add_sample fs [new_sample] map_format db = (db5, Ok tt)).
  { unfold add_sample. rewrite db_bind_unfold. unfold db_get at 1. cbv beta iota zeta.
    fold cmc. cbn [add_sample_loop]. rewrite Hdict.
    rewrite db_bind_unfold. rewrite db_bind_unfold.
    change (drop_table_if_exists sample_id db) with (db1, Ok tt). cbv beta iota.
    rewrite db_bind_unfold, Hcreate. cbv beta iota.
    rewrite db_bind_unfold.
    change (delete_mags_per_sample new_sample db2) with (db3, Ok tt). cbv beta iota.
    rewrite db_bind_unfold. unfold ingest_sample.
    rewrite db_bind_unfold, Hsave. cbv beta iota.
    rewrite db_bind_unfold. change (db_get db4) with (db4, Ok db4). cbv beta iota.
    reflexivity. }
  cbv zeta. rewrite Hrun. cbn [fst snd].
  repeat split; try reflexivity.
  - cbn [tables db5 db4 set_mags_per_sample set_tables]. apply lookup_insert_eq.
  - intros t Hne. cbn [tables db5 db4 db3 db2 db1 set_mags_per_sample set_tables].
    rewrite !lookup_insert_ne by congruence. apply lookup_delete_ne. congruence.
  - cbn [mags_per_sample db5 db4 db3 db2 db1 set_mags_per_sample set_tables].
    rewrite List.filter_app, filter_negb_same. simpl.
    apply filter_all. intros x Hx. apply in_map_iff in Hx as (m & <- & _).
    simpl. apply String.eqb_refl.
  - cbn [mags_per_sample db5 db4 db3 db2 db1 set_mags_per_sample set_tables].
    rewrite List.filter_app, filter_twice.
    rewrite (filter_none _ (map (pair new_sample) mags)); [apply app_nil_r|].
    intros x Hx. apply in_map_iff in Hx as (m & <- & _).
    simpl. rewrite String.eqb_refl. reflexivity.
Qed.

Lemma reingest_replaces_sample_witness :
  tables (add_sample demo_fs ["a.blast"] "blast" demo_db).1 !! "sample_1"
    = Some [Hit 1 1 (985 # 10) 100 150] /\
  tables (add_sample demo_fs ["a.blast"] "blast" demo_db).1 !! "sample_2"
    = Some [Hit 2 3 98 5 20].
Proof.
  destruct (reingest_replaces_sample demo_fs "blast" "a.blast" "sample_1" 1 demo_db
              [Hit 1 1 (985 # 10) 100 150] ["ctgA"])
    as (_ & _ & _ & _ & Hnew & Hother & _ & _).
  - simpl. constructor; [simpl; intros [H|[]]; discriminate|].
    constructor; [simpl; tauto|constructor].
  - simpl. tauto.
  - unfold index_names_free. split; [reflexivity|split; [reflexivity|]].
    intros t' Ht. vm_compute in Ht. injection Ht as <-. reflexivity.
  - vm_compute. reflexivity.
  - split; [exact Hnew|]. rewrite Hother by discriminate. reflexivity.
Defined.

(** * Further properties *)

(** ** Identity rows *)

(** X1: for ascending breaks the identity row never decreases with the
    identity of the read. *)
Theorem identity_row_monotone (id_breaks : list Q) (x y : Q) :
  StronglySorted Qle id_breaks -> (x <= y)%Q ->
  read_id_index_of id_breaks x <= read_id_index_of id_breaks y.
Proof.
  intros Hs Hxy. unfold read_id_index_of.
  destruct (bisect_right_sorted id_breaks x Hs) as (Hrx & Hbx & Hax).
  destruct (bisect_right_sorted id_breaks y Hs) as (Hry & Hby & Hay).
  set (rx := bisect_right Qltb id_breaks x) in *.
  set (ry := bisect_right Qltb id_breaks y) in *.
  destruct (Z.le_gt_cases rx ry) as [|Hgt]; [lia|]. exfalso.
  pose proof (Hbx ry ltac:(lia)) as H1. pose proof (Hay ry ltac:(lia)) as H2.
  rewrite (nth_indep _ _ y) in H1 by (unfold len in *; lia).
  apply (Qlt_irrefl y). eapply Qlt_le_trans; [exact H2|]. eapply Qle_trans; eassumption.
Qed.

Lemma identity_row_monotone_witness :
  read_id_index_of [80; 90; 100]%Q 85 <= read_id_index_of [80; 90; 100]%Q 95.
Proof.
  apply (identity_row_monotone [80; 90; 100]%Q 85 95).
  - repeat constructor; discriminate.
  - discriminate.
Defined.

(** X2: the identity row of a read is between -1 and the last row; it
    is the row of the highest break that is not above the identity of
    the read, so a read at or above the last break, also one above 100,
    is counted in the last row. *)
Theorem identity_row_is_highest_break_below (id_breaks : list Q) (identity : Q) :
  StronglySorted Qle id_breaks ->
  let i := read_id_index_of id_breaks identity in
  -1 <= i < len id_breaks /\
  (forall b, id_breaks !! Z.to_nat i = Some b -> 0 <= i -> (b <= identity)%Q) /\
  (forall b, id_breaks !! Z.to_nat (i + 1) = Some b -> (identity < b)%Q) /\
  (forall b, last id_breaks = Some b -> (b <= identity)%Q -> i = len id_breaks - 1).
Proof.
  intros Hs. cbv zeta. unfold read_id_index_of.
  destruct (bisect_right_sorted id_breaks identity Hs) as (Hr & Hb & Ha).
  set (r := bisect_right Qltb id_breaks identity) in *.
  split; [lia|]. split; [|split].
  - intros b Hlk Hi. specialize (Hb (r - 1) ltac:(lia)).
    rewrite (nth_lookup_Some _ _ _ _ Hlk) in Hb. exact Hb.
  - intros b Hlk. pose proof (lookup_lt_Some _ _ _ Hlk) as Hlt.
    specialize (Ha (r - 1 + 1) ltac:(unfold len; lia)).
    rewrite (nth_lookup_Some _ _ _ _ Hlk) in Ha. exact Ha.
  - intros b Hlast Hle. destruct (Z.eq_dec r (len id_breaks)) as [|Hne]; [lia|]. exfalso.
    rewrite last_lookup in Hlast.
    assert (Hlen : (0 < length id_breaks)%nat).
    { destruct id_breaks; [discriminate|simpl; lia]. }
    specialize (Ha (len id_breaks - 1) ltac:(unfold len in *; lia)).
    replace (Z.to_nat (len id_breaks - 1)) with (Nat.pred (length id_breaks)) in Ha
      by (unfold len; lia).
    rewrite (nth_lookup_Some _ _ _ _ Hlast) in Ha.
    apply (Qlt_irrefl identity). eapply Qlt_le_trans; eassumption.
Qed.

Lemma identity_row_is_highest_break_below_witness :
  read_id_index_of [80; 90; 100]%Q 101 = len [80; 90; 100]%Q - 1.
Proof.
  destruct (identity_row_is_highest_break_below [80; 90; 100]%Q 101) as (_ & _ & _ & Htop).
  - repeat constructor; discriminate.
  - apply (Htop 100%Q); [reflexivity|discriminate].
Defined.

(** ** Filling an array *)

Lemma read_credits_accepted (ends : list Z) (read_start read_stop last_end : Z) :
  StronglySorted Z.le ends -> read_start <= read_stop ->
  last ends = Some last_end -> read_stop <= last_end ->
  exists credits,
    read_credits ends read_start read_stop = Ok credits /\
    Forall (fun c => 0 <= c.1 < len ends) credits /\
    sumZ (map snd credits) = read_stop - read_start + 1.
Proof.
  intros Hs Hle Hlast Hstop.
  destruct (read_locs _ _ _ _ Hs Hle Hlast Hstop) as (H0 & Hst & Hlt).
  destruct (bisect_left_sorted ends read_stop Hs) as (_ & Hbelow & Habove).
  set (s := bisect_left Z.ltb ends read_start) in *.
  set (t := bisect_left Z.ltb ends read_stop) in *.
  unfold read_credits. fold s t. destruct (Z.eqb_spec s t) as [Heq|Hne].
  - eexists. split; [reflexivity|]. split; [|simpl; lia].
    constructor; [simpl; lia|constructor].
  - destruct (split_credits_conserved ends read_stop (Z.to_nat (t - s)) s
                (read_stop - read_start + 1)) as (credits & Hc & Hfst & Hsum); try lia.
    + intros j Hj. rewrite (nth_indep _ _ read_stop) by (unfold len in *; lia).
      apply Hbelow. lia.
    + replace (s + Z.of_nat (Z.to_nat (t - s))) with t by lia.
      rewrite (nth_indep _ _ read_stop) by (unfold len in *; lia). apply Habove. lia.
    + unfold py_range. replace (t + 1 - s) with (Z.of_nat (Z.to_nat (t - s)) + 1) by lia.
      exists credits. split; [exact Hc|]. split; [|exact Hsum].
      rewrite Forall_forall. intros c Hin.
      assert (Hc1 : c.1 ∈ seqZ s (Z.of_nat (Z.to_nat (t - s)) + 1)).
      { rewrite <- Hfst. apply list_elem_of_In, in_map, list_elem_of_In, Hin. }
      apply elem_of_seqZ in Hc1. lia.
Qed.

Lemma sumZ_insert (l : list Z) (n : nat) (old x : Z) :
  l !! n = Some old -> sumZ (<[n := x]> l) = sumZ l - old + x.
Proof.
  revert n. induction l as [|y l IH]; intros n Hn; [discriminate|].
  destruct n as [|n]; simpl in *.
  - injection Hn as ->. lia.
  - rewrite (IH n Hn). lia.
Qed.

Lemma matrix_total_insert (arr : list (list Z)) (n : nat) (row row' : list Z) :
  arr !! n = Some row ->
  matrix_total (<[n := row']> arr) = matrix_total arr - sumZ row + sumZ row'.
Proof.
  unfold matrix_total. revert n. induction arr as [|r arr IH]; intros n Hn; [discriminate|].
  destruct n as [|n]; simpl in *.
  - injection Hn as ->. lia.
  - rewrite (IH n Hn). lia.
Qed.

Lemma sumZ_nonneg (l : list Z) : Forall (fun c => 0 <= c) l -> 0 <= sumZ l.
Proof. induction 1; simpl; lia. Qed.

Lemma cell_le_sum (l : list Z) (n : nat) (c : Z) :
  Forall (fun c => 0 <= c) l -> l !! n = Some c -> 0 <= c <= sumZ l.
Proof.
  intros Hall. revert n. induction Hall as [|y l Hy Hall IH]; intros n Hn; [discriminate|].
  pose proof (sumZ_nonneg l Hall). destruct n as [|n]; simpl in *.
  - injection Hn as ->. lia.
  - specialize (IH n Hn). lia.
Qed.

Lemma row_le_total (arr : list (list Z)) (n : nat) (row : list Z) :
  nonneg_counts arr -> arr !! n = Some row -> 0 <= sumZ row <= matrix_total arr.
Proof.
  unfold nonneg_counts, matrix_total. intros Hall. revert n.
  induction Hall as [|r arr Hr Hall IH]; intros n Hn; [discriminate|].
  assert (0 <= sumZ (map sumZ arr)).
  { apply sumZ_nonneg. clear -Hall. induction Hall; simpl; constructor; auto using sumZ_nonneg. }
  pose proof (sumZ_nonneg r Hr). destruct n as [|n]; simpl in *.
  - injection Hn as <-. lia.
  - specialize (IH n Hn). lia.
Qed.

(** One addition that does not pass the range of [uint32] adds its
    amount to the total of the array and touches one row only. *)
Lemma iadd_cell_total (arr : list (list Z)) (width i j v : Z) :
  rectangular arr width -> nonneg_counts arr ->
  0 <= i < len arr -> 0 <= j < width -> 0 <= v -> matrix_total arr + v < 2 ^ 32 ->
  exists arr',
    iadd_cell arr i j v = Ok arr' /\ rectangular arr' width /\ nonneg_counts arr' /\
    len arr' = len arr /\ matrix_total arr' = matrix_total arr + v /\
    (forall k, k <> Z.to_nat i -> arr' !! k = arr !! k).
Proof.
  intros Hrect Hnn Hi Hj Hv Hroom. unfold iadd_cell.
  destruct (lookup_lt_is_Some_2 arr (Z.to_nat i) ltac:(unfold len in *; lia)) as (row & Hrow).
  rewrite (py_getitem_nth arr i []) by done. rewrite (nth_lookup_Some _ _ _ _ Hrow). rsimpl.
  assert (Hw : len row = width).
  { unfold rectangular in Hrect. rewrite Forall_forall in Hrect. apply Hrect.
    eapply list_elem_of_lookup_2, Hrow. }
  assert (Hrnn : Forall (fun c => 0 <= c) row).
  { unfold nonneg_counts in Hnn. rewrite Forall_forall in Hnn. apply Hnn.
    eapply list_elem_of_lookup_2, Hrow. }
  destruct (lookup_lt_is_Some_2 row (Z.to_nat j) ltac:(unfold len in *; lia)) as (old & Hold).
  rewrite (py_getitem_nth row j 0) by lia. rewrite (nth_lookup_Some _ _ _ _ Hold). rsimpl.
  unfold py_setitem. rewrite norm_index_in_range by lia. rsimpl.
  rewrite norm_index_in_range by lia.
  pose proof (cell_le_sum row _ _ Hrnn Hold) as Hcell.
  pose proof (row_le_total arr _ _ Hnn Hrow) as Hrt.
  rewrite Z.mod_small by lia.
  eexists. split; [reflexivity|]. repeat split.
  - apply Forall_insert; [exact Hrect|]. unfold len in *. rewrite length_insert. lia.
  - apply Forall_insert; [exact Hnn|]. apply Forall_insert; [exact Hrnn|]. simpl. lia.
  - unfold len. rewrite length_insert. reflexivity.
  - rewrite (matrix_total_insert _ _ row _ Hrow), (sumZ_insert _ _ old _ Hold). lia.
  - intros k Hk. apply list_lookup_insert_ne. congruence.
Qed.

Lemma apply_credits_total (width read_id_index : Z) (credits : list (Z * Z)) :
  forall arr,
    rectangular arr width -> nonneg_counts arr -> 0 <= read_id_index < len arr ->
    Forall (fun c => 0 <= c.1 < width /\ 0 <= c.2) credits ->
    matrix_total arr + sumZ (map snd credits) < 2 ^ 32 ->
    exists arr',
      apply_credits arr read_id_index credits = Ok arr' /\
      rectangular arr' width /\ nonneg_counts arr' /\ len arr' = len arr /\
      matrix_total arr' = matrix_total arr + sumZ (map snd credits) /\
      (forall k, k <> Z.to_nat read_id_index -> arr' !! k = arr !! k).
Proof.
  induction credits as [|[j v] credits IH]; intros arr Hrect Hnn Hi Hall Hroom;
    cbn [apply_credits].
  - eexists. split; [reflexivity|]. simpl. repeat split; auto; lia.
  - inversion Hall as [|? ? [Hj Hv] Hall']; subst. simpl in Hj, Hv. simpl in Hroom.
    assert (Hrest : 0 <= sumZ (map snd credits)).
    { apply sumZ_nonneg. clear -Hall'. induction Hall' as [|c l [_ Hc] _ IH]; simpl;
        constructor; auto. }
    destruct (iadd_cell_total arr width read_id_index j v)
      as (arr1 & -> & Hrect1 & Hnn1 & Hlen1 & Htot1 & Hother1); auto; [lia|].
    rsimpl. destruct (IH arr1) as (arr2 & -> & Hrect2 & Hnn2 & Hlen2 & Htot2 & Hother2);
      auto; try lia.
    eexists. split; [reflexivity|]. simpl. repeat split; auto; try lia.
    intros k Hk. rewrite Hother2, Hother1 by exact Hk. reflexivity.
Qed.

(** X3: when an accepted read is added to an array that has room for
    it (no negative cell, total + read length below 2^32), the total of
    the array grows by exactly the length of the read, no cell becomes
    negative, and only cells of the identity row of the read change. *)
Theorem fill_read_adds_read_length (id_breaks : list Q) (matrices : gmap Z contig_matrix)
    (read_mapped : hit) (m : contig_matrix) (last_end : Z) :
  matrices !! h_contig_id read_mapped = Some m ->
  StronglySorted Z.le (cm_ends m) ->
  rectangular (cm_counts m) (len (cm_ends m)) ->
  nonneg_counts (cm_counts m) ->
  0 <= read_id_index_of id_breaks (h_identity read_mapped) < len (cm_counts m) ->
  h_start read_mapped <= h_stop read_mapped ->
  last (cm_ends m) = Some last_end ->
  h_stop read_mapped <= last_end ->
  matrix_total (cm_counts m) + (h_stop read_mapped - h_start read_mapped + 1) < 2 ^ 32 ->
  exists counts,
    fill_read id_breaks matrices read_mapped
      = Ok (<[h_contig_id read_mapped := ContigMatrix (cm_starts m) (cm_ends m) counts]>
              matrices) /\
    matrix_total counts
      = matrix_total (cm_counts m) + (h_stop read_mapped - h_start read_mapped + 1) /\
    nonneg_counts counts /\
    rectangular counts (len (cm_ends m)) /\
    (forall k, k <> Z.to_nat (read_id_index_of id_breaks (h_identity read_mapped)) ->
               counts !! k = cm_counts m !! k).
Proof.
  intros Hm Hs Hrect Hnn Hidx Hle Hlast Hstop Hroom.
  destruct (read_credits_accepted _ _ _ _ Hs Hle Hlast Hstop) as (credits & Hc & Hbins & Hsum).
  destruct (apply_credits_total (len (cm_ends m))
              (read_id_index_of id_breaks (h_identity read_mapped)) credits (cm_counts m))
    as (counts & Hap & Hrect' & Hnn' & _ & Htot & Hother); auto.
  - rewrite Forall_forall in *. intros [j v] Hin. split; [apply (Hbins _ Hin)|].
    simpl. apply list_elem_of_In in Hin.
    apply (read_credits_overlaps _ _ _ _ _ Hs Hle Hlast Hstop Hc j v Hin).
  - rewrite Hsum. exact Hroom.
  - exists counts. split.
    + rewrite (fill_read_credits _ _ _ m Hm), Hc. rsimpl. rewrite Hap. reflexivity.
    + rewrite Htot, Hsum. auto.
Qed.

Lemma fill_read_adds_read_length_witness :
  exists counts,
    fill_read [80; 90; 100]%Q demo_matrices (Hit 1 1 95 1170 1180)
      = Ok (<[1 := ContigMatrix [1; 1175] [1174; 2350] counts]> demo_matrices) /\
    matrix_total counts = 11.
Proof.
  destruct (fill_read_adds_read_length [80; 90; 100]%Q demo_matrices (Hit 1 1 95 1170 1180)
              (ContigMatrix [1; 1175] [1174; 2350] (np_zeros 3 2)) 2350)
    as (counts & Hfill & Htot & _).
  - reflexivity.
  - simpl. list_facts.
  - unfold rectangular. simpl. list_facts.
  - unfold nonneg_counts. simpl. list_facts.
  - vm_compute. split; [discriminate|reflexivity].
  - simpl. lia.
  - reflexivity.
  - simpl. lia.
  - vm_compute. reflexivity.
  - exists counts. split; [exact Hfill|exact Htot].
Defined.

(** A log that is returned only names bins that [ends] has. *)
Lemma split_credits_in_range (ends : list Z) (read_stop : Z) (js : list Z) :
  forall read_len credits,
    split_credits ends read_stop js read_len = Ok credits ->
    Forall (fun j => is_ok (py_getitem ends j) = true) js.
Proof.
  induction js as [|j js IH]; intros read_len credits; cbn [split_credits]; [constructor|].
  destruct (py_getitem ends j) as [e|] eqn:He; rsimpl; [|discriminate].
  destruct (0 <? read_stop - e).
  - destruct (split_credits ends read_stop js (read_stop - e)) eqn:Hrest; rsimpl;
      [|discriminate].
    intros _. constructor; [rewrite He; reflexivity|eapply IH, Hrest].
  - destruct (split_credits ends read_stop js read_len) eqn:Hrest; rsimpl; [|discriminate].
    intros _. constructor; [rewrite He; reflexivity|eapply IH, Hrest].
Qed.

Lemma py_getitem_len {A : Type} (l : list A) : py_getitem l (len l) = Raise IndexError.
Proof.
  unfold py_getitem, norm_index.
  destruct (Z.ltb_spec (len l) (len l)); [lia|]. rewrite andb_false_r.
  destruct (Z.ltb_spec (len l) 0); [unfold len in *; lia|]. rewrite andb_false_r. reflexivity.
Qed.

(** X4: a read whose stop lies past the end of the last position bin
    of its contig is not clipped and not skipped: the filler raises
    [IndexError]. *)
Theorem read_past_last_bin_raises (id_breaks : list Q) (matrices : gmap Z contig_matrix)
    (read_mapped : hit) (m : contig_matrix) (last_end : Z) :
  matrices !! h_contig_id read_mapped = Some m ->
  StronglySorted Z.le (cm_ends m) ->
  rectangular (cm_counts m) (len (cm_ends m)) ->
  last (cm_ends m) = Some last_end ->
  last_end < h_stop read_mapped ->
  fill_read id_breaks matrices read_mapped = Raise IndexError.
Proof.
  intros Hm Hs Hrect Hlast Hpast.
  destruct (bisect_left_sorted (cm_ends m) (h_stop read_mapped) Hs) as (Hr & _ & Habove).
  destruct (bisect_left_sorted (cm_ends m) (h_start read_mapped) Hs) as (Hr1 & _ & _).
  assert (Hne : 0 < len (cm_ends m)).
  { unfold len. destruct (cm_ends m); [discriminate|]. simpl. lia. }
  assert (Ht : bisect_left Z.ltb (cm_ends m) (h_stop read_mapped) = len (cm_ends m)).
  { destruct (Z.eq_dec (bisect_left Z.ltb (cm_ends m) (h_stop read_mapped)) (len (cm_ends m)))
      as [|Hneq]; [done|]. exfalso.
    specialize (Habove (len (cm_ends m) - 1) ltac:(lia)).
    rewrite last_lookup in Hlast.
    replace (Z.to_nat (len (cm_ends m) - 1)) with (Nat.pred (length (cm_ends m))) in Habove
      by (unfold len; lia).
    rewrite (nth_lookup_Some _ _ _ _ Hlast) in Habove. lia. }
  rewrite (fill_read_credits _ _ _ m Hm). unfold read_credits. rewrite Ht.
  set (s := bisect_left Z.ltb (cm_ends m) (h_start read_mapped)) in *.
  destruct (Z.eqb_spec s (len (cm_ends m))) as [Heq|Hneq].
  - rsimpl. cbn [apply_credits]. unfold iadd_cell.
    destruct (py_getitem (cm_counts m) _) as [row|e] eqn:Hrow; rsimpl.
    + assert (Hw : len row = len (cm_ends m)).
      { unfold rectangular in Hrect. rewrite Forall_forall in Hrect. apply Hrect.
        unfold py_getitem in Hrow. destruct (norm_index _ _) as [n|]; [|discriminate].
        destruct (cm_counts m !! n) as [r|] eqn:Hr'; [|discriminate].
        injection Hrow as <-. eapply list_elem_of_lookup_2, Hr'. }
      rewrite Heq, <- Hw, py_getitem_len. reflexivity.
    + apply py_getitem_error in Hrow. subst e. reflexivity.
  - destruct (split_credits _ _ _ _) as [credits|e] eqn:Hc; rsimpl.
    + exfalso. apply split_credits_in_range in Hc. rewrite Forall_forall in Hc.
      specialize (Hc (len (cm_ends m))). rewrite py_getitem_len in Hc.
      assert (Hin : len (cm_ends m) ∈ py_range s (len (cm_ends m) + 1)).
      { unfold py_range. apply elem_of_seqZ. lia. }
      specialize (Hc Hin). discriminate.
    + apply split_credits_error in Hc. subst e. reflexivity.
Qed.

Lemma read_past_last_bin_raises_witness :
  fill_read [80; 90; 100]%Q demo_matrices (Hit 1 1 95 2340 2360) = Raise IndexError.
Proof.
  apply (read_past_last_bin_raises [80; 90; 100]%Q demo_matrices (Hit 1 1 95 2340 2360)
           (ContigMatrix [1; 1175] [1174; 2350] (np_zeros 3 2)) 2350).
  - reflexivity.
  - simpl. list_facts.
  - unfold rectangular. simpl. list_facts.
  - reflexivity.
  - simpl. lia.
Defined.

(** ** The loop over the reads *)

Lemma fill_read_bins (id_breaks : list Q) (matrices matrices' : gmap Z contig_matrix)
    (read_mapped : hit) :
  fill_read id_breaks matrices read_mapped = Ok matrices' ->
  (forall c, bins_of matrices' c = bins_of matrices c) /\
  (forall c, c <> h_contig_id read_mapped -> matrices' !! c = matrices !! c).
Proof.
  unfold fill_read. destruct (matrices !! h_contig_id read_mapped) as [m|] eqn:Hm.
  - match goal with |- context [?x ≫= _] => destruct x as [counts|] end; rsimpl;
      [|discriminate].
    intros [= <-]. split.
    + intros c. unfold bins_of. destruct (Z.eq_dec c (h_contig_id read_mapped)) as [->|Hne].
      * rewrite lookup_insert_eq, Hm. reflexivity.
      * rewrite lookup_insert_ne by congruence. reflexivity.
    + intros c Hne. apply lookup_insert_ne. congruence.
  - intros [= <-]. auto.
Qed.

Lemma fill_loop_bins (id_breaks : list Q) (reads : list hit) :
  forall matrices matrices',
    fill_loop id_breaks reads matrices = Ok matrices' ->
    (forall c, bins_of matrices' c = bins_of matrices c) /\
    (forall c, ~ In c (map h_contig_id reads) -> matrices' !! c = matrices !! c).
Proof.
  induction reads as [|r reads IH]; intros matrices matrices'; cbn [fill_loop].
  - intros [= <-]. auto.
  - destruct (fill_read id_breaks matrices r) as [m1|] eqn:H1; rsimpl; [|discriminate].
    intros H2. destruct (fill_read_bins _ _ _ _ H1) as (Hb1 & Ho1).
    destruct (IH _ _ H2) as (Hb2 & Ho2). split.
    + intros c. rewrite Hb2, Hb1. reflexivity.
    + intros c Hnot. rewrite Ho2, Ho1; [reflexivity| |]; intros Hc; apply Hnot; simpl; auto.
Qed.

(** X5: a fill that returns keeps the contigs of the matrix and their
    position bins, and leaves untouched the array of every contig that
    no read of the requested MAG in the sample maps to; reads of other
    MAGs are never looked at. *)
Theorem fill_matrices_keeps_bins (db : database) (mag_id : Z) (sample_name : string)
    (matrices matrices' : gmap Z contig_matrix) (id_breaks : list Q) :
  fill_matrices db mag_id sample_name matrices id_breaks = Ok matrices' ->
  exists sample_id rows,
    select_sample_id db sample_name = Ok sample_id /\
    tables db !! sample_id = Some rows /\
    (forall c, bins_of matrices' c = bins_of matrices c) /\
    (forall c, (forall h, In h rows -> h_mag_id h = mag_id -> h_contig_id h <> c) ->
               matrices' !! c = matrices !! c).
Proof.
  unfold fill_matrices, select_reads.
  destruct (select_sample_id db sample_name) as [sample_id|]; rsimpl; [|discriminate].
  destruct (tables db !! sample_id) as [rows|] eqn:Hrows; rsimpl; [|discriminate].
  intros Hfill. destruct (fill_loop_bins _ _ _ _ Hfill) as (Hb & Ho).
  exists sample_id, rows. repeat split; auto.
  intros c Hnone. apply Ho. intros Hin. apply in_map_iff in Hin as (h & Hc & Hin).
  apply filter_In in Hin as [Hin Hmag]. apply Z.eqb_eq in Hmag.
  apply (Hnone h Hin Hmag Hc).
Qed.

Lemma fill_matrices_keeps_bins_witness :
  exists matrices',
    fill_matrices demo_db 2 "b.blast" demo_matrices [80; 90; 100]%Q = Ok matrices' /\
    matrices' !! 1 = demo_matrices !! 1.
Proof.
  assert (Hfill : fill_matrices demo_db 2 "b.blast" demo_matrices [80; 90; 100]%Q
                  = Ok demo_matrices) by (vm_compute; reflexivity).
  exists demo_matrices. split; [exact Hfill|].
  destruct (fill_matrices_keeps_bins _ _ _ _ _ _ Hfill)
    as (sid & rows & Hsid & Hrows & _ & Hother).
  apply Hother. intros h Hin _.
  vm_compute in Hsid. injection Hsid as <-.
  vm_compute in Hrows. injection Hrows as <-.
  destruct Hin as [<-|[]]. discriminate.
Defined.

(** ** Built matrices *)

Lemma StronglySorted_of_nth (l : list Z) :
  (forall i j, (i < j)%nat -> (j < length l)%nat -> nth i l 0 <= nth j l 0) ->
  StronglySorted Z.le l.
Proof.
  induction l as [|x l IH]; intros Hmono; constructor.
  - apply IH. intros i j Hij Hj. apply (Hmono (S i) (S j)); simpl; lia.
  - rewrite Forall_forall. intros y Hy.
    apply list_elem_of_In, (In_nth _ _ 0) in Hy as (k & Hk & <-).
    apply (Hmono 0%nat (S k)); simpl; lia.
Qed.

Lemma bin_starts_nth (contig_length n : Z) (k : nat) :
  Z.of_nat k < n ->
  nth k (bin_starts contig_length n) 0 = 1 + (Z.of_nat k * (contig_length - 1)) / n.
Proof.
  intros Hk. unfold bin_starts, np_linspace. apply nth_lookup_Some.
  change (map ?f ?l) with (f <$> l). rewrite list_lookup_fmap, lookup_seq_lt by lia.
  reflexivity.
Qed.

Lemma bin_ends_nth (contig_length n : Z) (k : nat) :
  Z.of_nat k < n ->
  nth k (bin_ends (bin_starts contig_length n) contig_length) 0
  = if Z.of_nat k + 1 <? n then (Z.of_nat (S k) * (contig_length - 1)) / n
    else contig_length.
Proof.
  intros Hk. unfold bin_ends.
  assert (Hlen : length (map (fun s => s - 1) (tail (bin_starts contig_length n)))
                 = (Z.to_nat n - 1)%nat).
  { rewrite length_map, length_tl. unfold bin_starts, np_linspace.
    rewrite length_map, length_seq. reflexivity. }
  destruct (Z.ltb_spec (Z.of_nat k + 1) n) as [Hlt|Hge].
  - apply nth_lookup_Some. rewrite lookup_app_l by lia.
    change (map ?f ?l) with (f <$> l). rewrite list_lookup_fmap, lookup_tail.
    unfold bin_starts, np_linspace. change (map ?f ?l) with (f <$> l).
    rewrite list_lookup_fmap, lookup_seq_lt by lia. simpl. f_equal. lia.
  - rewrite app_nth2 by lia. replace (k - _)%nat with 0%nat by lia. reflexivity.
Qed.

(** The ends of the bins of a contig are in ascending order. *)
Lemma bin_ends_sorted (contig_length n : Z) :
  0 < contig_length -> 1 <= n ->
  StronglySorted Z.le (bin_ends (bin_starts contig_length n) contig_length).
Proof.
  intros HL Hn. apply StronglySorted_of_nth. intros i j Hij Hj.
  assert (Hlen : length (bin_ends (bin_starts contig_length n) contig_length) = Z.to_nat n).
  { rewrite bin_ends_length.
    - unfold bin_starts, np_linspace. rewrite length_map, length_seq. reflexivity.
    - unfold bin_starts, np_linspace. destruct (Z.to_nat n) eqn:Hz; [lia|discriminate]. }
  rewrite !bin_ends_nth by lia.
  assert (Hdiv : forall k, Z.of_nat k < n -> (Z.of_nat k * (contig_length - 1)) / n
                                             <= contig_length - 1).
  { intros k Hk. apply Z.div_le_upper_bound; [lia|]. nia. }
  destruct (Z.ltb_spec (Z.of_nat i + 1) n); destruct (Z.ltb_spec (Z.of_nat j + 1) n); try lia.
  - apply Z.div_le_mono; [lia|]. apply Z.mul_le_mono_nonneg_r; lia.
  - specialize (Hdiv (S i) ltac:(lia)). lia.
Qed.

Lemma np_zeros_total (rows cols : nat) : matrix_total (np_zeros rows cols) = 0.
Proof.
  unfold matrix_total, np_zeros.
  assert (Hrow : sumZ (repeat 0 cols) = 0) by (induction cols; simpl; lia).
  induction rows; simpl; [reflexivity|]. rewrite Hrow. lia.
Qed.

(** What the builder makes for a contig is what the filler needs. *)
Lemma contig_bins_well_formed (n_breaks : nat) (contig_length width : Z) (m : contig_matrix) :
  0 < contig_length -> 0 < width ->
  contig_bins n_breaks contig_length width = Ok m ->
  StronglySorted Z.le (cm_ends m) /\
  last (cm_ends m) = Some contig_length /\
  rectangular (cm_counts m) (len (cm_ends m)) /\
  nonneg_counts (cm_counts m) /\
  len (cm_counts m) = Z.of_nat n_breaks /\
  matrix_total (cm_counts m) = 0.
Proof.
  intros HL HW. unfold contig_bins. rewrite (num_bins_max _ _ HL HW). rsimpl.
  intros [= <-]. cbn [cm_ends cm_counts cm_starts].
  set (n := Z.max 1 (contig_length / width)).
  assert (Hn : 1 <= n) by (unfold n; lia).
  assert (Hne : bin_starts contig_length n <> []).
  { unfold bin_starts, np_linspace. destruct (Z.to_nat n) eqn:Hz; [lia|discriminate]. }
  repeat split.
  - apply bin_ends_sorted; lia.
  - unfold bin_ends. apply last_snoc.
  - unfold rectangular, np_zeros. apply Forall_forall. intros row Hrow.
    apply list_elem_of_In, repeat_spec in Hrow. subst row.
    unfold len. rewrite repeat_length, bin_ends_length by exact Hne. reflexivity.
  - unfold nonneg_counts, np_zeros. apply Forall_forall. intros row Hrow.
    apply list_elem_of_In, repeat_spec in Hrow. subst row.
    apply Forall_forall. intros c Hc. apply list_elem_of_In, repeat_spec in Hc. lia.
  - unfold len, np_zeros. rewrite repeat_length. reflexivity.
  - apply np_zeros_total.
Qed.

(** X6: on the empty matrix the builder makes for a contig of length
    L, every read of that contig that stops at or before L and whose
    identity is not below the lowest break is accepted by the filler,
    and the array then holds exactly the bases of the read. *)
Theorem built_matrix_accepts_read (id_breaks : list Q) (contig_length width : Z)
    (m : contig_matrix) (read_mapped : hit) :
  0 < contig_length -> 0 < width ->
  StronglySorted Qle id_breaks ->
  contig_bins (length id_breaks) contig_length width = Ok m ->
  h_start read_mapped <= h_stop read_mapped -> h_stop read_mapped <= contig_length ->
  h_stop read_mapped - h_start read_mapped + 1 < 2 ^ 32 ->
  0 <= read_id_index_of id_breaks (h_identity read_mapped) ->
  exists counts,
    fill_read id_breaks {[ h_contig_id read_mapped := m ]} read_mapped
      = Ok {[ h_contig_id read_mapped := ContigMatrix (cm_starts m) (cm_ends m) counts ]} /\
    matrix_total counts = h_stop read_mapped - h_start read_mapped + 1.
Proof.
  intros HL HW Hsorted Hbins Hle Hstop Hroom Hidx.
  destruct (contig_bins_well_formed _ _ _ _ HL HW Hbins)
    as (Hs & Hlast & Hrect & Hnn & Hrows & Hzero).
  destruct (read_credits_accepted _ _ _ _ Hs Hle Hlast Hstop) as (credits & Hc & Hin & Hsum).
  destruct (bisect_right_sorted id_breaks (h_identity read_mapped) Hsorted) as (Hr & _ & _).
  destruct (apply_credits_total (len (cm_ends m))
              (read_id_index_of id_breaks (h_identity read_mapped)) credits (cm_counts m))
    as (counts & Hap & _ & _ & _ & Htot & _); auto.
  - unfold read_id_index_of in *. unfold len in *. lia.
  - rewrite Forall_forall in *. intros [j v] Hjv. split; [apply (Hin _ Hjv)|].
    simpl. apply list_elem_of_In in Hjv.
    apply (read_credits_overlaps _ _ _ _ _ Hs Hle Hlast Hstop Hc j v Hjv).
  - rewrite Hzero, Hsum. lia.
  - exists counts. split.
    + rewrite (fill_read_credits _ _ _ m) by apply lookup_singleton_eq.
      rewrite Hc. rsimpl. rewrite Hap. rsimpl. rewrite insert_singleton_eq. reflexivity.
    + rewrite Htot, Hzero, Hsum. lia.
Qed.

Lemma built_matrix_accepts_read_witness :
  exists m counts,
    contig_bins 3 2350 1000 = Ok m /\
    fill_read [80; 90; 100]%Q {[ 1 := m ]} (Hit 1 1 95 1170 1180)
      = Ok {[ 1 := ContigMatrix (cm_starts m) (cm_ends m) counts ]} /\
    matrix_total counts = 11.
Proof.
  exists (ContigMatrix [1; 1175] [1174; 2350] (np_zeros 3 2)).
  destruct (built_matrix_accepts_read [80; 90; 100]%Q 2350 1000
              (ContigMatrix [1; 1175] [1174; 2350] (np_zeros 3 2)) (Hit 1 1 95 1170 1180))
    as (counts & Hfill & Htot).
  - lia.
  - lia.
  - repeat constructor; discriminate.
  - reflexivity.
  - simpl. lia.
  - simpl. lia.
  - simpl. lia.
  - vm_compute. discriminate.
  - exists counts. split; [reflexivity|]. split; [exact Hfill|exact Htot].
Defined.

(** ** Identity breaks that never end *)

Lemma id_breaks_loop_diverges (id_lower bin_height : Q) (fuel : nat) :
  forall current_break acc,
    (bin_height <= 0)%Q -> (id_lower < 100)%Q -> at_least_100 current_break ->
    id_breaks_loop fuel current_break id_lower bin_height acc = None.
Proof.
  induction fuel as [|fuel IH]; intros [c| |] acc Hstep Hlow Hcur;
    cbn [id_breaks_loop at_least_100] in *; try reflexivity; try contradiction;
    rewrite (proj2 (Qltb_lt id_lower c)) by lra; [reflexivity|].
  apply IH; [exact Hstep|exact Hlow|].
  apply round64_at_least_100. lra.
Qed.

(** X7: with an identity step that is zero or negative and a lower
    bound below 100, the loop that builds the breaks never ends: the
    builder returns nothing, whatever the database and however long it
    runs. *)
Theorem builder_diverges_on_nonpositive_step (fuel : nat) (db : database) (mag_name : string)
    (width : Z) (bin_height id_lower : Q) :
  (bin_height <= 0)%Q -> (id_lower < 100)%Q ->
  prepare_numpy_matrices fuel db mag_name width bin_height id_lower = None.
Proof.
  intros Hstep Hlow. unfold prepare_numpy_matrices, make_id_breaks.
  rewrite id_breaks_loop_diverges; [reflexivity|exact Hstep|exact Hlow|].
  cbn [at_least_100]. lra.
Qed.

Lemma builder_diverges_on_nonpositive_step_witness :
  prepare_numpy_matrices 1000 demo_db "mag1" 1000 0 70 = None.
Proof.
  apply (builder_diverges_on_nonpositive_step 1000 demo_db "mag1" 1000 0 70).
  - discriminate.
  - reflexivity.
Defined.

Lemma matrix_loop_entries (n_breaks : nat) (width : Z) (contig_sizes : list (Z * Z)) :
  forall matrix0 matrix,
    matrix_loop n_breaks width contig_sizes matrix0 = Ok matrix ->
    (forall c, is_Some (matrix !! c) <->
               is_Some (matrix0 !! c) \/ exists l, In (c, l) contig_sizes) /\
    (forall c m, matrix !! c = Some m ->
               matrix0 !! c = Some m \/
               exists l, In (c, l) contig_sizes /\ contig_bins n_breaks l width = Ok m).
Proof.
  induction contig_sizes as [|[c0 l0] sizes IH]; intros matrix0 matrix; cbn [matrix_loop].
  - intros [= <-]. split.
    + intros c. split; [auto|]. intros [H|(l & [])]. exact H.
    + auto.
  - cbn [fst snd]. destruct (contig_bins n_breaks l0 width) as [m0|] eqn:Hb; rsimpl;
      [|discriminate].
    intros Hloop. destruct (IH _ _ Hloop) as (Hdom & Hent). split.
    + intros c. rewrite Hdom. destruct (Z.eq_dec c c0) as [->|Hne].
      * rewrite lookup_insert_eq. split; [|eauto].
        intros _. right. exists l0. left. reflexivity.
      * rewrite lookup_insert_ne by congruence. split.
        -- intros [H|(l & Hin)]; [auto|]. right. exists l. right. exact Hin.
        -- intros [H|(l & [Heq|Hin])]; [auto|congruence|]. right. eauto.
    + intros c m Hm. destruct (Hent c m Hm) as [H0|(l & Hin & Hbl)].
      * destruct (Z.eq_dec c c0) as [->|Hne].
        -- rewrite lookup_insert_eq in H0. injection H0 as <-.
           right. exists l0. split; [left; reflexivity|exact Hb].
        -- rewrite lookup_insert_ne in H0 by congruence. auto.
      * right. exists l. split; [right; exact Hin|exact Hbl].
Qed.

Lemma select_contig_sizes_In (db : database) (mag_id c l : Z) :
  In (c, l) (select_contig_sizes db mag_id) <-> In (mag_id, c, l) (mag_info db).
Proof.
  unfold select_contig_sizes. rewrite in_map_iff. split.
  - intros ([[m c'] l'] & [= <- <-] & Hin). apply filter_In in Hin as [Hin Heq].
    simpl in Heq. apply Z.eqb_eq in Heq. subst m. exact Hin.
  - intros Hin. exists (mag_id, c, l). split; [reflexivity|].
    apply filter_In. split; [exact Hin|]. simpl. apply Z.eqb_refl.
Qed.

(** X8: once the breaks are built, the builder raises [TypeError] for
    a MAG name that [lookup_table] does not have; when it returns, the
    matrix has one entry for each contig of the MAG in the contig
    length relation and no other, each entry is the bins of a length
    recorded for that contig, and its array has one row per break. *)
Theorem builder_matrix_contigs (fuel : nat) (db : database) (mag_name : string) (width : Z)
    (bin_height id_lower : Q) (id_breaks : list Q) :
  make_id_breaks fuel bin_height id_lower = Some id_breaks ->
  ((forall r, In r (lookup_table db) -> r.1.1.1 <> mag_name) ->
   prepare_numpy_matrices fuel db mag_name width bin_height id_lower
   = Some (Raise TypeError)) /\
  (forall mag_id matrix breaks,
     prepare_numpy_matrices fuel db mag_name width bin_height id_lower
     = Some (Ok (mag_id, matrix, breaks)) ->
     breaks = id_breaks /\
     (exists r, In r (lookup_table db) /\ r.1.1.1 = mag_name /\ r.1.1.2 = mag_id) /\
     (forall c, is_Some (matrix !! c) <-> exists l, In (mag_id, c, l) (mag_info db)) /\
     (forall c m, matrix !! c = Some m ->
        len (cm_counts m) = len id_breaks /\
        exists l, In (mag_id, c, l) (mag_info db) /\
                  contig_bins (length id_breaks) l width = Ok m)).
Proof.
  intros Hbreaks. unfold prepare_numpy_matrices. rewrite Hbreaks. unfold select_mag_id. split.
  - intros Hnone. destruct (find _ (lookup_table db)) as [r|] eqn:Hf; [|reflexivity].
    apply find_some in Hf as [Hin Heq]. apply String.eqb_eq in Heq.
    exfalso. apply (Hnone r Hin Heq).
  - intros mag_id matrix breaks.
    destruct (find _ (lookup_table db)) as [r|] eqn:Hf; rsimpl; [|discriminate].
    destruct (matrix_loop _ _ _ _) as [mx|] eqn:Hloop; rsimpl; [|discriminate].
    intros [= <- <- <-]. apply find_some in Hf as [Hin Heq]. apply String.eqb_eq in Heq.
    destruct (matrix_loop_entries _ _ _ _ _ Hloop) as (Hdom & Hent).
    split; [reflexivity|]. split; [eauto|]. split.
    + intros c. rewrite Hdom. split.
      * intros [[x Hx]|(l & Hl)]; [rewrite lookup_empty in Hx; discriminate|].
        exists l. apply select_contig_sizes_In. exact Hl.
      * intros (l & Hl). right. exists l. apply select_contig_sizes_In. exact Hl.
    + intros c m Hm. destruct (Hent c m Hm) as [H0|(l & Hl & Hb)].
      * rewrite lookup_empty in H0. discriminate.
      * split.
        -- unfold contig_bins in Hb. destruct (num_bins l width); rsimpl; [|discriminate].
           injection Hb as <-. unfold len, np_zeros. cbn [cm_counts].
           rewrite repeat_length. reflexivity.
        -- exists l. split; [apply select_contig_sizes_In; exact Hl|exact Hb].
Qed.

Lemma builder_matrix_contigs_witness :
  prepare_numpy_matrices 5 demo_db "magX" 1000 10 70 = Some (Raise TypeError).
Proof.
  apply (builder_matrix_contigs 5 demo_db "magX" 1000 10 70
           (match make_id_breaks 5 10 70 with Some l => l | None => [] end)).
  - reflexivity.
  - intros r Hin. simpl in Hin. decompose [or] Hin; subst; try discriminate. contradiction.
Defined.

(** ** Tagged records, continued *)

Lemma count_nondigits_nonneg (s : string) : 0 <= count_nondigits s.
Proof. induction s as [|c s IH]; simpl; [lia|]. destruct (is_digit c); lia. Qed.

Lemma digit_val_range (c : ascii) : is_digit c = true -> 0 <= digit_val c <= 9.
Proof.
  unfold is_digit, digit_val. intros H. apply andb_prop in H as [H1 H2].
  apply Nat.leb_le in H1, H2. lia.
Qed.

Lemma digits_value_nonneg (s : string) : forall acc,
  all_digits s = true -> 0 <= acc -> 0 <= digits_value acc s.
Proof.
  induction s as [|c s IH]; intros acc Hall Hacc; simpl in *; [exact Hacc|].
  apply andb_prop in Hall as [Hc Hs]. apply IH; [exact Hs|].
  pose proof (digit_val_range c Hc). lia.
Qed.

(** Every run that [re.findall('[0-9]+', s)] returns is made of digits. *)
Lemma fields_go_digits (s : string) :
  all_digits (fields_go (fun c => negb (is_digit c)) s).1 = true /\
  Forall (fun w => all_digits w = true) (fields_go (fun c => negb (is_digit c)) s).2.
Proof.
  induction s as [|c s [IHw IHws]]; simpl; [split; [reflexivity|constructor]|].
  destruct (fields_go _ s) as [w ws]. simpl in *.
  destruct (is_digit c) eqn:Hc; simpl.
  - rewrite Hc. auto.
  - split; [reflexivity|]. destruct w; [exact IHws|]. constructor; assumption.
Qed.

Lemma findall_digits_all (s : string) :
  Forall (fun w => all_digits w = true) (findall_digits s).
Proof.
  unfold findall_digits, fields. pose proof (fields_go_digits s) as [Hw Hws].
  destruct (fields_go _ s) as [w ws]. simpl in *. destruct w; [exact Hws|].
  constructor; assumption.
Qed.

Lemma mdz_sum_nonneg (mdz_seg : string) : 0 <= (mdz_counts mdz_seg).1.
Proof.
  unfold mdz_counts. cbn [fst].
  assert (Hgen : forall l acc, Forall (fun w => all_digits w = true) l -> 0 <= acc ->
            0 <= fold_left (fun acc num => acc + digits_value 0 num) l acc).
  { induction l as [|w l IH]; intros acc Hall Hacc; simpl; [exact Hacc|].
    inversion Hall; subst. apply IH; [assumption|].
    pose proof (digits_value_nonneg w 0 ltac:(assumption) ltac:(lia)). lia. }
  apply Hgen; [apply findall_digits_all|lia].
Qed.

Lemma mdz_hit_bounds (e : catalog_entry) (segment : list string) (mdz_seg : string) (h : hit) :
  mdz_hit e segment mdz_seg = Ok h ->
  h_start h <= h_stop h /\ (0 <= h_identity h)%Q /\ (h_identity h <= 100)%Q.
Proof.
  intros Hhit. destruct (mdz_hit_ok _ _ _ _ Hhit) as (f3 & start & _ & _ & Hne & ->).
  pose proof (mdz_sum_nonneg mdz_seg) as Hsum.
  pose proof (count_nondigits_nonneg mdz_seg) as Hnd.
  pose proof (mdz_total mdz_seg) as Htot.
  set (sum := (mdz_counts mdz_seg).1) in *. set (total := (mdz_counts mdz_seg).2) in *.
  cbn [h_start h_stop h_identity].
  assert (Hpos : (0 < inject_Z total)%Q) by (rewrite <- (Zlt_Qlt 0); lia).
  assert (Hs0 : (0 <= inject_Z sum)%Q) by (rewrite <- (Zle_Qle 0); lia).
  assert (Hst : (inject_Z sum <= inject_Z total)%Q) by (rewrite <- Zle_Qle; lia).
  assert (Hq0 : (0 <= inject_Z sum / inject_Z total)%Q).
  { apply Qle_shift_div_l; [exact Hpos|]. lra. }
  assert (Hq1 : (inject_Z sum / inject_Z total <= 1)%Q).
  { apply Qle_shift_div_r; [exact Hpos|]. lra. }
  split; [lia|]. split; lra.
Qed.

(** X9: every hit retained from a tagged-text or binary record has
    start <= stop and an identity between 0 and 100. *)
Theorem tagged_hit_within_bounds (cmc : gmap string catalog_entry)
    (contigs_in_sample contigs : list string) (h : hit) :
  (exists line, sam_line cmc contigs_in_sample line = Ok (Some h, contigs)) \/
  (exists entry, bam_record cmc contigs_in_sample entry = Ok (Some h, contigs)) ->
  h_start h <= h_stop h /\ (0 <= h_identity h)%Q /\ (h_identity h <= 100)%Q.
Proof.
  intros [(line & Hline)|(entry & Hrec)].
  - unfold sam_line in Hline. destruct (negb _); [discriminate|].
    destruct (py_getitem (py_split line) 2) as [c|]; rsimpl; [|discriminate].
    destruct (cmc !! c) as [e|]; [|discriminate].
    destruct (find_mdz _ _ _) as [field|]; rsimpl; [|discriminate].
    destruct (mdz_hit e (py_split line) (str_drop 5 field)) as [h'|] eqn:Hhit; rsimpl;
      [|discriminate].
    injection Hline as <- _. eapply mdz_hit_bounds, Hhit.
  - unfold bam_record in Hrec. destruct (negb _); [discriminate|].
    destruct (py_getitem (py_split (bam_to_string entry)) 2) as [c|]; rsimpl; [|discriminate].
    destruct (cmc !! c) as [e|]; [|discriminate].
    destruct (bam_md entry) as [v|]; rsimpl; [|discriminate].
    destruct (mdz_hit e _ v) as [h'|] eqn:Hhit; rsimpl; [|discriminate].
    injection Hrec as <- _. eapply mdz_hit_bounds, Hhit.
Qed.

Lemma tagged_hit_within_bounds_witness :
  (h_identity (Hit 1 1 (inject_Z 15 / inject_Z 16 * 100) 100 115) <= 100)%Q.
Proof.
  apply (tagged_hit_within_bounds demo_catalog [] ["ctgA"]
           (Hit 1 1 (inject_Z 15 / inject_Z 16 * 100) 100 115)).
  left. exists sam_10A5. vm_compute. reflexivity.
Defined.

Lemma py_getitem_beyond {A : Type} (l : list A) (i : Z) :
  len l <= i -> py_getitem l i = Raise IndexError.
Proof.
  intros Hi. unfold py_getitem, norm_index.
  destruct (Z.ltb_spec i (len l)); [lia|]. rewrite andb_false_r.
  destruct (Z.ltb_spec i 0); [unfold len in *; lia|]. rewrite andb_false_r. reflexivity.
Qed.

(** X10: a tagged-text line in which MD:Z: occurs, but with fewer
    than three fields, or naming a contig of the catalog while no field
    starts with MD:Z:, is not skipped: the parser raises [IndexError]
    (in the second case after the scan has run through the negative
    indices). *)
Theorem sam_line_without_tag_field_raises (cmc : gmap string catalog_entry)
    (contigs_in_sample : list string) (line : string) :
  contains "MD:Z:" line = true ->
  len (py_split line) < 3 \/
  (exists contig_ref e, py_getitem (py_split line) 2 = Ok contig_ref /\
                        cmc !! contig_ref = Some e /\
                        last_mdz_field (py_split line) = None) ->
  sam_line cmc contigs_in_sample line = Raise IndexError.
Proof.
  intros Htag Hcase. unfold sam_line. rewrite Htag. cbn [negb].
  destruct Hcase as [Hshort|(c & e & H2 & He & Hnone)].
  - rewrite py_getitem_beyond by lia. reflexivity.
  - rewrite H2. rsimpl. rewrite He, find_mdz_last, Hnone. reflexivity.
Qed.

Lemma sam_line_without_tag_field_raises_witness :
  sam_line demo_catalog [] "r1 0 ctgA 100 XMD:Z:5" = Raise IndexError.
Proof.
  apply (sam_line_without_tag_field_raises demo_catalog [] "r1 0 ctgA 100 XMD:Z:5" eq_refl).
  right. exists "ctgA", ("mag1", 1, 1). repeat split; reflexivity.
Defined.

(** ** What an ingestion leaves in the store *)

Lemma append_new_cases (l : list string) (x : string) :
  (In x l /\ append_new l x = l) \/ (~ In x l /\ append_new l x = l ++ [x]).
Proof.
  unfold append_new. destruct (existsb (String.eqb x) l) eqn:Hex.
  - left. split; [|reflexivity]. apply existsb_exists in Hex as (y & Hy & Heq).
    apply String.eqb_eq in Heq. subst y. exact Hy.
  - right. split; [|reflexivity]. intros Hin.
    assert (existsb (String.eqb x) l = true).
    { apply existsb_exists. exists x. split; [exact Hin|apply String.eqb_refl]. }
    congruence.
Qed.

Lemma append_new_NoDup (l : list string) (x : string) :
  List.NoDup l -> List.NoDup (append_new l x).
Proof.
  intros Hnd. destruct (append_new_cases l x) as [[_ ->]|[Hnot ->]]; [exact Hnd|].
  apply NoDup_ListNoDup, NoDup_app. repeat split.
  - apply NoDup_ListNoDup, Hnd.
  - intros y Hy Hy'. apply list_elem_of_In in Hy. apply list_elem_of_In in Hy'.
    destruct Hy' as [<-|[]]. auto.
  - apply NoDup_singleton.
Qed.

Lemma append_new_In (l : list string) (x y : string) :
  In y (append_new l x) <-> In y l \/ y = x.
Proof.
  destruct (append_new_cases l x) as [[Hin ->]|[_ ->]].
  - split; [auto|]. intros [H| ->]; assumption.
  - rewrite in_app_iff. simpl. split.
    + intros [H|[<-|[]]]; auto.
    + intros [H| ->]; auto.
Qed.

Lemma contigs_seen_append (cmc : gmap string catalog_entry) (l : list string) (c : string)
    (e : catalog_entry) :
  cmc !! c = Some e -> contigs_seen cmc l -> contigs_seen cmc (append_new l c).
Proof.
  intros He [Hnd Hall]. split; [apply append_new_NoDup, Hnd|].
  intros y Hy. apply append_new_In in Hy as [Hy| ->]; [auto|]. rewrite He. eauto.
Qed.

Lemma blast_line_contigs (cmc : gmap string catalog_entry) (cs cs' : list string)
    (line : string) (r : option hit) :
  blast_line cmc cs line = Ok (r, cs') -> contigs_seen cmc cs -> contigs_seen cmc cs'.
Proof.
  unfold blast_line. destruct (startswith line "#"); [intros [= _ <-]; auto|].
  destruct (py_getitem _ 1) as [c|]; rsimpl; [|discriminate].
  destruct (cmc !! c) as [e|] eqn:He; [|intros [= _ <-]; auto].
  destruct (py_getitem _ 2) as [f2|]; rsimpl; [|discriminate].
  destruct (py_float f2); rsimpl; [|discriminate].
  destruct (py_getitem _ 8) as [f8|]; rsimpl; [|discriminate].
  destruct (py_int f8); rsimpl; [|discriminate].
  destruct (py_getitem _ 9) as [f9|]; rsimpl; [|discriminate].
  destruct (py_int f9); rsimpl; [|discriminate].
  intros [= _ <-] Hseen. eapply contigs_seen_append; eauto.
Qed.

Lemma sam_line_contigs (cmc : gmap string catalog_entry) (cs cs' : list string)
    (line : string) (r : option hit) :
  sam_line cmc cs line = Ok (r, cs') -> contigs_seen cmc cs -> contigs_seen cmc cs'.
Proof.
  unfold sam_line. destruct (negb _); [intros [= _ <-]; auto|].
  destruct (py_getitem _ 2) as [c|]; rsimpl; [|discriminate].
  destruct (cmc !! c) as [e|] eqn:He; [|intros [= _ <-]; auto].
  destruct (find_mdz _ _ _) as [field|]; rsimpl; [|discriminate].
  destruct (mdz_hit _ _ _); rsimpl; [|discriminate].
  intros [= _ <-] Hseen. eapply contigs_seen_append; eauto.
Qed.

Lemma bam_record_contigs (cmc : gmap string catalog_entry) (cs cs' : list string)
    (entry : bam_entry) (r : option hit) :
  bam_record cmc cs entry = Ok (r, cs') -> contigs_seen cmc cs -> contigs_seen cmc cs'.
Proof.
  unfold bam_record. destruct (negb _); [intros [= _ <-]; auto|].
  destruct (py_getitem _ 2) as [c|]; rsimpl; [|discriminate].
  destruct (cmc !! c) as [e|] eqn:He; [|intros [= _ <-]; auto].
  destruct (bam_md entry); rsimpl; [|discriminate].
  destruct (mdz_hit _ _ _); rsimpl; [|discriminate].
  intros [= _ <-] Hseen. eapply contigs_seen_append; eauto.
Qed.

Lemma parse_records_contigs {L : Type} (cmc : gmap string catalog_entry)
    (step : list string -> L -> result (option hit * list string)) (input : list L) :
  (forall cs x r cs', step cs x = Ok (r, cs') -> contigs_seen cmc cs -> contigs_seen cmc cs') ->
  forall cs hits cs',
    parse_records step input cs = Ok (hits, cs') -> contigs_seen cmc cs -> contigs_seen cmc cs'.
Proof.
  intros Hstep. induction input as [|x input IH]; intros cs hits cs'; cbn [parse_records].
  - intros [= _ <-]. auto.
  - destruct (step cs x) as [[r cs1]|] eqn:Hx; rsimpl; [|discriminate].
    destruct (parse_records step input cs1) as [[hs cs2]|] eqn:Hrest; rsimpl; [|discriminate].
    intros [= _ <-] Hseen. eapply IH; [exact Hrest|]. eapply Hstep; eauto.
Qed.

(** X11: when the file parses, [save_reads_mapped] leaves in the table
    of the sample the rows it had followed by every retained hit of the
    file, in file order, wherever the batches of 500000 fall; it
    changes no other table and none of the fixed relations, and the
    contig names it returns are names of the catalog, each once. *)
Theorem ingestion_stores_every_hit (fs : filesystem)
    (mapping_file sample_name map_format : string)
    (contig_mag_corresp : gmap string catalog_entry) (db : database)
    (rows hits : list hit) (contigs : list string) :
  tables db !! sample_name = Some rows ->
  tables db !! (sample_name +:+ "_index") = None ->
  indexes db !! (sample_name +:+ "_index") = None ->
  parse_file fs mapping_file map_format contig_mag_corresp = Ok (hits, contigs) ->
  let r := save_reads_mapped fs mapping_file sample_name map_format contig_mag_corresp db in
  r.2 = Ok contigs /\
  tables r.1 !! sample_name = Some (rows ++ hits) /\
  (forall t, t <> sample_name -> tables r.1 !! t = tables db !! t) /\
  lookup_table r.1 = lookup_table db /\ mag_info r.1 = mag_info db /\
  sample_info r.1 = sample_info db /\ mags_per_sample r.1 = mags_per_sample db /\
  List.NoDup contigs /\
  (forall c, In c contigs -> is_Some (contig_mag_corresp !! c)).
Proof.
  intros Ht Hti Hi Hparse. cbv zeta.
  rewrite (save_reads_mapped_ok _ _ _ _ _ _ rows hits contigs Ht Hti Hi Hparse).
  cbn [fst snd tables set_tables lookup_table mag_info sample_info mags_per_sample].
  split; [reflexivity|]. split; [apply lookup_insert_eq|].
  split; [intros t Hne; apply lookup_insert_ne; congruence|].
  do 4 (split; [reflexivity|]).
  assert (Hseen : contigs_seen contig_mag_corresp contigs).
  { assert (Hnil : contigs_seen contig_mag_corresp []).
    { split; [constructor|intros c []]. }
    unfold parse_file in Hparse.
    destruct (String.eqb map_format "blast");
      [|destruct (String.eqb map_format "sam");
        [|destruct (String.eqb map_format "bam"); [|discriminate]]].
    - destruct (text_files fs !! mapping_file); [|discriminate].
      eapply parse_records_contigs; [|exact Hparse|exact Hnil].
      intros. eapply blast_line_contigs; eauto.
    - destruct (text_files fs !! mapping_file); [|discriminate].
      eapply parse_records_contigs; [|exact Hparse|exact Hnil].
      intros. eapply sam_line_contigs; eauto.
    - destruct (bam_files fs !! mapping_file); [|discriminate].
      eapply parse_records_contigs; [|exact Hparse|exact Hnil].
      intros. eapply bam_record_contigs; eauto. }
  exact Hseen.
Qed.

Lemma ingestion_stores_every_hit_witness :
  tables (save_reads_mapped demo_fs "a.blast" "sample_9" "blast" demo_catalog
            (set_tables (<["sample_9" := [Hit 1 1 90 1 5]]> (tables demo_db))
               (indexes demo_db) demo_db)).1 !! "sample_9"
  = Some [Hit 1 1 90 1 5; Hit 1 1 (985 # 10) 100 150].
Proof.
  apply (ingestion_stores_every_hit demo_fs "a.blast" "sample_9" "blast" demo_catalog
           (set_tables (<["sample_9" := [Hit 1 1 90 1 5]]> (tables demo_db))
              (indexes demo_db) demo_db)
           [Hit 1 1 90 1 5] [Hit 1 1 (985 # 10) 100 150] ["ctgA"]);
    vm_compute; reflexivity.
Defined.

(** ** MAGs of a sample *)

Lemma mags_in_sample_fold (contigs : list string) (rows : list (string * Z * string * Z)) :
  forall acc,
    List.NoDup acc ->
    let mags := fold_left (fun mags_in_sample element =>
                  if existsb (String.eqb element.1.2) contigs
                  then append_new mags_in_sample element.1.1.1
                  else mags_in_sample) rows acc in
    List.NoDup mags /\
    forall mag, In mag mags <->
      In mag acc \/ exists row, In row rows /\ row.1.1.1 = mag /\ In row.1.2 contigs.
Proof.
  induction rows as [|row rows IH]; intros acc Hnd; cbv zeta; cbn [fold_left].
  - split; [exact Hnd|]. intros mag. split; [auto|]. intros [H|(r & [] & _)]. exact H.
  - destruct (existsb (String.eqb row.1.2) contigs) eqn:Hex.
    + destruct (IH (append_new acc row.1.1.1) (append_new_NoDup _ _ Hnd)) as (Hnd' & Hin).
      split; [exact Hnd'|]. intros mag. rewrite Hin, append_new_In.
      apply existsb_exists in Hex as (c & Hc & Heq). apply String.eqb_eq in Heq. subst c.
      split.
      * intros [[H| ->]|(r & Hr & Hm & Hcs)]; [auto| |].
        -- right. exists row. repeat split; auto. left. reflexivity.
        -- right. exists r. repeat split; auto. right. exact Hr.
      * intros [H|(r & [<-|Hr] & Hm & Hcs)]; [auto|auto|]. right. eauto.
    + destruct (IH acc Hnd) as (Hnd' & Hin). split; [exact Hnd'|].
      intros mag. rewrite Hin. split.
      * intros [H|(r & Hr & Hm & Hcs)]; [auto|]. right. exists r. repeat split; auto.
        right. exact Hr.
      * intros [H|(r & [<-|Hr] & Hm & Hcs)]; [auto| |right; eauto].
        exfalso. assert (existsb (String.eqb row.1.2) contigs = true).
        { apply existsb_exists. exists row.1.2. split; [exact Hcs|apply String.eqb_refl]. }
        congruence.
Qed.

(** X12: the MAG names written to [mags_per_sample] for a sample are
    the MAGs of [lookup_table] that own at least one contig the sample
    has a hit on, each name once. *)
Theorem mags_of_sample_exact (all_contigs : list (string * Z * string * Z))
    (contigs_in_sample : list string) :
  List.NoDup (mags_in_sample_of all_contigs contigs_in_sample) /\
  forall mag, In mag (mags_in_sample_of all_contigs contigs_in_sample) <->
    exists row, In row all_contigs /\ row.1.1.1 = mag /\ In row.1.2 contigs_in_sample.
Proof.
  destruct (mags_in_sample_fold contigs_in_sample all_contigs [] (List.NoDup_nil _))
    as (Hnd & Hin).
  split; [exact Hnd|]. intros mag. unfold mags_in_sample_of. rewrite Hin.
  split; [intros [[]|H]; exact H|auto].
Qed.

(** ** Adding samples *)

Lemma samples_dict_absent (rows : list (string * string * Z)) (name : string) :
  ~ In name (map (fun r => r.1.1) rows) -> samples_dict_of rows !! name = None.
Proof.
  intros Hnot. unfold samples_dict_of. rewrite samples_dict_other by exact Hnot.
  apply lookup_empty.
Qed.

Lemma last_sample_fold (rows : list (string * string * Z)) : forall acc,
  let last := fold_left (fun last_sample sample =>
                if last_sample <? sample.2 then sample.2 else last_sample) rows acc in
  acc <= last /\ forall row, In row rows -> row.2 <= last.
Proof.
  induction rows as [|r rows IH]; intros acc; cbv zeta; cbn [fold_left].
  - split; [lia|intros ? []].
  - destruct (IH (if acc <? r.2 then r.2 else acc)) as (Hacc & Hall).
    destruct (Z.ltb_spec acc r.2); (split; [lia|]); intros row [<-|Hin]; auto; lia.
Qed.

(** X13: when a file is added under a name the store does not have,
    the sample gets the number after the largest one in [sample_info]
    and the table [sample_<number>], which then holds the hits of the
    file; one row is appended to [sample_info], the membership rows of
    the sample are appended to [mags_per_sample], and no other table
    changes. *)
Theorem new_sample_appended (fs : filesystem) (map_format new_sample : string)
    (db : database) (hits : list hit) (contigs : list string) :
  let number := last_sample_of (sample_info db) + 1 in
  let sample_id := "sample_" +:+ pretty number in
  ~ In new_sample (map (fun r => r.1.1) (sample_info db)) ->
  tables db !! sample_id = None -> indexes db !! sample_id = None ->
  tables db !! (sample_id +:+ "_index") = None ->
  indexes db !! (sample_id +:+ "_index") = None ->
  parse_file fs new_sample map_format (contig_mag_corresp_of (lookup_table db))
    = Ok (hits, contigs) ->
  let r := add_sample fs [new_sample] map_format db in
  r.2 = Ok tt /\
  sample_info r.1 = sample_info db ++ [(new_sample, sample_id, number)] /\
  (forall row, In row (sample_info db) -> row.2 < number) /\
  tables r.1 !! sample_id = Some hits /\
  (forall t, t <> sample_id -> tables r.1 !! t = tables db !! t) /\
  mags_per_sample r.1
    = mags_per_sample db
      ++ map (pair new_sample) (mags_in_sample_of (lookup_table db) contigs) /\
  lookup_table r.1 = lookup_table db /\ mag_info r.1 = mag_info db.
Proof.
  intros number sample_id Hnew Ht Hi Hti Hii Hparse.
  pose proof (samples_dict_absent _ _ Hnew) as Hdict.
  set (cmc := contig_mag_corresp_of (lookup_table db)) in *.
  set (db1 := set_tables (<[sample_id := []]> (tables db)) (indexes db) db).
  set (db2 := set_tables (<[sample_id := [] ++ hits]> (tables db1))
                (<[sample_id +:+ "_index" := sample_id]> (indexes db1)) db1).
  set (mags := mags_in_sample_of (lookup_table db) contigs).
  set (db3 := set_mags_per_sample (mags_per_sample db2 ++ map (pair new_sample) mags) db2).
  set (db4 := set_sample_info (sample_info db3 ++ [(new_sample, sample_id, number)]) db3).
  assert (Hcreate : create_table sample_id db = (db1, Ok tt)).
  { unfold create_table. rewrite Ht, Hi. reflexivity. }
  assert (Hsave : save_reads_mapped fs new_sample sample_id map_format cmc db1
                  = (db2, Ok contigs)).
  { apply save_reads_mapped_ok; [| | |exact Hparse].
    - cbn [tables db1 set_tables]. apply lookup_insert_eq.
    - cbn [tables db1 set_tables].
      rewrite lookup_insert_ne by apply index_name_differs. exact Hti.
    - exact Hii. }
  assert (Hinfo : insert_sample_info (new_sample, sample_id, number) db3 = (db4, Ok tt)).
  { unfold insert_sample_info. cbn [fst snd sample_info db3 db2 db1 set_mags_per_sample
      set_tables].
    replace (existsb _ (sample_info db)) with false; [reflexivity|].
    symmetry. apply not_true_is_false. intros Hex.
    apply existsb_exists in Hex as (row & Hrow & Heq). apply String.eqb_eq in Heq.
    apply Hnew. rewrite <- Heq. apply (in_map (fun r => r.1.1)), Hrow. }
  assert (Hrun : add_sample fs [new_sample] map_format db = (db4, Ok tt)).
  { unfold add_sample. rewrite db_bind_unfold. unfold db_get at 1. cbv beta iota zeta.
    fold cmc. cbn [add_sample_loop]. rewrite Hdict. cbv zeta. fold number. fold sample_id.
    rewrite db_bind_unfold. rewrite db_bind_unfold, Hcreate. cbv beta iota.
    rewrite db_bind_unfold. unfold ingest_sample.
    rewrite db_bind_unfold, Hsave. cbv beta iota.
    rewrite db_bind_unfold. change (db_get db2) with (db2, Ok db2). cbv beta iota.
    change (insert_mags_per_sample _ db2) with (db3, Ok tt). cbv beta iota.
    rewrite db_bind_unfold, Hinfo. reflexivity. }
  cbv zeta. fold number. fold sample_id. rewrite Hrun. cbn [fst snd].
  split; [reflexivity|]. split; [reflexivity|]. split.
  { intros row Hrow. destruct (last_sample_fold (sample_info db) 0) as (_ & Hall).
    specialize (Hall row Hrow). unfold number, last_sample_of. lia. }
  split.
  { cbn [tables db4 db3 db2 set_sample_info set_mags_per_sample set_tables].
    apply lookup_insert_eq. }
  split.
  { intros t Hne. cbn [tables db4 db3 db2 db1 set_sample_info set_mags_per_sample set_tables].
    rewrite !lookup_insert_ne by congruence. reflexivity. }
  repeat split; reflexivity.
Qed.

Lemma new_sample_appended_witness :
  sample_info (add_sample
                 (Filesystem {[ "c.blast" := [blast_ctgA] ]} ∅) ["c.blast"] "blast" demo_db).1
  = sample_info demo_db ++ [("c.blast", "sample_3", 3)].
Proof.
  apply (new_sample_appended (Filesystem {[ "c.blast" := [blast_ctgA] ]} ∅) "blast" "c.blast"
           demo_db [Hit 1 1 (985 # 10) 100 150] ["ctgA"]).
  - simpl. intros [H|[H|[]]]; discriminate.
  - reflexivity.
  - reflexivity.
  - reflexivity.
  - reflexivity.
  - vm_compute. reflexivity.
Defined.

(** X14: re-adding an existing sample is destructive before it is
    checked.  When the file of the sample cannot be opened, or the
    format is not one of blast, sam and bam, [add_sample] raises
    ([FileNotFoundError], [AssertionError]), and by then the table of
    the sample is empty and its membership rows are deleted. *)
Theorem failed_reingest_empties_sample (fs : filesystem)
    (map_format new_sample sample_id : string) (n : Z) (db : database) :
  List.NoDup (map (fun r => r.1.1) (sample_info db)) ->
  In (new_sample, sample_id, n) (sample_info db) ->
  indexes db !! sample_id = None ->
  text_files fs !! new_sample = None -> bam_files fs !! new_sample = None ->
  let r := add_sample fs [new_sample] map_format db in
  r.2 = Raise (if String.eqb map_format "blast" || String.eqb map_format "sam"
                  || String.eqb map_format "bam"
               then FileNotFoundError else AssertionError) /\
  tables r.1 !! sample_id = Some [] /\
  List.filter (fun row => String.eqb row.1 new_sample) (mags_per_sample r.1) = [] /\
  sample_info r.1 = sample_info db.
Proof.
  intros Hnd Hrow Hi Htext Hbam.
  pose proof (samples_dict_row _ _ _ _ Hnd Hrow) as Hdict.
  set (cmc := contig_mag_corresp_of (lookup_table db)) in *.
  set (db1 := set_tables (delete sample_id (tables db))
                (filter (fun kv => kv.2 <> sample_id) (indexes db)) db).
  set (db2 := set_tables (<[sample_id := []]> (tables db1)) (indexes db1) db1).
  set (db3 := set_mags_per_sample
                (List.filter (fun r => negb (String.eqb r.1 new_sample)) (mags_per_sample db2))
                db2).
  set (e := if String.eqb map_format "blast" || String.eqb map_format "sam"
               || String.eqb map_format "bam"
            then FileNotFoundError else AssertionError).
  assert (Hcreate : create_table sample_id db1 = (db2, Ok tt)).
  { unfold create_table. cbn [tables indexes db1 set_tables].
    rewrite lookup_delete_eq.
    rewrite (proj2 (map_lookup_filter_None _ _ _)) by (left; exact Hi). reflexivity. }
  assert (Hsave : save_reads_mapped fs new_sample sample_id map_format cmc db3
                  = (db3, Raise e)).
  { unfold save_reads_mapped, open_text, open_bam, e. rewrite Htext, Hbam.
    destruct (String.eqb map_format "blast"); [reflexivity|].
    destruct (String.eqb map_format "sam"); [reflexivity|].
    destruct (String.eqb map_format "bam"); reflexivity. }
  assert (Hrun : add_sample fs [new_sample] map_format db = (db3, Raise e)).
  { unfold add_sample. rewrite db_bind_unfold. unfold db_get at 1. cbv beta iota zeta.
    fold cmc. cbn [add_sample_loop]. rewrite Hdict.
    rewrite db_bind_unfold. rewrite db_bind_unfold.
    change (drop_table_if_exists sample_id db) with (db1, Ok tt). cbv beta iota.
    rewrite db_bind_unfold, Hcreate. cbv beta iota.
    rewrite db_bind_unfold.
    change (delete_mags_per_sample new_sample db2) with (db3, Ok tt). cbv beta iota.
    rewrite db_bind_unfold. unfold ingest_sample.
    rewrite db_bind_unfold, Hsave. reflexivity. }
  cbv zeta. rewrite Hrun. cbn [fst snd]. fold e.
  split; [reflexivity|]. split.
  { cbn [tables db3 db2 set_mags_per_sample set_tables]. apply lookup_insert_eq. }
  split; [|reflexivity].
  cbn [mags_per_sample db3 db2 db1 set_mags_per_sample set_tables].
  apply filter_negb_same.
Qed.

Lemma failed_reingest_empties_sample_witness :
  (add_sample (Filesystem ∅ ∅) ["a.blast"] "blast" demo_db).2 = Raise FileNotFoundError /\
  tables demo_db !! "sample_1" = Some [Hit 2 3 99 1 10; Hit 2 3 97 20 40] /\
  tables (add_sample (Filesystem ∅ ∅) ["a.blast"] "blast" demo_db).1 !! "sample_1" = Some [].
Proof.
  destruct (failed_reingest_empties_sample (Filesystem ∅ ∅) "blast" "a.blast" "sample_1" 1
              demo_db) as (Hr & Ht & _).
  - simpl. constructor; [simpl; intros [H|[]]; discriminate|].
    constructor; [simpl; tauto|constructor].
  - simpl. tauto.
  - reflexivity.
  - reflexivity.
  - reflexivity.
  - split; [exact Hr|]. split; [reflexivity|exact Ht].
Defined.

(** ** Numbering of the catalog *)

Lemma string_app_inj (p s t : string) : p +:+ s = p +:+ t -> s = t.
Proof. induction p as [|c p IH]; simpl; [auto|]. intros [= H]. auto. Qed.

Lemma samples_to_db_rows (sample_reads : list string) : forall k,
  samples_to_db_loop sample_reads k
  = map (fun kn => (kn.2, "sample_" +:+ pretty kn.1, kn.1))
        (zip (seqZ k (len sample_reads)) sample_reads).
Proof.
  induction sample_reads as [|name rest IH]; intros k; [reflexivity|].
  cbn [samples_to_db_loop]. unfold len. rewrite seqZ_cons by (simpl; lia).
  replace (Z.pred (Z.of_nat (length (name :: rest)))) with (len rest)
    by (unfold len; simpl; lia).
  simpl. f_equal. replace (Z.succ k) with (k + 1) by lia. apply IH.
Qed.

Lemma sample_ids_distinct (sample_reads : list string) (k : Z) :
  List.NoDup (map (fun r => r.1.2) (samples_to_db_loop sample_reads k)).
Proof.
  rewrite samples_to_db_rows, map_map. cbn [fst snd].
  assert (Hids : map (fun kn : Z * string => "sample_" +:+ pretty kn.1)
                   (zip (seqZ k (len sample_reads)) sample_reads)
                 = map (fun i => "sample_" +:+ pretty i) (seqZ k (len sample_reads))).
  { unfold len. generalize k. induction sample_reads as [|x l IH]; intros k0; [reflexivity|].
    rewrite seqZ_cons by (simpl; lia).
    replace (Z.pred (Z.of_nat (length (x :: l)))) with (Z.of_nat (length l)) by (simpl; lia).
    simpl. f_equal. apply IH. }
  rewrite Hids. apply NoDup_ListNoDup.
  change (map ?f ?l) with (f <$> l). apply NoDup_fmap_2; [|apply NoDup_seqZ].
  intros i j Heq. apply string_app_inj in Heq. apply (inj pretty). exact Heq.
Qed.

(** X15: in the catalog, the contigs of the membership input are
    numbered 1, 2, ... in its order, across MAGs, and the samples are
    numbered 1, 2, ... in the order given, sample k under the id
    [sample_k]; no two samples share an id. *)
Theorem catalog_numbering (contig_sizes : list (string * Z))
    (contig_mag_corresp : list (string * string)) (sample_reads : list string)
    (db : database) :
  distinct sample_reads = true ->
  let r := sqldb_creation_catalog contig_sizes contig_mag_corresp sample_reads db in
  map (fun row => (row.1.2, row.2)) (lookup_table r.1)
    = zip (map fst contig_mag_corresp) (seqZ 1 (len contig_mag_corresp)) /\
  sample_info r.1
    = map (fun kn => (kn.2, "sample_" +:+ pretty kn.1, kn.1))
          (zip (seqZ 1 (len sample_reads)) sample_reads) /\
  List.NoDup (map (fun row => row.1.2) (sample_info r.1)).
Proof.
  intros Hd. destruct (catalog_run contig_sizes contig_mag_corresp sample_reads db Hd)
    as (Hrows & _). cbv zeta in *. split; [|split].
  - rewrite Hrows, contig_identifiers_names_ids. reflexivity.
  - unfold sqldb_creation_catalog. rewrite Hd. cbn [negb].
    destruct (contig_lengths_loop _ _ _); cbn [fst sample_info set_sample_info];
      apply samples_to_db_rows.
  - unfold sqldb_creation_catalog. rewrite Hd. cbn [negb].
    destruct (contig_lengths_loop _ _ _); cbn [fst sample_info set_sample_info];
      apply sample_ids_distinct.
Qed.

Lemma catalog_numbering_witness :
  sample_info (sqldb_creation_catalog [("ctgA", 100)] [("ctgA", "mag1"); ("ctgB", "mag2")]
                 ["a.blast"; "b.blast"] empty_db).1
  = [("a.blast", "sample_1", 1); ("b.blast", "sample_2", 2)].
Proof.
  apply (catalog_numbering [("ctgA", 100)] [("ctgA", "mag1"); ("ctgB", "mag2")]
           ["a.blast"; "b.blast"] empty_db).
  reflexivity.
Defined.

Lemma contig_identifiers_mag_ids (items : list (string * string)) :
  forall mag_ids mag_id contig_id acc,
    mag_ids_consistent mag_ids mag_id acc ->
    exists mag_ids' mag_id',
      mag_ids_consistent mag_ids' mag_id'
        (contig_identifiers_loop items mag_ids mag_id contig_id acc).
Proof.
  induction items as [|[contig_name mag_name] items IH];
    intros mag_ids mag_id contig_id acc (H0 & Hrange & Hinj & Hrows); cbn [contig_identifiers_loop];
    unfold mag_ids_consistent in *.
  - exists mag_ids, mag_id. split; [exact H0|split; [exact Hrange|split; [exact Hinj|exact Hrows]]].
  - destruct (mag_ids !! mag_name) as [m|] eqn:Hm.
    + apply IH. split; [exact H0|split; [exact Hrange|split; [exact Hinj|]]].
      intros row Hin. apply in_app_iff in Hin as [Hin|[<-|[]]]; auto.
    + apply IH. split; [lia|split; [|split]].
      * intros name id Hlk. destruct (decide (mag_name = name)) as [->|Hne].
        -- rewrite lookup_insert_eq in Hlk. injection Hlk as <-. lia.
        -- rewrite lookup_insert_ne in Hlk by exact Hne. specialize (Hrange _ _ Hlk). lia.
      * intros n1 n2 id H1 H2.
        destruct (decide (mag_name = n1)) as [E1|Hne1];
          destruct (decide (mag_name = n2)) as [E2|Hne2].
        -- congruence.
        -- subst n1. rewrite lookup_insert_eq in H1.
           rewrite lookup_insert_ne in H2 by exact Hne2.
           injection H1 as <-. specialize (Hrange _ _ H2). lia.
        -- subst n2. rewrite lookup_insert_eq in H2.
           rewrite lookup_insert_ne in H1 by exact Hne1.
           injection H2 as <-. specialize (Hrange _ _ H1). lia.
        -- rewrite lookup_insert_ne in H1, H2 by assumption. eauto.
      * intros row Hin. apply in_app_iff in Hin as [Hin|[<-|[]]].
        -- specialize (Hrows row Hin). rewrite lookup_insert_ne; [exact Hrows|].
           intros Heq. rewrite <- Heq in Hrows. congruence.
        -- apply lookup_insert_eq.
Qed.

(** X16: MAG ids in [lookup_table] start at 1, and two rows carry the
    same MAG id exactly when they carry the same MAG name. *)
Theorem mag_ids_follow_names (contig_sizes : list (string * Z))
    (contig_mag_corresp : list (string * string)) (sample_reads : list string)
    (db : database) (row1 row2 : string * Z * string * Z) :
  distinct sample_reads = true ->
  let r := sqldb_creation_catalog contig_sizes contig_mag_corresp sample_reads db in
  In row1 (lookup_table r.1) -> In row2 (lookup_table r.1) ->
  1 <= row1.1.1.2 /\ (row1.1.1.1 = row2.1.1.1 <-> row1.1.1.2 = row2.1.1.2).
Proof.
  intros Hd. destruct (catalog_run contig_sizes contig_mag_corresp sample_reads db Hd)
    as (Hrows & _). cbv zeta in *. rewrite Hrows.
  destruct (contig_identifiers_mag_ids contig_mag_corresp ∅ 0 1 [])
    as (mag_ids & mag_id & _ & Hrange & Hinj & Hall).
  { split; [lia|]. split; [|split].
    - intros name id Hlk. rewrite lookup_empty in Hlk. discriminate.
    - intros n1 n2 id Hlk. rewrite lookup_empty in Hlk. discriminate.
    - intros row []. }
  intros H1 H2. pose proof (Hall _ H1) as Hl1. pose proof (Hall _ H2) as Hl2.
  split; [apply (Hrange _ _ Hl1)|]. split.
  - intros Heq. rewrite Heq in Hl1. congruence.
  - intros Heq. rewrite Heq in Hl1. eapply Hinj; eassumption.
Qed.

Lemma mag_ids_follow_names_witness :
  In ("mag1", 1, "ctgC", 3)
    (lookup_table
       (sqldb_creation_catalog []
          [("ctgA", "mag1"); ("ctgB", "mag2"); ("ctgC", "mag1")] [] empty_db).1) /\
  (1 <= 1 /\ ("mag1" = "mag1" <-> 1 = 1)).
Proof.
  split; [vm_compute; tauto|].
  apply (mag_ids_follow_names []
           [("ctgA", "mag1"); ("ctgB", "mag2"); ("ctgC", "mag1")] [] empty_db
           ("mag1", 1, "ctgA", 1) ("mag1", 1, "ctgC", 3) eq_refl).
  - vm_compute. tauto.
  - vm_compute. tauto.
Defined.

(** ** The readers of the catalog inputs *)

Lemma dict_set_keys {V : Type} (d : list (string * V)) (k : string) (v : V) :
  map fst (dict_set d k v) =
  if decide (k ∈ map fst d) then map fst d else map fst d ++ [k].
Proof.
  induction d as [|[k' v'] d IH].
  - cbn [dict_set map fst]. destruct (decide (k ∈ [])) as [Hin|_]; [inversion Hin|reflexivity].
  - cbn [dict_set map fst].
    destruct (String.eqb_spec k' k) as [->|Hne]; cbn [map fst].
    + destruct (decide (k ∈ k :: map fst d)) as [_|Hn]; [reflexivity|].
      exfalso. apply Hn. left.
    + rewrite IH.
      destruct (decide (k ∈ map fst d)) as [Hin|Hnin];
        destruct (decide (k ∈ k' :: map fst d)) as [Hor|Hnor];
        try reflexivity.
      * exfalso. apply Hnor. right. exact Hin.
      * apply elem_of_cons in Hor. destruct Hor as [E|Hin]; [congruence|contradiction].
Qed.

Lemma dict_set_fresh {V : Type} (d : list (string * V)) (k : string) (v : V) :
  k ∉ map fst d -> dict_set d k v = d ++ [(k, v)].
Proof.
  induction d as [|[k' v'] d IH]; simpl; intros Hnin; [reflexivity|].
  destruct (String.eqb_spec k' k) as [->|Hne].
  - exfalso. apply Hnin. left.
  - rewrite IH; [reflexivity|]. intros Hin. apply Hnin. right. exact Hin.
Qed.

Lemma dict_set_NoDup {V : Type} (d : list (string * V)) (k : string) (v : V) :
  NoDup (map fst d) -> NoDup (map fst (dict_set d k v)).
Proof.
  intros Hnd. rewrite dict_set_keys.
  destruct (decide (k ∈ map fst d)) as [Hin|Hnin]; [exact Hnd|].
  apply NoDup_app. split; [exact Hnd|split].
  - intros x Hx Hx'. apply list_elem_of_singleton in Hx'. subst x. contradiction.
  - apply NoDup_singleton.
Qed.

Lemma dict_get_set {V : Type} (d : list (string * V)) (k k' : string) (v : V) :
  dict_get (dict_set d k v) k' = if decide (k = k') then Some v else dict_get d k'.
Proof.
  unfold dict_get. induction d as [|[k0 v0] d IH]; simpl.
  - destruct (String.eqb_spec k k') as [->|Hne];
      destruct (decide _) as [E|E]; try reflexivity; congruence.
  - destruct (String.eqb_spec k0 k) as [->|Hne]; simpl.
    + destruct (String.eqb_spec k k') as [->|Hne'];
        destruct (decide _) as [E|E]; try reflexivity; congruence.
    + destruct (String.eqb_spec k0 k') as [->|Hne'].
      * destruct (decide (k = k')) as [E|E]; [congruence|reflexivity].
      * exact IH.
Qed.

Lemma fold_dict_set_NoDup {V : Type} (l d : list (string * V)) :
  NoDup (map fst d) ->
  NoDup (map fst (fold_left (fun d p => dict_set d p.1 p.2) l d)).
Proof.
  revert d. induction l as [|p l IH]; intros d Hnd; simpl; [exact Hnd|].
  apply IH, dict_set_NoDup, Hnd.
Qed.

Lemma fold_dict_set_fresh {V : Type} (l d : list (string * V)) :
  NoDup (map fst (d ++ l)) ->
  fold_left (fun d p => dict_set d p.1 p.2) l d = d ++ l.
Proof.
  revert d. induction l as [|[k v] l IH]; intros d Hnd; simpl.
  - rewrite app_nil_r. reflexivity.
  - assert (Hd : d ++ (k, v) :: l = (d ++ [(k, v)]) ++ l)
      by (rewrite <- app_assoc; reflexivity).
    rewrite dict_set_fresh.
    + rewrite IH; [symmetry; exact Hd|]. rewrite <- Hd. exact Hnd.
    + rewrite map_app in Hnd. simpl in Hnd.
      apply NoDup_app in Hnd.
      destruct Hnd as (_ & Hdisj & _). intros Hin.
      apply (Hdisj k); [exact Hin|]. left.
Qed.

Lemma find_app_last {A : Type} (f : A -> bool) (l : list A) (x : A) :
  List.find f (l ++ [x]) =
  match List.find f l with
  | Some y => Some y
  | None => if f x then Some x else None
  end.
Proof.
  induction l as [|a l IH]; simpl; [reflexivity|].
  destruct (f a); [reflexivity|exact IH].
Qed.

Lemma fold_dict_set_get {V : Type} (l d : list (string * V)) (k : string) :
  dict_get (fold_left (fun d p => dict_set d p.1 p.2) l d) k =
  match last_assigned l k with
  | Some v => Some v
  | None => dict_get d k
  end.
Proof.
  revert d. unfold last_assigned.
  induction l as [|[k0 v0] l IH]; intros d; simpl; [reflexivity|].
  rewrite IH, find_app_last.
  destruct (List.find _ (rev l)) as [p|]; simpl; [reflexivity|].
  rewrite dict_get_set.
  destruct (String.eqb_spec k0 k) as [->|Hne];
    destruct (decide _) as [E|E]; try reflexivity; congruence.
Qed.

Lemma read_contigs_loop_seq (seq rest : list string) (current_contig : string)
    (contig_length : Z) (contig_sizes : list (string * Z)) :
  Forall sequence_line seq ->
  read_contigs_loop (seq ++ rest) current_contig contig_length contig_sizes =
  read_contigs_loop rest current_contig (contig_length + seq_length seq) contig_sizes.
Proof.
  intros Hseq. revert contig_length.
  induction Hseq as [|line seq Hline _ IH]; intros contig_length.
  - unfold seq_length. simpl. rewrite Z.add_0_r. reflexivity.
  - destruct line as [|c line]; [destruct Hline|]. simpl in Hline.
    cbn [app read_contigs_loop]. rsimpl.
    destruct (Ascii.eqb_spec c ">"%char) as [E|_]; [contradiction|].
    rewrite IH. f_equal. unfold seq_length. simpl. lia.
Qed.

Lemma read_contigs_loop_header (line : string) (rest : list string)
    (current_contig : string) (contig_length : Z) (contig_sizes : list (string * Z)) :
  header_line line ->
  read_contigs_loop (line :: rest) current_contig contig_length contig_sizes =
  (name ← header_name line;
   read_contigs_loop rest name 0 (dict_set contig_sizes current_contig contig_length)).
Proof.
  intros Hline. destruct line as [|c line]; [destruct Hline|]. simpl in Hline. subst c.
  cbn [read_contigs_loop]. rsimpl. reflexivity.
Qed.

Lemma read_contigs_loop_records (records : list fasta_record)
    (current_contig : string) (contig_length : Z) (contig_sizes : list (string * Z)) :
  Forall (fun r => fasta_record_ok r /\ header_line (fr_header r)) records ->
  read_contigs_loop (fasta_lines records) current_contig contig_length contig_sizes =
  Ok (fold_left (fun d p => dict_set d p.1 p.2)
        ((current_contig, contig_length) :: fasta_sizes records) contig_sizes).
Proof.
  intros Hrecords. revert current_contig contig_length contig_sizes.
  induction Hrecords as [|r records [[Hname Hseq] Hhead] _ IH];
    intros current_contig contig_length contig_sizes; [reflexivity|].
  change (fasta_lines (r :: records))
    with (fr_header r :: (fr_seq r ++ fasta_lines records)).
  rewrite read_contigs_loop_header by exact Hhead.
  rewrite Hname. rsimpl. rewrite read_contigs_loop_seq by exact Hseq.
  rewrite IH. reflexivity.
Qed.

Lemma fasta_lines_cons_app (r : fasta_record) (records : list fasta_record)
    (rest : list string) :
  fasta_lines (r :: records) ++ rest =
  fr_header r :: (fr_seq r ++ (fasta_lines records ++ rest)).
Proof. unfold fasta_lines. simpl. rewrite <- app_assoc. reflexivity. Qed.

Lemma read_contigs_loop_nameless (records : list fasta_record) (bad : string)
    (post : list string) (current_contig : string) (contig_length : Z)
    (contig_sizes : list (string * Z)) :
  Forall (fun r => fasta_record_ok r /\ header_line (fr_header r)) records ->
  header_line bad ->
  py_split (strip (str_drop 1 bad)) = [] ->
  read_contigs_loop (fasta_lines records ++ bad :: post) current_contig contig_length
    contig_sizes = Raise IndexError.
Proof.
  intros Hrecords Hbad Hnone. revert current_contig contig_length contig_sizes.
  induction Hrecords as [|r records [[Hname Hseq] Hhead] _ IH];
    intros current_contig contig_length contig_sizes.
  - cbn [fasta_lines flat_map app]. rewrite read_contigs_loop_header by exact Hbad.
    unfold header_name. rewrite Hnone. reflexivity.
  - rewrite fasta_lines_cons_app.
    rewrite read_contigs_loop_header by exact Hhead.
    rewrite Hname. rsimpl. rewrite read_contigs_loop_seq by exact Hseq.
    apply IH.
Qed.

(** X17: on a FASTA file made of records (a header line carrying a
    name, then sequence lines; every header after the first starts with
    [>]), [read_contigs] returns a dictionary with distinct keys in
    which each name has the number of bases of the last record of that
    name, the bases being the characters of its lines without the
    surrounding white space; with distinct names the dictionary is the
    list of the records' names and sizes in file order.  The first
    character of the first line is dropped without being looked at. *)
Theorem read_contigs_sizes (r : fasta_record) (rs : list fasta_record) :
  fasta_record_ok r ->
  Forall (fun r' => fasta_record_ok r' /\ header_line (fr_header r')) rs ->
  exists contig_sizes,
    read_contigs (fasta_lines (r :: rs)) = Ok contig_sizes /\
    NoDup (map fst contig_sizes) /\
    (forall name,
        dict_get contig_sizes name = last_assigned (fasta_sizes (r :: rs)) name) /\
    (NoDup (map fr_name (r :: rs)) -> contig_sizes = fasta_sizes (r :: rs)).
Proof.
  intros [Hname Hseq] Hrs.
  exists (fold_left (fun d p => dict_set d p.1 p.2) (fasta_sizes (r :: rs)) []).
  split; [|split; [|split]].
  - unfold read_contigs.
    change (fasta_lines (r :: rs)) with (fr_header r :: (fr_seq r ++ fasta_lines rs)).
    cbn [tail]. rewrite Hname. rsimpl.
    rewrite read_contigs_loop_seq by exact Hseq.
    rewrite read_contigs_loop_records by exact Hrs. reflexivity.
  - apply fold_dict_set_NoDup. constructor.
  - intros name. rewrite fold_dict_set_get.
    destruct (last_assigned _ name); reflexivity.
  - intros Hnd. rewrite fold_dict_set_fresh; [reflexivity|].
    cbn [app]. unfold fasta_sizes. rewrite map_map. exact Hnd.
Qed.

Lemma read_contigs_sizes_witness :
  read_contigs (fasta_lines demo_fasta) = Ok [("ctgA", 6); ("ctgB", 3)].
Proof.
  destruct (read_contigs_sizes
              (FastaRecord (">ctgA first contig" +:+ nl) "ctgA" ["ACGT" +:+ nl; "AC" +:+ nl])
              [FastaRecord (">ctgB" +:+ nl) "ctgB" ["GGG"]])
    as (d & Hd & _ & _ & Hlist).
  - split; [reflexivity|]. repeat constructor; simpl; discriminate.
  - repeat constructor; simpl; discriminate.
  - unfold demo_fasta. rewrite Hd. f_equal. apply Hlist.
    repeat constructor; simpl; intros Hin; inversion Hin; subst;
      try discriminate; match goal with H : _ ∈ [] |- _ => inversion H end.
Defined.

(** X18: a header line without a name stops [read_contigs] with
    IndexError: as the first line of the file (which covers the empty
    file, whose first line reads as the empty string), or as a later
    line starting with [>] after any number of well-formed records. *)
Theorem read_contigs_nameless_header (lines : list string) :
  (py_split (strip (str_drop 1 (hd EmptyString lines))) = [] \/
   exists r rs bad post,
     lines = fasta_lines (r :: rs) ++ bad :: post /\
     fasta_record_ok r /\
     Forall (fun r' => fasta_record_ok r' /\ header_line (fr_header r')) rs /\
     header_line bad /\
     py_split (strip (str_drop 1 bad)) = []) ->
  read_contigs lines = Raise IndexError.
Proof.
  intros [Hfirst|(r & rs & bad & post & -> & [Hname Hseq] & Hrs & Hbad & Hnone)].
  - unfold read_contigs, header_name.
    destruct lines as [|line rest]; cbn [hd] in Hfirst; cbv iota;
      rewrite Hfirst; reflexivity.
  - unfold read_contigs.
    rewrite fasta_lines_cons_app.
    cbn [tail]. rewrite Hname. rsimpl.
    rewrite read_contigs_loop_seq by exact Hseq.
    apply read_contigs_loop_nameless; assumption.
Qed.

Lemma read_contigs_nameless_header_witness :
  read_contigs [] = Raise IndexError /\
  read_contigs (fasta_lines demo_fasta ++ [">" +:+ nl; "ACGT" +:+ nl]) = Raise IndexError.
Proof.
  split.
  - apply read_contigs_nameless_header. left. reflexivity.
  - apply read_contigs_nameless_header. right.
    exists (FastaRecord (">ctgA first contig" +:+ nl) "ctgA" ["ACGT" +:+ nl; "AC" +:+ nl]),
      [FastaRecord (">ctgB" +:+ nl) "ctgB" ["GGG"]], (">" +:+ nl), ["ACGT" +:+ nl].
    split; [reflexivity|]. split; [|split; [|split]].
    + split; [reflexivity|]. repeat constructor; simpl; discriminate.
    + repeat constructor; simpl; discriminate.
    + reflexivity.
    + reflexivity.
Defined.

Lemma get_mags_loop_pairs (lines : list string) (mag_dict : list (string * string)) :
  Forall (fun line => 2 <= len (py_split line)) lines ->
  get_mags_loop lines mag_dict =
  Ok (fold_left (fun d p => dict_set d p.1 p.2) (mag_pairs lines) mag_dict).
Proof.
  intros Hlines. revert mag_dict.
  induction Hlines as [|line lines Hline _ IH]; intros mag_dict; [reflexivity|].
  cbv beta in Hline. cbn [get_mags_loop].
  rewrite (py_getitem_nth _ 1 EmptyString) by lia.
  rewrite (py_getitem_nth _ 0 EmptyString) by lia.
  rsimpl. rewrite IH. reflexivity.
Qed.

Lemma get_mags_loop_short (lines : list string) (bad : string) (post : list string)
    (mag_dict : list (string * string)) :
  Forall (fun line => 2 <= len (py_split line)) lines ->
  len (py_split bad) < 2 ->
  get_mags_loop (lines ++ bad :: post) mag_dict = Raise IndexError.
Proof.
  intros Hlines Hbad. revert mag_dict.
  induction Hlines as [|line lines Hline _ IH]; intros mag_dict.
  - cbn [app get_mags_loop]. rewrite (py_getitem_beyond _ 1) by lia. reflexivity.
  - cbv beta in Hline. cbn [app get_mags_loop].
    rewrite (py_getitem_nth _ 1 EmptyString) by lia.
    rewrite (py_getitem_nth _ 0 EmptyString) by lia.
    rsimpl. apply IH.
Qed.

(** X19: on a membership file whose lines all have at least two
    white-space separated fields, [get_mags] returns a dictionary with
    distinct contig names in which each contig has the MAG of the last
    line that names it (fields after the second are ignored); a line
    with fewer than two fields after such lines, for instance a blank
    line, stops it with IndexError. *)
Theorem get_mags_last_line_wins (lines : list string) :
  Forall (fun line => 2 <= len (py_split line)) lines ->
  (exists mag_dict,
      get_mags lines = Ok mag_dict /\
      NoDup (map fst mag_dict) /\
      (forall contig, dict_get mag_dict contig = last_assigned (mag_pairs lines) contig) /\
      (NoDup (map fst (mag_pairs lines)) -> mag_dict = mag_pairs lines)) /\
  (forall bad post,
      len (py_split bad) < 2 ->
      get_mags (lines ++ bad :: post) = Raise IndexError).
Proof.
  intros Hlines. split.
  - exists (fold_left (fun d p => dict_set d p.1 p.2) (mag_pairs lines) []).
    split; [|split; [|split]].
    + apply get_mags_loop_pairs, Hlines.
    + apply fold_dict_set_NoDup. constructor.
    + intros contig. rewrite fold_dict_set_get.
      destruct (last_assigned _ contig); reflexivity.
    + intros Hnd. rewrite fold_dict_set_fresh; [reflexivity|exact Hnd].
  - intros bad post Hbad. apply get_mags_loop_short; assumption.
Qed.

Lemma get_mags_last_line_wins_witness :
  (exists mag_dict,
      get_mags ["ctgA mag1" +:+ nl; "ctgB" +:+ String tab "mag2"; "ctgA mag3 extra"]
        = Ok mag_dict /\
      dict_get mag_dict "ctgA" = Some "mag3" /\
      dict_get mag_dict "ctgB" = Some "mag2") /\
  get_mags ["ctgA mag1" +:+ nl; "ctgB" +:+ String tab "mag2"; "ctgA mag3 extra"; nl]
    = Raise IndexError.
Proof.
  destruct (get_mags_last_line_wins
              ["ctgA mag1" +:+ nl; "ctgB" +:+ String tab "mag2"; "ctgA mag3 extra"])
    as [(d & Hd & _ & Hget & _) Hbad].
  - repeat constructor; vm_compute; discriminate.
  - split.
    + exists d. split; [exact Hd|]. rewrite !Hget. split; reflexivity.
    + apply (Hbad nl []). vm_compute. reflexivity.
Defined.

(** ** From the input files to the catalog *)

Lemma fold_dict_set_keys {V : Type} (l d : list (string * V)) (k : string) :
  In k (map fst (fold_left (fun d p => dict_set d p.1 p.2) l d)) <->
  In k (map fst d) \/ In k (map fst l).
Proof.
  revert d. induction l as [|[k0 v0] l IH]; intros d; simpl.
  - tauto.
  - rewrite IH, dict_set_keys.
    destruct (decide (k0 ∈ map fst d)) as [Hin|Hnin].
    + apply list_elem_of_In in Hin. split; [tauto|].
      intros [H|[H|H]]; [tauto|subst k; tauto|tauto].
    + rewrite in_app_iff. simpl. tauto.
Qed.

Lemma contig_lengths_loop_lens (rows : list (string * Z * string * Z))
    (items : list (string * Z)) : forall acc contig_lengths,
  contig_lengths_loop rows items acc = Ok contig_lengths ->
  map (fun row => row.2) contig_lengths = map (fun row => row.2) acc ++ map snd items.
Proof.
  induction items as [|[c l] items IH]; intros acc contig_lengths Hrun.
  - simpl in Hrun. injection Hrun as <-. rewrite app_nil_r. reflexivity.
  - cbn [contig_lengths_loop] in Hrun.
    destruct (select_ids rows c) as [[m i]|]; [|discriminate].
    rewrite (IH _ _ Hrun), map_app, <- app_assoc. reflexivity.
Qed.

(** X20: the readers composed with the catalog builder.  For a FASTA
    file of well-formed records and a membership file whose lines all
    have two fields, with distinct sample names: if every contig named
    in the FASTA file is the first field of some membership line, both
    files are read, the catalog is built without error, [mag_info] has
    one row per contig of the FASTA dictionary, in its order, with the
    contig's base count, and the ids of each row are those of the
    [lookup_table] row of that contig. *)
Theorem catalog_from_files (r : fasta_record) (rs : list fasta_record)
    (lines sample_reads : list string) (db : database) :
  fasta_record_ok r ->
  Forall (fun r' => fasta_record_ok r' /\ header_line (fr_header r')) rs ->
  Forall (fun line => 2 <= len (py_split line)) lines ->
  distinct sample_reads = true ->
  (forall name, In name (map fr_name (r :: rs)) -> In name (map fst (mag_pairs lines))) ->
  exists contig_sizes contig_mag_corresp,
    read_contigs (fasta_lines (r :: rs)) = Ok contig_sizes /\
    get_mags lines = Ok contig_mag_corresp /\
    let res := sqldb_creation_catalog contig_sizes contig_mag_corresp sample_reads db in
    res.2 = Ok tt /\
    map (fun row => row.2) (mag_info res.1) = map snd contig_sizes /\
    forall m c l, In (m, c, l) (mag_info res.1) ->
      exists name, In (name, l) contig_sizes /\
                   select_ids (lookup_table res.1) name = Some (m, c).
Proof.
  intros [Hname Hseq] Hrs Hlines Hd Hlisted.
  exists (fold_left (fun d p => dict_set d p.1 p.2) (fasta_sizes (r :: rs)) []),
    (fold_left (fun d p => dict_set d p.1 p.2) (mag_pairs lines) []).
  split; [|split].
  - unfold read_contigs.
    change (fasta_lines (r :: rs)) with (fr_header r :: (fr_seq r ++ fasta_lines rs)).
    cbn [tail]. rewrite Hname. rsimpl.
    rewrite read_contigs_loop_seq by exact Hseq.
    rewrite read_contigs_loop_records by exact Hrs. reflexivity.
  - apply get_mags_loop_pairs, Hlines.
  - set (contig_sizes := fold_left _ (fasta_sizes (r :: rs)) []).
    set (contig_mag_corresp := fold_left _ (mag_pairs lines) []).
    destruct (catalog_run contig_sizes contig_mag_corresp sample_reads db Hd)
      as (Hrows & Hrun). cbv zeta in *.
    destruct (contig_lengths_loop_ok
                (contig_identifiers_loop contig_mag_corresp ∅ 0 1 []) contig_sizes [])
      as (contig_lengths & Hok & Hids).
    { intros contig Hin Hnone. apply select_ids_None in Hnone. apply Hnone.
      rewrite lookup_names. apply fold_dict_set_keys. right. apply Hlisted.
      apply fold_dict_set_keys in Hin. destruct Hin as [[]|Hin].
      unfold fasta_sizes in Hin. rewrite map_map in Hin. exact Hin. }
    rewrite Hok in Hrun. destruct Hrun as (Hres & Hinfo). cbn [app] in Hinfo.
    split; [exact Hres|]. rewrite Hinfo, Hrows. split.
    + apply (contig_lengths_loop_lens _ _ _ _ Hok).
    + exact Hids.
Qed.

Lemma catalog_from_files_witness :
  exists contig_sizes contig_mag_corresp,
    read_contigs (fasta_lines demo_fasta) = Ok contig_sizes /\
    get_mags ["ctgB mag1" +:+ nl; "ctgA mag2" +:+ nl] = Ok contig_mag_corresp /\
    mag_info (sqldb_creation_catalog contig_sizes contig_mag_corresp ["a.blast"] empty_db).1
      = [(2, 2, 6); (1, 1, 3)].
Proof.
  destruct (catalog_from_files
              (FastaRecord (">ctgA first contig" +:+ nl) "ctgA" ["ACGT" +:+ nl; "AC" +:+ nl])
              [FastaRecord (">ctgB" +:+ nl) "ctgB" ["GGG"]]
              ["ctgB mag1" +:+ nl; "ctgA mag2" +:+ nl] ["a.blast"] empty_db)
    as (contig_sizes & contig_mag_corresp & Hsizes & Hmags & _).
  - split; [reflexivity|]. repeat constructor; simpl; discriminate.
  - repeat constructor; simpl; discriminate.
  - repeat constructor; vm_compute; discriminate.
  - reflexivity.
  - intros name Hin. vm_compute in Hin. vm_compute. tauto.
  - exists contig_sizes, contig_mag_corresp.
    split; [exact Hsizes|]. split; [exact Hmags|].
    vm_compute in Hsizes. injection Hsizes as <-.
    vm_compute in Hmags. injection Hmags as <-.
    vm_compute. reflexivity.
Defined.

(** ** A file that fails before its first batch *)

Lemma ingest_loop_fails_early {L : Type}
    (step : list string -> L -> result (option hit * list string))
    (sample_name : string) (x : L) (post : list L) (e : exn) (contigs : list string) :
  step contigs x = Raise e ->
  forall pre record_counter records contigs_in_sample db hits,
    parse_records step pre contigs_in_sample = Ok (hits, contigs) ->
    record_counter + len hits < batch_size ->
    ingest_loop step sample_name (pre ++ x :: post) record_counter records
      contigs_in_sample db = (db, Raise e).
Proof.
  intros Hx. induction pre as [|y pre IH]; intros c recs cs db hits Hparse Hc;
    cbn [app ingest_loop parse_records] in *.
  - injection Hparse as <- <-. unfold len in Hc. simpl in Hc.
    destruct (Z.eqb_spec c batch_size) as [E|_]; [lia|].
    rewrite db_bind_unfold, db_ret_unfold. cbv beta iota.
    rewrite db_bind_unfold. unfold db_lift. rewrite Hx. reflexivity.
  - destruct (step cs y) as [[r cs1]|e1] eqn:Hstep; rsimpl; [|discriminate].
    destruct (parse_records step pre cs1) as [[hits1 cs2]|e1] eqn:Hrest; rsimpl;
      [|discriminate].
    injection Hparse as <- <-.
    assert (Hlen : 0 <= len hits1) by (unfold len; lia).
    destruct (Z.eqb_spec c batch_size) as [E|_].
    { destruct r; unfold len in *; simpl in Hc; lia. }
    rewrite db_bind_unfold, db_ret_unfold. cbv beta iota.
    rewrite db_bind_unfold. unfold db_lift. cbv beta iota.
    destruct r as [h|].
    + apply (IH _ _ _ _ hits1 Hrest). unfold len in *. simpl in Hc. lia.
    + apply (IH _ _ _ _ hits1 Hrest). exact Hc.
Qed.

(** X21: a text mapping file (BLAST or SAM) that fails on a record
    before 500000 hits have been retained stores nothing:
    [save_reads_mapped] raises the exception of that record and the
    database is as it was, the hits read so far being lost with the
    batch. *)
Theorem failed_ingestion_stores_nothing (fs : filesystem)
    (mapping_file sample_name map_format : string)
    (contig_mag_corresp : gmap string catalog_entry) (db : database)
    (pre post : list string) (x : string) (hits : list hit) (contigs : list string)
    (e : exn) :
  map_format = "blast" \/ map_format = "sam" ->
  text_files fs !! mapping_file = Some (pre ++ x :: post) ->
  parse_records (text_step map_format contig_mag_corresp) pre [] = Ok (hits, contigs) ->
  len hits < batch_size ->
  text_step map_format contig_mag_corresp contigs x = Raise e ->
  save_reads_mapped fs mapping_file sample_name map_format contig_mag_corresp db
  = (db, Raise e).
Proof.
  intros Hformat Hfile Hpre Hlen Hx.
  unfold save_reads_mapped, open_text. rewrite Hfile.
  destruct Hformat as [-> | ->]; cbn [String.eqb Ascii.eqb Bool.eqb andb] in *;
    unfold text_step in *; cbn [String.eqb Ascii.eqb Bool.eqb andb] in *;
    rewrite db_bind_unfold, db_ret_unfold; cbv beta iota;
    unfold ingest; rewrite db_bind_unfold;
    rewrite (ingest_loop_fails_early _ sample_name x post e contigs Hx pre 0 [] [] db hits
               Hpre) by lia; reflexivity.
Qed.

Lemma failed_ingestion_stores_nothing_witness :
  save_reads_mapped (Filesystem {[ "s.blast" := [blast_ctgA; nl] ]} ∅)
    "s.blast" "sample_1" "blast" demo_catalog demo_db
  = (demo_db, Raise IndexError).
Proof.
  eapply (failed_ingestion_stores_nothing _ _ _ _ _ _ [blast_ctgA] [] nl).
  - left. reflexivity.
  - reflexivity.
  - vm_compute. reflexivity.
  - vm_compute. reflexivity.
  - vm_compute. reflexivity.
Defined.

(** ** Several files in one call of [add_sample] *)

Lemma keeps_ret {A : Type} (a : A) : keeps_catalog (mret a : db_op A).
Proof. intros db. split; reflexivity. Qed.

Lemma keeps_bind {A B : Type} (m : db_op A) (k : A -> db_op B) :
  keeps_catalog m -> (forall a, keeps_catalog (k a)) -> keeps_catalog (m ≫= k).
Proof.
  intros Hm Hk db. rewrite db_bind_unfold. specialize (Hm db).
  destruct (m db) as [db1 [a|e]]; simpl in Hm.
  - destruct (Hk a db1) as [H1 H2]. destruct Hm as [H3 H4]. split; congruence.
  - exact Hm.
Qed.

Lemma keeps_lift {A : Type} (r : result A) : keeps_catalog (db_lift r).
Proof. intros db. split; reflexivity. Qed.

Lemma keeps_insert_hits (t : string) (records : list hit) :
  keeps_catalog (insert_hits t records).
Proof. intros db. unfold insert_hits. destruct (tables db !! t); split; reflexivity. Qed.

Lemma keeps_create_table (t : string) : keeps_catalog (create_table t).
Proof.
  intros db. unfold create_table.
  destruct (tables db !! t), (indexes db !! t); split; reflexivity.
Qed.

Lemma keeps_create_index (i t : string) : keeps_catalog (create_index i t).
Proof.
  intros db. unfold create_index.
  destruct (tables db !! t), (tables db !! i), (indexes db !! i); split; reflexivity.
Qed.

Lemma keeps_ingest_loop {L : Type}
    (step : list string -> L -> result (option hit * list string))
    (sample_name : string) (input_reads : list L) :
  forall record_counter records contigs_in_sample,
    keeps_catalog (ingest_loop step sample_name input_reads record_counter records
                     contigs_in_sample).
Proof.
  induction input_reads as [|line rest IH]; intros c recs cs; cbn [ingest_loop].
  - apply keeps_ret.
  - apply keeps_bind.
    + destruct (c =? batch_size); [|apply keeps_ret].
      apply keeps_bind; [apply keeps_insert_hits|]. intros _. apply keeps_ret.
    + intros [c1 recs1]. apply keeps_bind; [apply keeps_lift|].
      intros [[h|] cs1]; apply IH.
Qed.

Lemma keeps_ingest {L : Type}
    (step : list string -> L -> result (option hit * list string))
    (sample_name : string) (input_reads : list L) :
  keeps_catalog (ingest step sample_name input_reads).
Proof.
  unfold ingest. apply keeps_bind; [apply keeps_ingest_loop|].
  intros [[c recs] cs]. apply keeps_bind.
  - destruct (0 <? c); [apply keeps_insert_hits|apply keeps_ret].
  - intros _. apply keeps_bind; [apply keeps_create_index|]. intros _. apply keeps_ret.
Qed.

Lemma keeps_save_reads_mapped (fs : filesystem)
    (mapping_file sample_name map_format : string)
    (contig_mag_corresp : gmap string catalog_entry) :
  keeps_catalog
    (save_reads_mapped fs mapping_file sample_name map_format contig_mag_corresp).
Proof.
  unfold save_reads_mapped, open_text, open_bam.
  destruct (String.eqb map_format "blast");
    [|destruct (String.eqb map_format "sam");
      [|destruct (String.eqb map_format "bam")]].
  - apply keeps_bind; [|intros; apply keeps_ingest].
    destruct (text_files fs !! mapping_file); [apply keeps_ret|].
    intros db. split; reflexivity.
  - apply keeps_bind; [|intros; apply keeps_ingest].
    destruct (text_files fs !! mapping_file); [apply keeps_ret|].
    intros db. split; reflexivity.
  - apply keeps_bind; [|intros; apply keeps_ingest].
    destruct (bam_files fs !! mapping_file); [apply keeps_ret|].
    intros db. split; reflexivity.
  - intros db. split; reflexivity.
Qed.

Lemma keeps_ingest_sample (fs : filesystem) (map_format : string)
    (contig_mag_corresp : gmap string catalog_entry) (new_sample sample_name : string) :
  keeps_catalog (ingest_sample fs map_format contig_mag_corresp new_sample sample_name).
Proof.
  unfold ingest_sample. apply keeps_bind; [apply keeps_save_reads_mapped|].
  intros contigs. apply keeps_bind; [intros db; split; reflexivity|].
  intros db'. intros db. split; reflexivity.
Qed.

Lemma returns_ret {A : Type} (v : A) : returns_only v (mret v : db_op A).
Proof. intros db db' x H. rewrite db_ret_unfold in H. congruence. Qed.

Lemma returns_bind {A B : Type} (v : B) (m : db_op A) (k : A -> db_op B) :
  (forall a, returns_only v (k a)) -> returns_only v (m ≫= k).
Proof.
  intros Hk db db' x H. rewrite db_bind_unfold in H.
  destruct (m db) as [db1 [a|e]]; [|discriminate]. exact (Hk a _ _ _ H).
Qed.

(** One turn of the loop of [add_sample]: it never touches
    [lookup_table]; an existing sample keeps [sample_info] and the
    counter, a new one appends its row and takes the next number. *)
Lemma add_sample_loop_cons (fs : filesystem) (map_format : string)
    (contig_mag_corresp : gmap string catalog_entry) (samples_dict : gmap string string)
    (new_sample : string) (last_sample : Z) :
  exists turn : db_op Z,
    (forall rest,
        add_sample_loop fs map_format contig_mag_corresp samples_dict (new_sample :: rest)
          last_sample
        = turn ≫= (fun last_sample' =>
            add_sample_loop fs map_format contig_mag_corresp samples_dict rest
              last_sample')) /\
    (forall db db' last_sample',
        turn db = (db', Ok last_sample') ->
        lookup_table db' = lookup_table db /\
        ((sample_info db' = sample_info db /\ last_sample' = last_sample) \/
         (sample_info db'
          = sample_info db
            ++ [(new_sample, "sample_" +:+ pretty (last_sample + 1), last_sample + 1)] /\
          last_sample' = last_sample + 1))).
Proof.
  eexists. split; [intros rest; cbn [add_sample_loop]; reflexivity|].
  intros db db' ls' Hturn.
  destruct (samples_dict !! new_sample) as [sample_name|].
  - assert (Hkeep : keeps_catalog
      (drop_table_if_exists sample_name ≫= fun _ =>
       create_table sample_name ≫= fun _ =>
       delete_mags_per_sample new_sample ≫= fun _ =>
       ingest_sample fs map_format contig_mag_corresp new_sample sample_name ≫= fun _ =>
       (mret last_sample : db_op Z))).
    { apply keeps_bind; [intros d; split; reflexivity|]. intros _.
      apply keeps_bind; [apply keeps_create_table|]. intros _.
      apply keeps_bind; [intros d; split; reflexivity|]. intros _.
      apply keeps_bind; [apply keeps_ingest_sample|]. intros _. apply keeps_ret. }
    assert (Hret : returns_only last_sample
      (drop_table_if_exists sample_name ≫= fun _ =>
       create_table sample_name ≫= fun _ =>
       delete_mags_per_sample new_sample ≫= fun _ =>
       ingest_sample fs map_format contig_mag_corresp new_sample sample_name ≫= fun _ =>
       (mret last_sample : db_op Z))).
    { do 4 (apply returns_bind; intros _). apply returns_ret. }
    specialize (Hkeep db). rewrite Hturn in Hkeep. destruct Hkeep as [Hl Hs].
    split; [exact Hl|]. left. split; [exact Hs|]. exact (Hret _ _ _ Hturn).
  - cbv zeta in Hturn. rewrite db_bind_unfold in Hturn.
    pose proof (keeps_create_table ("sample_" +:+ pretty (last_sample + 1)) db) as Hc.
    destruct (create_table _ db) as [db1 [[]|e]]; [|discriminate]. cbn [fst] in Hc.
    rewrite db_bind_unfold in Hturn.
    pose proof (keeps_ingest_sample fs map_format contig_mag_corresp new_sample
                  ("sample_" +:+ pretty (last_sample + 1)) db1) as Hi.
    destruct (ingest_sample _ _ _ _ _ db1) as [db2 [[]|e]]; [|discriminate]. cbn [fst] in Hi.
    rewrite db_bind_unfold in Hturn. unfold insert_sample_info in Hturn.
    destruct (existsb _ (sample_info db2)); [discriminate|].
    rewrite db_ret_unfold in Hturn. injection Hturn as <- <-.
    destruct Hc as [Hc1 Hc2], Hi as [Hi1 Hi2].
    split; [cbn; congruence|]. right. split; [|reflexivity].
    cbn. congruence.
Qed.

Lemma add_sample_loop_dict (fs : filesystem) (map_format : string)
    (contig_mag_corresp : gmap string catalog_entry)
    (samples_dict samples_dict' : gmap string string) (new_mapping_files : list string) :
  (forall name, In name new_mapping_files -> samples_dict !! name = samples_dict' !! name) ->
  forall last_sample db,
    add_sample_loop fs map_format contig_mag_corresp samples_dict new_mapping_files
      last_sample db
    = add_sample_loop fs map_format contig_mag_corresp samples_dict' new_mapping_files
        last_sample db.
Proof.
  induction new_mapping_files as [|name rest IH]; intros Hsame last_sample db;
    [reflexivity|].
  cbn [add_sample_loop]. rewrite <- (Hsame name) by (left; reflexivity).
  rewrite !db_bind_unfold.
  match goal with |- match ?t with _ => _ end = _ => destruct t as [db1 [ls|e]] end;
    [|reflexivity].
  apply IH. intros n Hn. apply Hsame. right. exact Hn.
Qed.

(** X22: adding several files in one call is adding the first one and
    then the others in a second call, as long as the first name does
    not come again among the others (the dictionary of known samples is
    read once, before the loop, and is not updated). *)
Theorem add_sample_one_by_one (fs : filesystem) (new_sample : string)
    (rest : list string) (map_format : string) (db : database) :
  ~ In new_sample rest ->
  add_sample fs (new_sample :: rest) map_format db
  = (add_sample fs [new_sample] map_format ≫= fun _ => add_sample fs rest map_format) db.
Proof.
  intros Hfresh. rewrite db_bind_unfold. unfold add_sample at 1 2.
  rewrite !db_bind_unfold. unfold db_get. cbv beta iota zeta.
  destruct (add_sample_loop_cons fs map_format (contig_mag_corresp_of (lookup_table db))
              (samples_dict_of (sample_info db)) new_sample
              (last_sample_of (sample_info db))) as (turn & Hcons & Hfacts).
  rewrite (Hcons rest), (Hcons []). rewrite !db_bind_unfold.
  destruct (turn db) as [db1 [ls|e]] eqn:Hturn; [|reflexivity].
  cbn [add_sample_loop]. rewrite db_ret_unfold.
  unfold add_sample. rewrite db_bind_unfold. unfold db_get. cbv beta iota zeta.
  destruct (Hfacts _ _ _ Hturn) as [Hl [[Hs ->]|[Hs ->]]]; rewrite Hl, Hs.
  - reflexivity.
  - assert (Hlast : last_sample_of
                      (sample_info db
                       ++ [(new_sample,
                            "sample_" +:+ pretty (last_sample_of (sample_info db) + 1),
                            last_sample_of (sample_info db) + 1)])
                    = last_sample_of (sample_info db) + 1).
    { unfold last_sample_of. rewrite fold_left_app. cbn [fold_left snd].
      destruct (Z.ltb_spec (fold_left (fun last_sample sample =>
                   if last_sample <? sample.2 then sample.2 else last_sample)
                   (sample_info db) 0)
                 (fold_left (fun last_sample sample =>
                   if last_sample <? sample.2 then sample.2 else last_sample)
                   (sample_info db) 0 + 1)); [reflexivity|lia]. }
    rewrite Hlast. apply add_sample_loop_dict.
    intros name Hname. unfold samples_dict_of. rewrite fold_left_app. cbn [fold_left fst snd].
    rewrite lookup_insert_ne; [reflexivity|]. intros ->. contradiction.
Qed.

Lemma add_sample_one_by_one_witness :
  add_sample demo_fs ["c.blast"; "a.blast"] "blast" demo_db
  = (add_sample demo_fs ["c.blast"] "blast" ≫= fun _ => add_sample demo_fs ["a.blast"] "blast")
      demo_db.
Proof.
  apply (add_sample_one_by_one demo_fs "c.blast" ["a.blast"] "blast" demo_db).
  simpl. intros [H|[]]. discriminate.
Defined.

(** ** Widths that are not positive *)

Lemma matrix_loop_zero_width (n_breaks : nat) (contig_sizes : list (Z * Z))
    (matrix : gmap Z contig_matrix) :
  contig_sizes <> [] ->
  matrix_loop n_breaks 0 contig_sizes matrix = Raise ZeroDivisionError.
Proof. destruct contig_sizes as [|id_len rest]; [congruence|reflexivity]. Qed.

(** X23: the bin width is not checked.  With width 0 the builder
    raises [ZeroDivisionError] for every MAG that has a contig in
    [mag_info]; with a negative width every contig of length L >= 0
    gets the single bin 1..L. *)
Theorem builder_nonpositive_width (fuel : nat) (db : database) (mag_name : string)
    (bin_height id_lower : Q) (id_breaks : list Q) (mag_id c l : Z) :
  make_id_breaks fuel bin_height id_lower = Some id_breaks ->
  select_mag_id db mag_name = Ok mag_id ->
  In (mag_id, c, l) (mag_info db) ->
  prepare_numpy_matrices fuel db mag_name 0 bin_height id_lower
    = Some (Raise ZeroDivisionError) /\
  forall width n_breaks, width < 0 -> 0 <= l ->
    contig_bins n_breaks l width = Ok (ContigMatrix [1] [l] (np_zeros n_breaks 1)).
Proof.
  intros Hbreaks Hmag Hin. split.
  - unfold prepare_numpy_matrices. rewrite Hbreaks, Hmag. rsimpl.
    rewrite matrix_loop_zero_width; [reflexivity|].
    apply select_contig_sizes_In in Hin. intros Hnil. rewrite Hnil in Hin. destruct Hin.
  - intros width n_breaks Hw Hl. unfold contig_bins, num_bins.
    destruct (Z.eqb_spec width 0) as [E|_]; [lia|]. rsimpl.
    assert (Hq : Z.quot l width <= 0).
    { rewrite <- (Z.opp_involutive width), Z.quot_opp_r by lia.
      pose proof (Z.quot_pos l (- width)). lia. }
    destruct (Z.ltb_spec (Z.quot l width) 1) as [_|Hge]; [|lia].
    cbv zeta. unfold bin_starts, np_linspace, bin_ends. cbn [Z.to_nat Pos.to_nat
      Pos.iter_op Nat.add seq map tail app length].
    reflexivity.
Qed.

Lemma builder_nonpositive_width_witness :
  prepare_numpy_matrices 100 demo_db "mag1" 0 (1 # 2) 70 = Some (Raise ZeroDivisionError) /\
  contig_bins 60 2350 (-1000) = Ok (ContigMatrix [1] [2350] (np_zeros 60 1)).
Proof.
  destruct (builder_nonpositive_width 100 demo_db "mag1" (1 # 2) 70
              (match make_id_breaks 100 (1 # 2) 70 with Some b => b | None => [] end)
              1 1 2350) as [Hzero Hneg].
  - vm_compute. reflexivity.
  - reflexivity.
  - simpl. tauto.
  - split; [exact Hzero|]. apply Hneg; lia.
Defined.

(** ** Steps for which the breaks are exact *)

Lemma round_half_even_Z (m : Q) (J : Z) : (m == inject_Z J)%Q -> round_half_even m = J.
Proof.
  intros Hm. unfold round_half_even.
  assert (Hfloor : Qfloor m = J) by (rewrite Hm; apply Qfloor_Z).
  rewrite Hfloor.
  assert (Hd : Qltb (m - inject_Z J) (1 # 2) = true) by (apply Qltb_lt; rewrite Hm; lra).
  rewrite Hd. reflexivity.
Qed.

Lemma Qlog2_below_128 (a : Q) : (0 < a)%Q -> (a < 128)%Q -> Qlog2 a <= 6.
Proof.
  intros Hpos Ha. pose proof (Qlog2_le a Hpos) as Hle.
  assert (Hlt : (2 ^ Qlog2 a < 2 ^ 7)%Q).
  { apply Qle_lt_trans with a; [exact Hle|]. exact Ha. }
  apply Qpower_lt_compat_l_inv in Hlt; [lia|reflexivity].
Qed.

(** A grid number below 128 in magnitude is rounded to itself. *)
Lemma round64_grid (x : Q) :
  on_grid x -> (-128 < x)%Q -> (x < 128)%Q ->
  exists q, round64 x = Finite q /\ (q == x)%Q.
Proof.
  intros [j Hj] Hlo Hhi. unfold round64.
  destruct (Qeq_bool x 0) eqn:E0.
  { exists 0%Q. split; [reflexivity|]. apply Qeq_bool_iff in E0. rewrite E0. reflexivity. }
  assert (Hne : ~ (x == 0)%Q).
  { intros H0. apply Qeq_bool_iff in H0. rewrite H0 in E0. discriminate. }
  set (a := Qabs x).
  assert (Hapos : (0 < a)%Q).
  { unfold a. destruct (Qlt_le_dec 0 x) as [Hp|Hn].
    - rewrite Qabs_pos by lra. exact Hp.
    - rewrite Qabs_neg by exact Hn. lra. }
  assert (Ha128 : (a < 128)%Q).
  { unfold a. destruct (Qlt_le_dec 0 x) as [Hp|Hn].
    - rewrite Qabs_pos by lra. exact Hhi.
    - rewrite Qabs_neg by exact Hn. lra. }
  assert (Hagrid : (a == inject_Z (Z.abs j) * 2 ^ (-46))%Q).
  { unfold a. rewrite Hj. rewrite Qabs_Qmult.
    rewrite (Qabs_pos (2 ^ (-46))) by (apply Qlt_le_weak, two_power_pos).
    apply Qmult_comp; [|reflexivity].
    unfold Qabs, inject_Z. reflexivity. }
  pose proof (Qlog2_below_128 a Hapos Ha128) as Hlog.
  set (k := Z.max (Qlog2 a - 52) (-1074)).
  assert (Hk : k <= -46) by lia.
  pose proof (two_power_pos k) as Hkpos.
  set (J := Z.abs j * 2 ^ (-46 - k)).
  assert (Hm : (a / 2 ^ k == inject_Z J)%Q).
  { unfold J. rewrite inject_Z_mult, <- two_power_Z by lia.
    rewrite Hagrid. rewrite Qpower_minus by discriminate.
    field. intros H0. rewrite H0 in Hkpos. discriminate. }
  rewrite (round_half_even_Z _ J Hm).
  assert (Hr : (inject_Z J * 2 ^ k == a)%Q).
  { rewrite <- Hm. field. intros H0. rewrite H0 in Hkpos. discriminate. }
  assert (Hbig : (128 <= 2 ^ 1024)%Q) by (vm_compute; discriminate).
  destruct (Qle_bool (2 ^ 1024) (inject_Z J * 2 ^ k)) eqn:Eover.
  { apply Qle_bool_iff in Eover. rewrite Hr in Eover. lra. }
  destruct (Qlt_le_dec 0 x) as [Hp|Hn].
  - rewrite (proj2 (Qltb_lt 0 x) Hp). eexists. split; [reflexivity|].
    rewrite Hr. unfold a. apply Qabs_pos. lra.
  - rewrite (proj2 (Qltb_ge 0 x) Hn). eexists. split; [reflexivity|].
    rewrite Hr. unfold a. rewrite Qabs_neg by exact Hn. lra.
Qed.

Lemma on_grid_minus (x y : Q) : on_grid x -> on_grid y -> on_grid (x - y).
Proof.
  intros [i Hi] [j Hj]. exists (i - j). rewrite Hi, Hj.
  unfold Z.sub. rewrite inject_Z_plus, inject_Z_opp. ring.
Qed.

Lemma on_grid_eq (x y : Q) : (x == y)%Q -> on_grid y -> on_grid x.
Proof. intros Heq [j Hj]. exists j. rewrite Heq. exact Hj. Qed.

Lemma on_grid_100 : on_grid 100.
Proof. exists (100 * 2 ^ 46). vm_compute. reflexivity. Qed.

Lemma inject_nat_succ (k : nat) :
  (inject_Z (Z.of_nat (S k)) == inject_Z (Z.of_nat k) + 1)%Q.
Proof. rewrite Nat2Z.inj_succ. unfold Z.succ. rewrite inject_Z_plus. reflexivity. Qed.

(** On the grid the loop stops after [n] turns when [n] is the first
    multiple of the step that takes the break down to the bound, and
    the breaks are the exact differences. *)
Lemma id_breaks_loop_exact (id_lower bin_height : Q) (n : nat) :
  on_grid bin_height -> (0 < bin_height)%Q -> (bin_height <= 100)%Q -> (0 <= id_lower)%Q ->
  forall fuel current_break acc,
    (n <= fuel)%nat -> on_grid current_break -> (current_break <= 100)%Q ->
    (forall k, (k < n)%nat ->
       (id_lower < current_break - inject_Z (Z.of_nat k) * bin_height)%Q) ->
    (current_break - inject_Z (Z.of_nat n) * bin_height <= id_lower)%Q ->
    exists descending,
      id_breaks_loop fuel (Finite current_break) id_lower bin_height acc
        = Some (rev acc ++ descending) /\
      length descending = n /\
      forall k, (k < n)%nat ->
        (nth k descending 0 == current_break - inject_Z (Z.of_nat k) * bin_height)%Q.
Proof.
  intros Hgrid Hpos Hmax Hlow.
  induction n as [|n IH]; intros fuel cur acc Hfuel Hcur H100 Habove Hstop.
  - change (inject_Z (Z.of_nat 0)) with 0%Q in Hstop.
    assert (Hle : (cur <= id_lower)%Q) by lra.
    apply Qltb_ge in Hle. exists []. rewrite app_nil_r.
    split; [destruct fuel; cbn [id_breaks_loop]; rewrite Hle; reflexivity|].
    split; [reflexivity|]. intros k Hk. lia.
  - destruct fuel as [|fuel]; [lia|]. cbn [id_breaks_loop].
    pose proof (Habove 0%nat ltac:(lia)) as H0.
    change (inject_Z (Z.of_nat 0)) with 0%Q in H0.
    assert (Hlt : (id_lower < cur)%Q) by lra.
    rewrite (proj2 (Qltb_lt id_lower cur) Hlt).
    destruct (round64_grid (cur - bin_height)) as (q & Hq & Hqeq);
      [apply on_grid_minus; assumption|lra|lra|].
    unfold float64_sub. rewrite Hq.
    destruct (IH fuel q (cur :: acc)) as (d & Hloop & Hlen & Hnth).
    + lia.
    + apply (on_grid_eq _ _ Hqeq). apply on_grid_minus; assumption.
    + lra.
    + intros k Hk. pose proof (Habove (S k) ltac:(lia)) as Hk'.
      rewrite inject_nat_succ in Hk'. lra.
    + rewrite inject_nat_succ in Hstop. lra.
    + exists (cur :: d). rewrite Hloop. simpl. rewrite <- app_assoc.
      split; [reflexivity|]. split; [rewrite Hlen; reflexivity|].
      intros [|k] Hk; cbn [nth].
      * change (inject_Z (Z.of_nat 0)) with 0%Q. lra.
      * rewrite (Hnth k ltac:(lia)), inject_nat_succ. lra.
Qed.

(** A positive step reaches the lower bound after finitely many turns. *)
Lemma turns_bounded (id_lower bin_height : Q) (N : nat) :
  forall current_break,
    (current_break - inject_Z (Z.of_nat N) * bin_height <= id_lower)%Q ->
    exists n, (n <= N)%nat /\
      (forall k, (k < n)%nat ->
         (id_lower < current_break - inject_Z (Z.of_nat k) * bin_height)%Q) /\
      (current_break - inject_Z (Z.of_nat n) * bin_height <= id_lower)%Q.
Proof.
  induction N as [|N IH]; intros cur HN.
  - exists 0%nat. split; [lia|]. split; [intros; lia|exact HN].
  - destruct (Qlt_le_dec id_lower cur) as [Hlt|Hle].
    + destruct (IH (cur - bin_height)%Q) as (n & Hn & Habove & Hstop).
      { rewrite inject_nat_succ in HN. lra. }
      exists (S n). split; [lia|]. split.
      * intros k Hk. destruct k as [|k].
        -- change (inject_Z (Z.of_nat 0)) with 0%Q. lra.
        -- specialize (Habove k ltac:(lia)). rewrite inject_nat_succ. lra.
      * rewrite inject_nat_succ. lra.
    + exists 0%nat. split; [lia|]. split; [intros; lia|].
      change (inject_Z (Z.of_nat 0)) with 0%Q. lra.
Qed.

Lemma turns_exist (id_lower bin_height current_break : Q) :
  (0 < bin_height)%Q ->
  exists N : nat, (current_break - inject_Z (Z.of_nat N) * bin_height <= id_lower)%Q.
Proof.
  intros Hpos.
  set (q := ((current_break - id_lower) / bin_height)%Q).
  exists (Z.to_nat (Qceiling q)).
  assert (Hq : (q <= inject_Z (Z.of_nat (Z.to_nat (Qceiling q))))%Q).
  { eapply Qle_trans; [apply Qle_ceiling|].
    rewrite <- Zle_Qle. lia. }
  assert (Hmul : (q * bin_height == current_break - id_lower)%Q).
  { unfold q. field. lra. }
  assert (Hq' : (q * bin_height <= inject_Z (Z.of_nat (Z.to_nat (Qceiling q))) * bin_height)%Q).
  { apply Qmult_le_compat_r; [exact Hq|lra]. }
  lra.
Qed.

(** X25: for a step that is a positive multiple of [2^-46] not above
    100 (0.5, 0.25, 1, ...) and a lower bound that is not negative, the
    float subtractions are exact: the loop ends after [n] turns, [n]
    the first multiple of the step that takes 100 down to the bound,
    and the breaks are 100 - k * step for k < n. *)
Theorem breaks_exact_on_binary_steps (bin_height id_lower : Q) :
  on_grid bin_height -> (0 < bin_height)%Q -> (bin_height <= 100)%Q -> (0 <= id_lower)%Q ->
  exists n : nat,
    (forall k, (k < n)%nat -> (id_lower < 100 - inject_Z (Z.of_nat k) * bin_height)%Q) /\
    (100 - inject_Z (Z.of_nat n) * bin_height <= id_lower)%Q /\
    forall fuel, (n <= fuel)%nat ->
      exists descending,
        make_id_breaks fuel bin_height id_lower = Some (rev descending) /\
        length descending = n /\
        forall k, (k < n)%nat ->
          (nth k descending 0 == 100 - inject_Z (Z.of_nat k) * bin_height)%Q.
Proof.
  intros Hgrid Hpos Hmax Hlow.
  destruct (turns_exist id_lower bin_height 100 Hpos) as (N & HN).
  destruct (turns_bounded id_lower bin_height N 100 HN) as (n & _ & Habove & Hstop).
  exists n. split; [exact Habove|]. split; [exact Hstop|].
  intros fuel Hfuel.
  destruct (id_breaks_loop_exact id_lower bin_height n Hgrid Hpos Hmax Hlow fuel 100 []
              Hfuel on_grid_100 ltac:(lra) Habove Hstop) as (d & Hloop & Hlen & Hnth).
  exists d. unfold make_id_breaks. rewrite Hloop. cbn [rev app].
  split; [reflexivity|]. split; [exact Hlen|exact Hnth].
Qed.

Lemma breaks_exact_on_binary_steps_witness :
  exists n : nat,
    (100 - inject_Z (Z.of_nat n) * (1 # 4) <= 70)%Q /\
    exists descending,
      make_id_breaks 200 (1 # 4) 70 = Some (rev descending) /\ length descending = n.
Proof.
  destruct (breaks_exact_on_binary_steps (1 # 4) 70) as (n & Habove & Hstop & Hrun).
  - exists (2 ^ 44). vm_compute. reflexivity.
  - reflexivity.
  - discriminate.
  - discriminate.
  - exists n. split; [exact Hstop|].
    assert (Hn : (n <= 200)%nat).
    { destruct (le_lt_dec n 200) as [Hle|Hgt]; [exact Hle|].
      specialize (Habove 200%nat Hgt). vm_compute in Habove. discriminate. }
    destruct (Hrun 200%nat Hn) as (d & Hd & Hlen & _).
    exists d. split; [exact Hd|exact Hlen].
Defined.
